(** * polybridge.client: a shallow embedding of the request orchestration

    The development follows [polybridge/client.py].  Python values live in
    an explicit object store, so that the in-place updates performed by
    [_merge_responses] and the sharing between its arguments and its result
    are visible.  The HTTP session is an interface ([Session]); the client
    code threads a state made of the object store, the remote world and the
    trace of the requests it has issued.

    Conventions of the model:
    - a Python [str] is a [string] whose characters are code points below
      256; a Python [int] is a [Z]; fractional JSON numbers are outside the
      model;
    - a [dict] is its list of entries in insertion order, with string keys
      (every dict of the client and every decoded JSON object has string
      keys);
    - a Python exception is a value of [exn]; every operation that can raise
      returns a [result]. *)

From Stdlib Require Import ZArith String Ascii List Lia DecimalString Sorted
  Permutation OrderedTypeEx.
From stdpp Require Import base list strings sorting.

Set Warnings "-register-all".

Open Scope string_scope.
Open Scope list_scope.
Open Scope Z_scope.

(** ** Exceptions and results *)

Inductive exn : Type :=
| ValueError (msg : string)
| TypeError
| AttributeError
| KeyError
| OverflowError
| RuntimeError (msg : string)
| HTTPError (msg : string)
| JSONDecodeError
| RequestException (msg : string).

Inductive result (A : Type) : Type :=
| Ok (a : A)
| Raise (e : exn).
Arguments Ok {A} a.
Arguments Raise {A} e.

Definition rbind {A B} (r : result A) (k : A -> result B) : result B :=
  match r with
  | Ok a => k a
  | Raise e => Raise e
  end.

Notation "'let?' x := r 'in' k" := (rbind r (fun x => k))
  (at level 10, x pattern, r at level 100, k at level 200).

(** ** Strings *)

(** [s.replace(old, new)]: the occurrences of [old] are found from left to
    right and do not overlap.  [skip] counts the characters of an occurrence
    that is being stepped over. *)
Fixpoint replace_from (old new : string) (skip : nat) (s : string) : string :=
  match s with
  | EmptyString => EmptyString
  | String c rest =>
      match skip with
      | S k => replace_from old new k rest
      | O =>
          if String.prefix old s
          then new +:+ replace_from old new (Nat.pred (String.length old)) rest
          else String c (replace_from old new O rest)
      end
  end.

Fixpoint intersperse_str (new : string) (s : string) : string :=
  match s with
  | EmptyString => EmptyString
  | String c rest => String c (new +:+ intersperse_str new rest)
  end.

Definition str_replace (old new s : string) : string :=
  match old with
  | EmptyString => new +:+ intersperse_str new s
  | String _ _ => replace_from old new O s
  end.

(** [s.lstrip(c)] and [s.rstrip(c)] for a one-character argument. *)
Fixpoint lstrip (c : ascii) (s : string) : string :=
  match s with
  | String a rest => if Ascii.eqb a c then lstrip c rest else s
  | EmptyString => EmptyString
  end.

Fixpoint rstrip (c : ascii) (s : string) : string :=
  match s with
  | EmptyString => EmptyString
  | String a rest =>
      match rstrip c rest with
      | EmptyString => if Ascii.eqb a c then EmptyString else String a EmptyString
      | r => String a r
      end
  end.

(** [s[:n]] *)
Definition str_take (n : nat) (s : string) : string := substring 0 n s.

(** [needle in s] on strings: the substring test. *)
Fixpoint str_contains (needle s : string) : bool :=
  String.prefix needle s ||
  match s with
  | EmptyString => false
  | String _ rest => str_contains needle rest
  end.

Fixpoint str_join (sep : string) (l : list string) : string :=
  match l with
  | [] => EmptyString
  | [x] => x
  | x :: rest => x +:+ sep +:+ str_join sep rest
  end.

Definition chars (s : string) : list ascii := list_ascii_of_string s.

(** Decimal rendering of an [int]: [str(z)]. *)
Definition str_of_Z (z : Z) : string := NilZero.string_of_int (Z.to_int z).

Definition zero_pad (w : nat) (s : string) : string :=
  string_of_list_ascii (repeat "0"%char (w - String.length s)) +:+ s.

(** ["%0wd" % z] *)
Definition fmt_d (w : nat) (z : Z) : string :=
  if z <? 0
  then "-" +:+ zero_pad (Nat.pred w) (str_of_Z (- z))
  else zero_pad w (str_of_Z z).

Definition hex_digit (n : N) : ascii :=
  match n with
  | 0%N => "0" | 1%N => "1" | 2%N => "2" | 3%N => "3" | 4%N => "4"
  | 5%N => "5" | 6%N => "6" | 7%N => "7" | 8%N => "8" | 9%N => "9"
  | 10%N => "a" | 11%N => "b" | 12%N => "c" | 13%N => "d" | 14%N => "e"
  | _ => "f"
  end%char.

(** ** Decoded JSON

    What [response.json()] returns, as a tree.  The entries of an object are
    in insertion order and have distinct keys. *)

Inductive json : Type :=
| JNull
| JBool (b : bool)
| JNum (z : Z)
| JStr (s : string)
| JArr (items : list json)
| JObj (entries : list (string * json)).

(** The entries of a [dict]: lookup, membership and item assignment. *)
Fixpoint dict_get {V} (k : string) (d : list (string * V)) : option V :=
  match d with
  | [] => None
  | (k', v) :: rest => if String.eqb k' k then Some v else dict_get k rest
  end.

Definition dict_has {V} (k : string) (d : list (string * V)) : bool :=
  match dict_get k d with Some _ => true | None => false end.

(** [d[k] = v]: an existing key keeps its position, a new key goes last. *)
Fixpoint dict_set {V} (k : string) (v : V) (d : list (string * V))
  : list (string * V) :=
  match d with
  | [] => [(k, v)]
  | (k', v') :: rest =>
      if String.eqb k' k then (k, v) :: rest else (k', v') :: dict_set k v rest
  end.

Definition dict_keys {V} (d : list (string * V)) : list string := map fst d.

(** [repr(s)] for a string: the quote is chosen as CPython does, the quote,
    the backslash and the non-printable characters are escaped. *)
Definition printable (c : ascii) : bool :=
  let n := N_of_ascii c in
  ((32 <=? n) && (n <? 127) || (161 <=? n) && negb (n =? 173))%N.

Definition backslash : ascii := "092"%char.
Definition dquote : ascii := "034"%char.
Definition squote : ascii := "039"%char.

Definition str1 (c : ascii) : string := String c EmptyString.
Definition str2 (c d : ascii) : string := String c (str1 d).

Definition repr_char (quote : ascii) (c : ascii) : string :=
  if Ascii.eqb c quote then str2 backslash c
  else if Ascii.eqb c backslash then str2 backslash backslash
  else if Ascii.eqb c "009" then str2 backslash "t"
  else if Ascii.eqb c "010" then str2 backslash "n"
  else if Ascii.eqb c "013" then str2 backslash "r"
  else if printable c then str1 c
  else
    let n := N_of_ascii c in
    str2 backslash "x" +:+ str2 (hex_digit (n / 16)) (hex_digit (n mod 16)).

Definition repr_str (s : string) : string :=
  let cs := chars s in
  let quote :=
    if existsb (Ascii.eqb squote) cs && negb (existsb (Ascii.eqb dquote) cs)
    then dquote else squote in
  String quote (String.concat EmptyString (map (repr_char quote) cs))
    +:+ str1 quote.

(** [repr(v)] and [str(v)] on decoded JSON. *)
Fixpoint py_repr (j : json) : string :=
  match j with
  | JNull => "None"
  | JBool true => "True"
  | JBool false => "False"
  | JNum z => str_of_Z z
  | JStr s => repr_str s
  | JArr items => "[" +:+ str_join ", " (map py_repr items) +:+ "]"
  | JObj entries =>
      "{" +:+ str_join ", "
                (map (fun kv => repr_str (fst kv) +:+ ": " +:+ py_repr (snd kv))
                     entries) +:+ "}"
  end.

Definition py_str (j : json) : string :=
  match j with
  | JStr s => s
  | _ => py_repr j
  end.

(** ** The state and exception monad

    [M S A] is a computation over a state [S] that returns an [A] or raises.
    The state reached when an exception is raised is kept: what the code did
    before it failed (store updates, requests sent) stays observable. *)

Definition M (S A : Type) : Type := S -> result A * S.

Definition ret {S A} (a : A) : M S A := fun s => (Ok a, s).
Definition raise {S A} (e : exn) : M S A := fun s => (Raise e, s).
Definition bind {S A B} (m : M S A) (k : A -> M S B) : M S B :=
  fun s =>
    match m s with
    | (Ok a, s') => k a s'
    | (Raise e, s') => (Raise e, s')
    end.

Notation "x <- m ;; k" := (bind m (fun x => k))
  (at level 100, m at next level, right associativity).
Notation "m ;;; k" := (bind m (fun _ => k))
  (at level 100, right associativity).

(** A computation that only reads the state. *)
Definition reads {S A} (f : S -> result A) : M S A := fun s => (f s, s).

(** A loop that updates a local variable: [for x in l: acc = body(acc, x)] *)
Fixpoint fold_M {S A B} (body : B -> A -> M S B) (l : list A) (acc : B)
  : M S B :=
  match l with
  | [] => ret acc
  | x :: rest => acc' <- body acc x ;; fold_M body rest acc'
  end.

(** [for x in l: body(x)] *)
Fixpoint for_each {S A} (l : list A) (body : A -> M S unit) : M S unit :=
  match l with
  | [] => ret tt
  | x :: rest => body x ;;; for_each rest body
  end.

(** ** The object store

    A value is an immutable scalar or a reference to a mutable container.
    Containers are allocated at the end of the store and never freed. *)

Abbreviation loc := nat.

Inductive val : Type :=
| VNone
| VBool (b : bool)
| VInt (z : Z)
| VStr (s : string)
| VRef (l : loc).

Inductive obj : Type :=
| ODict (entries : list (string * val))
| OList (items : list val).

Abbreviation heap := (list obj).

Definition alloc (o : obj) : M heap val :=
  fun h => (Ok (VRef (List.length h)), h ++ [o]).

Definition store (l : loc) (o : obj) : M heap unit :=
  fun h => (Ok tt, <[l := o]> h).

Definition deref (h : heap) (v : val) : option obj :=
  match v with
  | VRef l => h !! l
  | _ => None
  end.

(** [bool(v)] *)
Definition truthy (h : heap) (v : val) : bool :=
  match v with
  | VNone => false
  | VBool b => b
  | VInt z => negb (z =? 0)
  | VStr s => negb (String.eqb s EmptyString)
  | VRef l =>
      match h !! l with
      | Some (ODict []) | Some (OList []) => false
      | _ => true
      end
  end.

(** [v == s] for a string [s]: only a string equals a string. *)
Definition val_is_str (s : string) (v : val) : bool :=
  match v with
  | VStr s' => String.eqb s' s
  | _ => false
  end.

(** [k in v] for a string [k]: key test on a dict, element test on a list,
    substring test on a string; the other values are not containers. *)
Definition py_contains (k : string) (v : val) (h : heap) : result bool :=
  match v with
  | VStr s => Ok (str_contains k s)
  | VRef l =>
      match h !! l with
      | Some (ODict d) => Ok (dict_has k d)
      | Some (OList items) => Ok (existsb (val_is_str k) items)
      | None => Raise TypeError
      end
  | _ => Raise TypeError
  end.

(** [v[k]] for a string [k]: only a dict can be indexed by a string. *)
Definition getitem (v : val) (k : string) (h : heap) : result val :=
  match deref h v with
  | Some (ODict d) =>
      match dict_get k d with
      | Some x => Ok x
      | None => Raise KeyError
      end
  | _ => Raise TypeError
  end.

(** [v.get(k)]: the attribute exists on dicts only.  [None] stands for the
    default of the call. *)
Definition method_get (v : val) (k : string) (h : heap) : result (option val) :=
  match deref h v with
  | Some (ODict d) => Ok (dict_get k d)
  | _ => Raise AttributeError
  end.

(** [v[k] = x] *)
Definition setitem (v : val) (k : string) (x : val) : M heap unit :=
  fun h =>
    match v with
    | VRef l =>
        match h !! l with
        | Some (ODict d) => (Ok tt, <[l := ODict (dict_set k x d)]> h)
        | _ => (Raise TypeError, h)
        end
    | _ => (Raise TypeError, h)
    end.

(** The bound methods of a dict ([v.setdefault], ...): dicts only. *)
Definition dict_method (v : val) (h : heap) : result unit :=
  match deref h v with
  | Some (ODict _) => Ok tt
  | _ => Raise AttributeError
  end.

(** [v.setdefault(k, x)], once [x] has been evaluated. *)
Definition setdefault (v : val) (k : string) (x : val) : M heap unit :=
  fun h =>
    match v with
    | VRef l =>
        match h !! l with
        | Some (ODict d) =>
            if dict_has k d then (Ok tt, h)
            else (Ok tt, <[l := ODict (dict_set k x d)]> h)
        | _ => (Raise AttributeError, h)
        end
    | _ => (Raise AttributeError, h)
    end.

(** The items [iter(v)] yields: the items of a list, the keys of a dict,
    the characters of a string. *)
Definition iterate (v : val) (h : heap) : result (list val) :=
  match v with
  | VStr s => Ok (map (fun c => VStr (str1 c)) (chars s))
  | VRef l =>
      match h !! l with
      | Some (OList items) => Ok items
      | Some (ODict d) => Ok (map VStr (dict_keys d))
      | None => Raise TypeError
      end
  | _ => Raise TypeError
  end.

(** The bound method [v.extend]: lists only.  The attribute is looked up
    before the argument of the call is evaluated. *)
Definition extend_method (v : val) (h : heap) : result loc :=
  match v with
  | VRef l =>
      match h !! l with
      | Some (OList _) => Ok l
      | _ => Raise AttributeError
      end
  | _ => Raise AttributeError
  end.

Definition list_extend (l : loc) (more : list val) : M heap unit :=
  fun h =>
    match h !! l with
    | Some (OList items) => (Ok tt, <[l := OList (items ++ more)]> h)
    | _ => (Raise TypeError, h)
    end.

(** Loading a decoded JSON tree into the store: every container of the tree
    becomes a fresh object. *)
Fixpoint load (j : json) (h : heap) : val * heap :=
  match j with
  | JNull => (VNone, h)
  | JBool b => (VBool b, h)
  | JNum z => (VInt z, h)
  | JStr s => (VStr s, h)
  | JArr items =>
      let fix load_items (js : list json) (h : heap) : list val * heap :=
        match js with
        | [] => ([], h)
        | j :: rest =>
            let '(v, h1) := load j h in
            let '(vs, h2) := load_items rest h1 in
            (v :: vs, h2)
        end in
      let '(vs, h') := load_items items h in
      (VRef (List.length h'), h' ++ [OList vs])
  | JObj entries =>
      let fix load_entries (es : list (string * json)) (h : heap)
        : list (string * val) * heap :=
        match es with
        | [] => ([], h)
        | (k, j) :: rest =>
            let '(v, h1) := load j h in
            let '(d, h2) := load_entries rest h1 in
            ((k, v) :: d, h2)
        end in
      let '(d, h') := load_entries entries h in
      (VRef (List.length h'), h' ++ [ODict d])
  end.

(** ** [_merge_responses] *)

Definition KNOWN_BLOCKS : list string :=
  ["probabilities"; "prices"; "options_metrics"].

(** One iteration of the loop over the known blocks. *)
Definition merge_block (destination source : val) (block : string)
  : M heap unit :=
  present <- reads (py_contains block source) ;;
  if negb present then ret tt
  else
    block_data <- reads (getitem source block) ;;
    in_destination <- reads (py_contains block destination) ;;
    if negb in_destination then
      columns <- reads (method_get block_data "columns") ;;
      columns <- match columns with
                 | Some c => ret c
                 | None => alloc (OList [])
                 end ;;
      rows <- reads (method_get block_data "rows") ;;
      items <- match rows with
               | Some r => reads (iterate r)
               | None => ret []
               end ;;
      rows_copy <- alloc (OList items) ;;
      new_block <- alloc (ODict [("columns", columns); ("rows", rows_copy)]) ;;
      setitem destination block new_block
    else
      target <- reads (getitem destination block) ;;
      target_rows <- reads (getitem target "rows") ;;
      rows_loc <- reads (extend_method target_rows) ;;
      rows <- reads (method_get block_data "rows") ;;
      items <- match rows with
               | Some r => reads (iterate r)
               | None => ret []
               end ;;
      list_extend rows_loc items.

Definition _merge_responses (destination source : val) : M heap val :=
  fun h =>
    if negb (truthy h destination) then (Ok source, h)
    else
      (for_each KNOWN_BLOCKS (merge_block destination source) ;;;
       in_source <- reads (py_contains "meta" source) ;;
       (if in_source then
          reads (dict_method destination) ;;;
          meta <- reads (getitem source "meta") ;;
          setdefault destination "meta" meta
        else ret tt) ;;;
       ret destination) h.

(** ** Dates and times

    A [datetime] carries its calendar fields and, when it is aware, the
    offset of its time zone from UTC in microseconds ([tzinfo]).  The
    calendar arithmetic is the proleptic Gregorian one of the [datetime]
    module. *)

Record datetime : Type := mk_datetime {
  year : Z; month : Z; day : Z;
  hour : Z; minute : Z; second : Z; microsecond : Z;
  tzinfo : option Z
}.

Definition MAXORDINAL : Z := 3652059.
Definition US_PER_SECOND : Z := 1000000.
Definition US_PER_DAY : Z := 86400 * US_PER_SECOND.

Definition is_leap (y : Z) : bool :=
  (y mod 4 =? 0) && (negb (y mod 100 =? 0) || (y mod 400 =? 0)).

Definition days_before_year (y : Z) : Z :=
  let p := y - 1 in p * 365 + p / 4 - p / 100 + p / 400.

Definition DAYS_IN_MONTH (m : Z) : Z :=
  nth (Z.to_nat m) [-1; 31; 28; 31; 30; 31; 30; 31; 31; 30; 31; 30; 31] 0.

Definition DAYS_BEFORE_MONTH (m : Z) : Z :=
  nth (Z.to_nat m) [-1; 0; 31; 59; 90; 120; 151; 181; 212; 243; 273; 304; 334] 0.

Definition days_before_month (y m : Z) : Z :=
  DAYS_BEFORE_MONTH m + (if (2 <? m) && is_leap y then 1 else 0).

Definition ymd2ord (y m d : Z) : Z :=
  days_before_year y + days_before_month y m + d.

Definition ord2ymd (ordinal : Z) : Z * Z * Z :=
  let n := ordinal - 1 in
  let n400 := n / 146097 in
  let n := n mod 146097 in
  let y := n400 * 400 + 1 in
  let n100 := n / 36524 in
  let n := n mod 36524 in
  let n4 := n / 1461 in
  let n := n mod 1461 in
  let n1 := n / 365 in
  let n := n mod 365 in
  let y := y + n100 * 100 + n4 * 4 + n1 in
  if (n1 =? 4) || (n100 =? 4) then (y - 1, 12, 31)
  else
    let leapyear := (n1 =? 3) && (negb (n4 =? 24) || (n100 =? 3)) in
    let m := Z.shiftr (n + 50) 5 in
    let preceding :=
      DAYS_BEFORE_MONTH m + (if (2 <? m) && leapyear then 1 else 0) in
    if n <? preceding then
      let m := m - 1 in
      let preceding :=
        preceding - (DAYS_IN_MONTH m + (if (m =? 2) && leapyear then 1 else 0)) in
      (y, m, n - preceding + 1)
    else (y, m, n - preceding + 1).

(** Microseconds since the start of day 0 of the calendar, time zone
    ignored. *)
Definition wall_us (dt : datetime) : Z :=
  ymd2ord (year dt) (month dt) (day dt) * US_PER_DAY
  + (hour dt * 3600 + minute dt * 60 + second dt) * US_PER_SECOND
  + microsecond dt.

(** [dt + timedelta(microseconds=delta)] *)
Definition datetime_add (dt : datetime) (delta : Z) : result datetime :=
  let total := wall_us dt + delta in
  let days := total / US_PER_DAY in
  let rest := total mod US_PER_DAY in
  let secs := rest / US_PER_SECOND in
  if (0 <? days) && (days <=? MAXORDINAL) then
    let '(y, m, d) := ord2ymd days in
    Ok {| year := y; month := m; day := d;
          hour := secs / 3600; minute := (secs mod 3600) / 60;
          second := secs mod 60; microsecond := rest mod US_PER_SECOND;
          tzinfo := tzinfo dt |}
  else Raise OverflowError.

(** [timedelta(hours=n)] in microseconds, for a whole number of hours. *)
Definition timedelta_hours (n : Z) : result Z :=
  let us := n * 3600 * US_PER_SECOND in
  let days := us / US_PER_DAY in
  if (-999999999 <=? days) && (days <=? 999999999) then Ok us
  else Raise OverflowError.

Definition replace_tzinfo (dt : datetime) (tz : option Z) : datetime :=
  {| year := year dt; month := month dt; day := day dt;
     hour := hour dt; minute := minute dt; second := second dt;
     microsecond := microsecond dt; tzinfo := tz |}.

Definition replace_microsecond (dt : datetime) (us : Z) : datetime :=
  {| year := year dt; month := month dt; day := day dt;
     hour := hour dt; minute := minute dt; second := second dt;
     microsecond := us; tzinfo := tzinfo dt |}.

(** What the [datetime] module takes from its environment: the offset of the
    local time zone at a naive local time, and the parser
    [datetime.fromisoformat]. *)
Class DatetimeLib : Type := {
  local_utcoffset : datetime -> Z;
  fromisoformat : string -> result datetime
}.

(** [dt.astimezone(timezone.utc)]: a naive [dt] is taken as local time. *)
Definition astimezone_utc `{DatetimeLib} (dt : datetime) : result datetime :=
  let offset :=
    match tzinfo dt with
    | Some o => o
    | None => local_utcoffset dt
    end in
  let? utc := datetime_add dt (- offset) in
  Ok (replace_tzinfo utc (Some 0)).

Definition format_offset (off : option Z) : string :=
  match off with
  | None => EmptyString
  | Some o =>
      let sign := if o <? 0 then "-" else "+" in
      let a := Z.abs o in
      let hh := a / (3600 * US_PER_SECOND) in
      let r := a mod (3600 * US_PER_SECOND) in
      let mm := r / (60 * US_PER_SECOND) in
      let ss := r mod (60 * US_PER_SECOND) in
      sign +:+ fmt_d 2 hh +:+ ":" +:+ fmt_d 2 mm +:+
      (if ss =? 0 then EmptyString
       else ":" +:+ fmt_d 2 (ss / US_PER_SECOND) +:+
            (if ss mod US_PER_SECOND =? 0 then EmptyString
             else "." +:+ fmt_d 6 (ss mod US_PER_SECOND)))
  end.

(** [dt.isoformat()] *)
Definition isoformat (dt : datetime) : string :=
  fmt_d 4 (year dt) +:+ "-" +:+ fmt_d 2 (month dt) +:+ "-" +:+ fmt_d 2 (day dt)
  +:+ "T" +:+ fmt_d 2 (hour dt) +:+ ":" +:+ fmt_d 2 (minute dt) +:+ ":"
  +:+ fmt_d 2 (second dt)
  +:+ (if microsecond dt =? 0 then EmptyString
       else "." +:+ fmt_d 6 (microsecond dt))
  +:+ format_offset (tzinfo dt).

Definition _to_iso `{DatetimeLib} (dt : datetime) : result string :=
  let? utc := astimezone_utc dt in
  Ok (str_replace "+00:00" "Z" (isoformat (replace_microsecond utc 0))).

Definition _ensure_datetime `{DatetimeLib} (value : option string)
    (fallback : datetime) : result datetime :=
  match value with
  | None => Ok fallback
  | Some v =>
      let? parsed := fromisoformat (str_replace "Z" "+00:00" v) in
      let parsed :=
        match tzinfo parsed with
        | None => replace_tzinfo parsed (Some 0)
        | Some _ => parsed
        end in
      astimezone_utc parsed
  end.

(** ** [_chunk] *)

(** [range(0, stop, step)] *)
Definition py_range (stop step : Z) : result (list Z) :=
  if step =? 0 then Raise (ValueError "range() arg 3 must not be zero")
  else
    let count :=
      if 0 <? step then (if 0 <? stop then (stop + step - 1) / step else 0)
      else (if stop <? 0 then (stop + step + 1) / step else 0) in
    Ok (map (fun i => Z.of_nat i * step) (seq 0 (Z.to_nat count))).

(** [sequence[lo:hi]] for [0 <= lo]. *)
Definition py_slice {A} (sequence : list A) (lo hi : Z) : list A :=
  take (Z.to_nat hi - Z.to_nat lo) (drop (Z.to_nat lo) sequence).

(** The chunks the generator yields, in order.  The generator is consumed by
    a [for] loop that does not touch [sequence]. *)
Definition _chunk {A} (sequence : list A) (size : Z) : result (list (list A)) :=
  let? indexes := py_range (Z.of_nat (List.length sequence)) size in
  Ok (map (fun index => py_slice sequence index (index + size)) indexes).

(** ** [sorted(set(market_ids))]

    The market ids that reach [set] are truthy values.  A list or a dict is
    unhashable.  Among the hashable ones, [True] and [1] are equal; numbers
    are ordered by value, strings by code points, and a number cannot be
    compared with a string. *)

Definition hashable (v : val) : bool :=
  match v with
  | VRef _ => false
  | _ => true
  end.

Definition num_of (v : val) : option Z :=
  match v with
  | VBool b => Some (if b then 1 else 0)
  | VInt z => Some z
  | _ => None
  end.

(** [a == b] on hashable values. *)
Definition val_eqb (a b : val) : bool :=
  match a, b with
  | VNone, VNone => true
  | VStr s, VStr t => String.eqb s t
  | _, _ =>
      match num_of a, num_of b with
      | Some x, Some y => x =? y
      | _, _ => false
      end
  end.

(** The elements of [set(l)], each kept at its first occurrence.  The order
    in which a set is iterated is not specified; [sorted] does not depend on
    it, because the elements of a set are pairwise different. *)
Fixpoint dedup (l : list val) : list val :=
  match l with
  | [] => []
  | x :: rest => x :: filter (fun y => negb (val_eqb x y)) (dedup rest)
  end.

Definition py_set (l : list val) : result (list val) :=
  if forallb hashable l then Ok (dedup l) else Raise TypeError.

Definition is_str (v : val) : bool :=
  match v with VStr _ => true | _ => false end.

Definition is_num (v : val) : bool :=
  match num_of v with Some _ => true | None => false end.

(** [a <= b] when both are numbers or both are strings. *)
Definition val_leb (a b : val) : bool :=
  match a, b with
  | VStr s, VStr t => negb (String.ltb t s)
  | _, _ =>
      match num_of a, num_of b with
      | Some x, Some y => x <=? y
      | _, _ => false
      end
  end.

Fixpoint insert_sorted (x : val) (l : list val) : list val :=
  match l with
  | [] => [x]
  | y :: rest => if val_leb x y then x :: l else y :: insert_sorted x rest
  end.

Fixpoint sort_vals (l : list val) : list val :=
  match l with
  | [] => []
  | x :: rest => insert_sorted x (sort_vals rest)
  end.

(** [sorted(l)] for pairwise different hashable values: with fewer than
    two elements nothing is compared; otherwise the elements must all be
    numbers or all be strings, or a comparison raises. *)
Definition py_sorted (l : list val) : result (list val) :=
  match l with
  | [] | [_] => Ok l
  | _ =>
      if forallb is_str l || forallb is_num l then Ok (sort_vals l)
      else Raise TypeError
  end.

(** The JSON encoding of a hashable value in a request body. *)
Definition json_of_val (v : val) : json :=
  match v with
  | VNone => JNull
  | VBool b => JBool b
  | VInt z => JNum z
  | VStr s => JStr s
  | VRef _ => JNull
  end.

(** ** The HTTP session *)

Record http_response : Type := {
  status_code : Z;
  reason : string;
  url : string;
  text : string;
  json_body : option json   (* [None]: the body does not decode *)
}.

Record request : Type := {
  req_endpoint : string;
  req_url : string;
  req_json : json;
  req_timeout : Z
}.

(** The remote side: [session_post url body timeout] answers a request, or
    raises when no response arrives; [utc_now] is the clock. *)
Class Session (W : Type) : Type := {
  session_post : string -> json -> Z -> W -> result http_response * W;
  utc_now : W -> datetime
}.

Record state (W : Type) : Type := mk_state {
  st_heap : heap;
  st_world : W;
  st_trace : list request
}.
Arguments mk_state {W}.
Arguments st_heap {W}.
Arguments st_world {W}.
Arguments st_trace {W}.

Record client : Type := {
  base_url : string;
  timeout : Z
}.

(** [PolybridgeClient.__init__] *)
Definition PolybridgeClient (api_key : string) (base : string) (tmo : Z)
  : result client :=
  if String.eqb api_key EmptyString then Raise (ValueError "API key is required")
  else Ok {| base_url := rstrip "/" base; timeout := tmo |}.

(** [response.raise_for_status()] *)
Definition raise_for_status (r : http_response) : result unit :=
  let code := status_code r in
  if (400 <=? code) && (code <? 500) then
    Raise (HTTPError (str_of_Z code +:+ " Client Error: " +:+ reason r
                      +:+ " for url: " +:+ url r))
  else if (500 <=? code) && (code <? 600) then
    Raise (HTTPError (str_of_Z code +:+ " Server Error: " +:+ reason r
                      +:+ " for url: " +:+ url r))
  else Ok tt.

(** [k in data] and [data[k]] on a decoded body. *)
Definition json_contains (k : string) (data : json) : result bool :=
  match data with
  | JObj d => Ok (dict_has k d)
  | JArr items =>
      Ok (existsb (fun j => match j with JStr s => String.eqb s k | _ => false end)
                  items)
  | JStr s => Ok (str_contains k s)
  | _ => Raise TypeError
  end.

Definition json_getitem (data : json) (k : string) : result json :=
  match data with
  | JObj d =>
      match dict_get k d with
      | Some v => Ok v
      | None => Raise KeyError
      end
  | _ => Raise TypeError
  end.

Definition get_default (k : string) (default : string) (d : list (string * json))
  : string :=
  match dict_get k d with
  | Some v => py_str v
  | None => default
  end.

(** The [try] block that extracts the error details of a body. *)
Definition error_detail_of (data : json) : result string :=
  let? has_error := json_contains "error" data in
  if has_error then
    let? error_obj := json_getitem data "error" in
    match error_obj with
    | JObj d =>
        Ok ("Code: " +:+ get_default "code" "UNKNOWN" d
            +:+ ", Message: " +:+ get_default "message" "No message" d
            +:+ (match dict_get "detail" d with
                 | Some detail => ", Detail: " +:+ py_str detail
                 | None => EmptyString
                 end))
    | _ => Ok (py_str error_obj)
    end
  else Ok EmptyString.

Definition error_detail (r : http_response) : string :=
  match json_body r with
  | None => str_take 500 (text r)
  | Some data =>
      match error_detail_of data with
      | Ok detail => detail
      | Raise _ => str_take 500 (text r)
      end
  end.

(** The message of the [RuntimeError] raised for an error envelope. *)
Definition error_msg (error_obj : json) : string :=
  match error_obj with
  | JObj d => get_default "message" (py_str error_obj) d
  | _ => py_str error_obj
  end.

(** What [_post] does with the response it received: raise, or hand out the
    decoded body. *)
Definition check_response (r : http_response) : result json :=
  let detail := error_detail r in
  match raise_for_status r with
  | Raise (HTTPError exc) =>
      Raise (HTTPError (exc +:+ " | " +:+
                        (if String.eqb detail EmptyString
                         then str_take 500 (text r) else detail)))
  | Raise e => Raise e
  | Ok _ =>
      match json_body r with
      | None => Raise JSONDecodeError
      | Some data =>
          let? has_error := json_contains "error" data in
          if has_error then
            let? error_obj := json_getitem data "error" in
            Raise (RuntimeError ("API returned error: " +:+ error_msg error_obj))
          else Ok data
      end
  end.

(** ** Catalog and time series *)

Definition HORIZON_INTERVAL_MAP : list (string * string) :=
  [("daily", "5m"); ("weekly", "30m"); ("monthly", "1h"); ("yearly", "4h")].

(** A table built by pandas.  The constructor is taken as given: it keeps
    the rows it was built from. *)
Inductive frame : Type :=
| DataFrame_empty
| DataFrame (rows : val).

Record TimeseriesResult : Type := {
  catalog : val;
  responses : list (string * val);
  dataframes : list (string * frame)
}.

(** The keyword arguments of [fetch_timeseries].  [hours] is a whole number
    of hours. *)
Record timeseries_args : Type := {
  asset : string;
  horizons : list string;
  market_types : option (list string);
  start_ts : option string;
  end_ts : option string;
  hours : Z;
  include_prices : bool;
  include_open_interest : bool;
  include_options_metrics : bool;
  prices_instrument : string;
  chunk_size : Z;
  include_probabilities : bool
}.

(** [if l: payload[name] = list(l)] and [if s: payload[name] = s] *)
Definition list_field (name : string) (l : option (list string))
  : list (string * json) :=
  match l with
  | Some (x :: rest) => [(name, JArr (map JStr (x :: rest)))]
  | _ => []
  end.

Definition str_field (name : string) (s : option string)
  : list (string * json) :=
  match s with
  | Some (String c rest) => [(name, JStr (String c rest))]
  | _ => []
  end.

(** The body of a catalog request. *)
Definition catalog_payload (assets horizons market_types : option (list string))
    (start_ts end_ts : option string) : json :=
  JObj (list_field "assets" assets ++ list_field "horizons" horizons
        ++ list_field "market_types" market_types
        ++ str_field "start_ts" start_ts ++ str_field "end_ts" end_ts).

(** The [blocks] list of a bulk request. *)
Definition request_blocks (args : timeseries_args) (interval : string)
  : list string :=
  (if include_probabilities args then ["probabilities"] else [])
  ++ (if include_prices args then ["prices"] else [])
  ++ (if include_options_metrics args && String.eqb interval "1d"
      then ["options_metrics"] else []).

(** The body of a bulk request for one chunk. *)
Definition merged_payload (args : timeseries_args) (interval : string)
    (chunk : list val) (start_iso end_iso : string) : json :=
  JObj ([("markets", JArr (map json_of_val chunk));
         ("interval", JStr interval);
         ("start_ts", JStr start_iso);
         ("end_ts", JStr end_iso);
         ("blocks", JArr (map JStr (request_blocks args interval)))]
        ++ (if include_prices args
            then [("prices",
                   JObj [("instrument_type", JStr (prices_instrument args));
                         ("include_open_interest",
                          JBool (include_open_interest args))])]
            else [])).

(** [markets_by_interval[interval].append(market_id)] on a
    [defaultdict(list)]. *)
Definition group_append (interval : string) (market_id : val)
    (groups : list (string * list val)) : list (string * list val) :=
  match dict_get interval groups with
  | Some ids => dict_set interval (ids ++ [market_id]) groups
  | None => dict_set interval [market_id] groups
  end.

(** [HORIZON_INTERVAL_MAP.get(horizon)]: a list or a dict cannot be hashed;
    only a string can equal a key. *)
Definition interval_of (horizon : val) : result (option string) :=
  match horizon with
  | VStr s => Ok (dict_get s HORIZON_INTERVAL_MAP)
  | VRef _ => Raise TypeError
  | _ => Ok None
  end.

Definition or_none (v : option val) : val :=
  match v with
  | Some x => x
  | None => VNone
  end.

(** The loop that groups the market ids of the catalog by interval. *)
Definition group_entry (groups : list (string * list val)) (entry : val)
  : M heap (list (string * list val)) :=
  horizon <- reads (method_get entry "horizon") ;;
  market_id <- reads (method_get entry "market_id") ;;
  fun h =>
    if negb (truthy h (or_none horizon)) || negb (truthy h (or_none market_id))
    then (Ok groups, h)
    else
      match interval_of (or_none horizon) with
      | Raise e => (Raise e, h)
      | Ok (Some interval) =>
          if String.eqb interval EmptyString then (Ok groups, h)
          else (Ok (group_append interval (or_none market_id) groups), h)
      | Ok None => (Ok groups, h)
      end.

Definition group_markets (catalog : val) : M heap (list (string * list val)) :=
  entries <- reads (iterate catalog) ;;
  fold_M group_entry entries [].

Definition is_dict (h : heap) (v : val) : bool :=
  match deref h v with
  | Some (ODict _) => true
  | _ => false
  end.

(** [_response_to_frames] *)
Definition frame_of_block (response : val) (frames : list (string * frame))
    (block : string) : M heap (list (string * frame)) :=
  present <- reads (py_contains block response) ;;
  if negb present then ret frames
  else
    item <- reads (getitem response block) ;;
    fun h =>
      if is_dict h item then
        match method_get item "rows" h with
        | Raise e => (Raise e, h)
        | Ok rows =>
            let frame :=
              match rows with
              | Some r => if truthy h r then DataFrame r else DataFrame_empty
              | None => DataFrame_empty
              end in
            (Ok (dict_set block frame frames), h)
        end
      else (Ok frames, h).

Definition _response_to_frames (response : val) : M heap (list (string * frame)) :=
  fold_M (frame_of_block response) KNOWN_BLOCKS [].

(** The key of a table in the result. *)
Definition frame_key (groups : list (string * list val)) (block interval : string)
  : string :=
  if (List.length groups =? 1)%nat then block else block +:+ "_" +:+ interval.

Section Client.
Context {W : Type} `{Session W} `{DatetimeLib}.

(** A computation on the object store, run by the client. *)
Definition on_heap {A} (m : M heap A) : M (state W) A :=
  fun s =>
    let '(r, h) := m (st_heap s) in
    (r, mk_state h (st_world s) (st_trace s)).

Definition pure {A} (r : result A) : M (state W) A := fun s => (r, s).

(** [self.session.post(url, json=payload, timeout=self.timeout)]: the
    request is recorded in the trace, then the remote side answers. *)
Definition send (rq : request) : M (state W) http_response :=
  fun s =>
    let '(r, w) :=
      session_post (req_url rq) (req_json rq) (req_timeout rq) (st_world s) in
    (r, mk_state (st_heap s) w (st_trace s ++ [rq])).

Definition _post (c : client) (endpoint : string) (payload : json)
  : M (state W) val :=
  let url := base_url c +:+ "/" +:+ lstrip "/" endpoint in
  response <- send {| req_endpoint := endpoint; req_url := url;
                      req_json := payload; req_timeout := timeout c |} ;;
  data <- pure (check_response response) ;;
  on_heap (fun h => let '(v, h') := load data h in (Ok v, h')).

Definition fetch_market_catalog (c : client)
    (assets horizons market_types : option (list string))
    (start_ts end_ts : option string) : M (state W) val :=
  _post c "api_v1_market_catalog"
        (catalog_payload assets horizons market_types start_ts end_ts).

(** The time window [(start_dt, end_dt)] of a call. *)
Definition time_window (args : timeseries_args)
  : M (state W) (datetime * datetime) :=
  fun s =>
    pure (let? end_dt := _ensure_datetime (end_ts args) (utc_now (st_world s)) in
          let? delta := timedelta_hours (hours args) in
          let? fallback := datetime_add end_dt (- delta) in
          let? start_dt := _ensure_datetime (start_ts args) fallback in
          Ok (start_dt, end_dt)) s.

(** [self._to_iso(dt) if ts else None] *)
Definition iso_if_given (ts : option string) (dt : datetime)
  : result (option string) :=
  match ts with
  | Some (String _ _) => let? iso := _to_iso dt in Ok (Some iso)
  | _ => Ok None
  end.

(** The catalog request of [fetch_timeseries]. *)
Definition catalog_request (c : client) (args : timeseries_args)
    (start_dt end_dt : datetime) : M (state W) val :=
  start_iso <- pure (iso_if_given (start_ts args) start_dt) ;;
  end_iso <- pure (iso_if_given (end_ts args) end_dt) ;;
  fetch_market_catalog c (Some [asset args]) (Some (horizons args))
                       (market_types args) start_iso end_iso.

(** One iteration of the loop over the chunks of an interval. *)
Definition fetch_chunk (c : client) (args : timeseries_args)
    (start_dt end_dt : datetime) (interval : string)
    (aggregated : val) (chunk : list val) : M (state W) val :=
  start_iso <- pure (_to_iso start_dt) ;;
  end_iso <- pure (_to_iso end_dt) ;;
  response <- _post c "api_v1_merged"
                (merged_payload args interval chunk start_iso end_iso) ;;
  on_heap (_merge_responses aggregated response).

(** One iteration of the loop over [markets_by_interval.items()].  The
    loop carries [merged_responses] and [dataframes]. *)
Definition fetch_interval (c : client) (args : timeseries_args)
    (start_dt end_dt : datetime) (groups : list (string * list val))
    (acc : list (string * val) * list (string * frame))
    (group : string * list val)
  : M (state W) (list (string * val) * list (string * frame)) :=
  let '(interval, market_ids) := group in
  unique_ids <- pure (let? ids := py_set market_ids in py_sorted ids) ;;
  match unique_ids with
  | [] => ret acc
  | _ =>
      aggregated <- on_heap (alloc (ODict [])) ;;
      chunks <- pure (_chunk unique_ids (chunk_size args)) ;;
      aggregated <- fold_M (fetch_chunk c args start_dt end_dt interval)
                           chunks aggregated ;;
      frames <- on_heap (_response_to_frames aggregated) ;;
      ret (dict_set interval aggregated (fst acc),
           fold_left (fun dfs bf =>
                        dict_set (frame_key groups (fst bf) interval) (snd bf) dfs)
                     frames (snd acc))
  end.

Definition fetch_timeseries (c : client) (args : timeseries_args)
  : M (state W) TimeseriesResult :=
  match horizons args with
  | [] => raise (ValueError "At least one horizon must be provided")
  | _ =>
      window <- time_window args ;;
      let '(start_dt, end_dt) := window in
      catalog_response <- catalog_request c args start_dt end_dt ;;
      markets <- on_heap (reads (method_get catalog_response "markets")) ;;
      catalog <- match markets with
                 | Some v => ret v
                 | None => on_heap (alloc (OList []))
                 end ;;
      is_truthy <- on_heap (reads (fun h => Ok (truthy h catalog))) ;;
      if negb is_truthy then
        empty <- on_heap (alloc (OList [])) ;;
        ret {| catalog := empty; responses := []; dataframes := [] |}
      else
        groups <- on_heap (group_markets catalog) ;;
        tables <- fold_M (fetch_interval c args start_dt end_dt groups)
                         groups ([], []) ;;
        ret {| catalog := catalog; responses := fst tables;
               dataframes := snd tables |}
  end.
End Client.

(** ** Sample inputs

    The inputs of the unit tests of the client, and a few remote sides, on
    which the statements below are exercised. *)

(** [test_merge_responses_empty_destination]: an empty destination at
    location 0 and the source of the test loaded after it. *)
Definition sample_source_json : json :=
  JObj [("probabilities",
         JObj [("columns", JArr [JStr "col1"]);
               ("rows", JArr [JObj [("col1", JStr "value1")]])]);
        ("meta", JObj [("key", JStr "value")])].

Definition sample_source : val := fst (load sample_source_json [ODict []]).
Definition sample_store : heap := snd (load sample_source_json [ODict []]).

(** ** Vocabulary of the statements *)

(** The characters a date or a time is written with. *)
Definition date_char (c : ascii) : bool :=
  existsb (Ascii.eqb c) (chars "0123456789-T:").

Definition date_string (s : string) : Prop :=
  Forall (fun c => date_char c = true) (chars s).

(** [YYYY-MM-DDTHH:MM:SS] *)
Definition iso_seconds (dt : datetime) : string :=
  fmt_d 4 (year dt) +:+ "-" +:+ fmt_d 2 (month dt) +:+ "-" +:+ fmt_d 2 (day dt)
  +:+ "T" +:+ fmt_d 2 (hour dt) +:+ ":" +:+ fmt_d 2 (minute dt) +:+ ":"
  +:+ fmt_d 2 (second dt).

(** A [datetime] library whose local zone is UTC and whose parser knows the
    timestamp of the unit tests. *)
#[export] Instance sample_datetime_lib : DatetimeLib := {|
  local_utcoffset := fun _ => 0;
  fromisoformat := fun s =>
    if String.eqb s "2024-01-01T12:00:00+00:00"
    then Ok (mk_datetime 2024 1 1 12 0 0 0 (Some 0))
    else Raise (ValueError "Invalid isoformat string")
|}.

(** 13:30:00.000123 at UTC+01:30 on 2024-01-01, and its UTC value. *)
Definition sample_datetime : datetime :=
  mk_datetime 2024 1 1 13 30 0 123 (Some (5400 * US_PER_SECOND)).

Definition sample_datetime_utc : datetime :=
  mk_datetime 2024 1 1 12 0 0 123 (Some 0).

(** The message of an error envelope as the specification words it: the
    [message] field of the error object when it is a mapping, the
    stringified error value otherwise. *)
Definition message_from_field (error_obj : json) (msg : string) : Prop :=
  match error_obj with
  | JObj d => exists m, dict_get "message" d = Some m /\ msg = py_str m
  | _ => msg = py_str error_obj
  end.

(** A remote side that plays a script: each request takes the next answer
    of the list; once the script is over no response arrives. *)
#[export] Instance scripted_session : Session (list (result http_response)) := {|
  session_post := fun _ _ _ script =>
    match script with
    | answer :: rest => (answer, rest)
    | [] => (Raise (RequestException "no response"), [])
    end;
  utc_now := fun _ => mk_datetime 2024 1 1 12 0 0 0 (Some 0)
|}.

Definition sample_client : client :=
  {| base_url := "https://api.example"; timeout := 60 |}.

Definition http_ok (body : json) : result http_response :=
  Ok {| status_code := 200; reason := "OK"; url := "https://api.example";
        text := EmptyString; json_body := Some body |}.

Definition http_status (code : Z) (why : string) : result http_response :=
  Ok {| status_code := code; reason := why; url := "https://api.example";
        text := why; json_body := None |}.

(** An error envelope whose error object has a message, and one whose error
    object is a mapping without a message. *)
Definition envelope_with_message : json :=
  JObj [("error", JObj [("code", JStr "E1"); ("message", JStr "quota exceeded")])].

Definition envelope_without_message : json :=
  JObj [("error", JObj [("code", JStr "E1")])].

(** [client.fetch_timeseries(asset="BTC", horizons=[])] and the same call
    with one horizon. *)
Definition sample_args (hs : list string) : timeseries_args :=
  {| asset := "BTC"; horizons := hs; market_types := None;
     start_ts := None; end_ts := None; hours := 6;
     include_prices := true; include_open_interest := true;
     include_options_metrics := false; prices_instrument := "spot";
     chunk_size := 10; include_probabilities := true |}.

(** The request a client sends to an endpoint. *)
Definition request_to (c : client) (endpoint : string) (payload : json) : request :=
  {| req_endpoint := endpoint;
     req_url := base_url c +:+ "/" +:+ lstrip "/" endpoint;
     req_json := payload; req_timeout := timeout c |}.

(** The rows of a block of a response: the location of the list object
    [response[block]["rows"]] and its items.  Both are defined when
    [response] is a dict, [response[block]] is a dict and its [rows] entry
    is a list. *)
Definition block_rows_loc (h : heap) (response : val) (block : string)
  : option loc :=
  match deref h response with
  | Some (ODict d) =>
      match dict_get block d with
      | Some block_data =>
          match deref h block_data with
          | Some (ODict bd) =>
              match dict_get "rows" bd with
              | Some (VRef l) =>
                  match h !! l with
                  | Some (OList _) => Some l
                  | _ => None
                  end
              | _ => None
              end
          | _ => None
          end
      | None => None
      end
  | _ => None
  end.

Definition block_rows (h : heap) (response : val) (block : string)
  : option (list val) :=
  match block_rows_loc h response block with
  | Some l =>
      match h !! l with
      | Some (OList items) => Some items
      | _ => None
      end
  | None => None
  end.

(** [test_merge_responses_non_empty_destination]: destination and source
    hold one row each in the block [probabilities]. *)
Definition sample_destination_json : json :=
  JObj [("probabilities",
         JObj [("columns", JArr [JStr "col1"]);
               ("rows", JArr [JObj [("col1", JStr "value1")]])])].

Definition sample_second_json : json :=
  JObj [("probabilities",
         JObj [("columns", JArr [JStr "col1"]);
               ("rows", JArr [JObj [("col1", JStr "value2")]])])].

Definition sample_merge_store : heap :=
  snd (load sample_second_json (snd (load sample_destination_json []))).

(** What the loop of [_merge_responses] over the blocks maintains between
    the store [h] it started from and the current store [hk], [done] being
    the blocks already processed, [dl] the destination and [sl] the source:
    dicts keep their entries and gain entries for processed blocks only; a list is unchanged unless it holds the rows of a
    processed block of the destination; the rows of a processed block present
    on both sides have been extended. *)
Definition merge_inv (h : heap) (dl sl : loc) (done : list string) (hk : heap)
  : Prop :=
  (forall l d, h !! l = Some (ODict d) ->
     exists d', hk !! l = Some (ODict d') /\
       (forall key v, dict_get key d = Some v -> dict_get key d' = Some v) /\
       (forall key, ~ In key done -> dict_get key d = None ->
                    dict_get key d' = None)) /\
  (forall l xs, h !! l = Some (OList xs) ->
     (forall b, In b done -> block_rows_loc h (VRef dl) b <> Some l) ->
     hk !! l = Some (OList xs)) /\
  (forall b l rd rs, In b done ->
     block_rows_loc h (VRef dl) b = Some l -> h !! l = Some (OList rd) ->
     block_rows h (VRef sl) b = Some rs ->
     hk !! l = Some (OList (rd ++ rs))).

(** A response in the sense of the data model: a dict in which every known
    block that is present is a dict with a [rows] list. *)
Definition response_ok (h : heap) (response : val) : Prop :=
  exists (l : loc) (d : list (string * val)),
    response = VRef l /\ h !! l = Some (ODict d) /\
    forall b, In b KNOWN_BLOCKS -> dict_has b d = true ->
              is_Some (block_rows_loc h response b).

(** The rows of different blocks are different list objects: no rows list
    of the destination serves another block of the destination or of the
    source.  Responses decoded from JSON are trees and satisfy this. *)
Definition rows_apart (h : heap) (destination source : val) : Prop :=
  forall b b' l, In b KNOWN_BLOCKS -> In b' KNOWN_BLOCKS -> b <> b' ->
    block_rows_loc h destination b = Some l ->
    block_rows_loc h destination b' <> Some l /\
    block_rows_loc h source b' <> Some l.

(** The outcome of a computation is a value, not an exception. *)
Definition is_ok {A} (r : result A) : Prop :=
  match r with
  | Ok _ => True
  | Raise _ => False
  end.

(** [sorted(set(market_ids))] *)
Definition unique_ids_of (market_ids : list val) : result (list val) :=
  let? ids := py_set market_ids in py_sorted ids.

(** The fields of the body of a bulk request. *)
Definition payload_field (name : string) (payload : json) : option json :=
  match payload with
  | JObj entries => dict_get name entries
  | _ => None
  end.

Definition payload_markets (payload : json) : list json :=
  match payload_field "markets" payload with
  | Some (JArr ids) => ids
  | _ => []
  end.

Definition payload_interval (payload : json) : option string :=
  match payload_field "interval" payload with
  | Some (JStr interval) => Some interval
  | _ => None
  end.

Definition payload_blocks (payload : json) : list json :=
  match payload_field "blocks" payload with
  | Some (JArr blocks) => blocks
  | _ => []
  end.

(** The market ids sent for an interval by a sequence of requests, in the
    order of the requests. *)
Definition markets_sent (interval : string) (requests : list request) : list json :=
  flat_map (fun rq =>
              match payload_interval (req_json rq) with
              | Some i => if String.eqb i interval
                          then payload_markets (req_json rq) else []
              | None => []
              end) requests.



(** The same order on the values of the store. *)
Definition val_lt (a b : val) : Prop :=
  match a, b with
  | VStr s, VStr t => String.ltb s t = true
  | _, _ =>
      match num_of a, num_of b with
      | Some x, Some y => x < y
      | _, _ => False
      end
  end.

(** The bulk request for one chunk of an interval. *)
Definition merged_request (c : client) (args : timeseries_args)
    (start_iso end_iso interval : string) (chunk : list val) : request :=
  request_to c "api_v1_merged"
             (merged_payload args interval chunk start_iso end_iso).

(** The bulk requests a complete run sends for one group, and for all the
    groups, in order. *)
Definition interval_plan (c : client) (args : timeseries_args)
    (start_iso end_iso : string) (group : string * list val) : list request :=
  match unique_ids_of (snd group) with
  | Ok ids =>
      match _chunk ids (chunk_size args) with
      | Ok chunks =>
          map (merged_request c args start_iso end_iso (fst group)) chunks
      | Raise _ => []
      end
  | Raise _ => []
  end.

Definition plan (c : client) (args : timeseries_args)
    (start_iso end_iso : string) (groups : list (string * list val))
  : list request :=
  flat_map (interval_plan c args start_iso end_iso) groups.

(** The text [_to_iso] gives for a timestamp of the window (empty when it
    raises: no bulk request is sent then). *)
Definition iso_text `{DatetimeLib} (dt : datetime) : string :=
  match _to_iso dt with
  | Ok text => text
  | Raise _ => EmptyString
  end.

(** The intervals of the static mapping. *)
Definition MAPPED_INTERVALS : list string := ["5m"; "30m"; "1h"; "4h"].

(** What the grouping loop guarantees about [markets_by_interval]: the keys
    are distinct intervals of the static mapping and every group holds at
    least one id. *)
Definition groups_ok (groups : list (string * list val)) : Prop :=
  List.NoDup (map fst groups) /\
  Forall (fun g => In (fst g) MAPPED_INTERVALS /\ snd g <> []) groups.

Section Phases.
Context {W : Type} `{Session W} `{DatetimeLib}.

(** The first part of [fetch_timeseries], up to the grouping of the market
    ids: it yields the time window, the catalog and [markets_by_interval],
    or nothing when the catalog is empty. *)
Definition resolve_groups (c : client) (args : timeseries_args)
  : M (state W)
      (option (datetime * datetime * val * list (string * list val))) :=
  match horizons args with
  | [] => raise (ValueError "At least one horizon must be provided")
  | _ =>
      window <- time_window args ;;
      let '(start_dt, end_dt) := window in
      catalog_response <- catalog_request c args start_dt end_dt ;;
      markets <- on_heap (reads (method_get catalog_response "markets")) ;;
      catalog <- match markets with
                 | Some v => ret v
                 | None => on_heap (alloc (OList []))
                 end ;;
      is_truthy <- on_heap (reads (fun h => Ok (truthy h catalog))) ;;
      if negb is_truthy then ret None
      else
        groups <- on_heap (group_markets catalog) ;;
        ret (Some (start_dt, end_dt, catalog, groups))
  end.

(** The second part: the loop over the groups and the result. *)
Definition fetch_groups (c : client) (args : timeseries_args)
    (resolved : option (datetime * datetime * val * list (string * list val)))
  : M (state W) TimeseriesResult :=
  match resolved with
  | None =>
      empty <- on_heap (alloc (OList [])) ;;
      ret {| catalog := empty; responses := []; dataframes := [] |}
  | Some (start_dt, end_dt, catalog, groups) =>
      tables <- fold_M (fetch_interval c args start_dt end_dt groups)
                       groups ([], []) ;;
      ret {| catalog := catalog; responses := fst tables;
             dataframes := snd tables |}
  end.
End Phases.

(** Two values that [sorted] can compare: two strings or two numbers. *)
Definition same_kind (a b : val) : bool :=
  (is_str a && is_str b) || (is_num a && is_num b).

(** A catalog of three daily entries, two of them for the same market, and
    one weekly entry; the remote side answers the catalog request with it
    and the two bulk requests with one row each. *)
Definition catalog_entry (horizon market_id : string) : json :=
  JObj [("market_id", JStr market_id); ("horizon", JStr horizon)].

Definition sample_catalog_json : json :=
  JObj [("markets",
         JArr [catalog_entry "daily" "m2"; catalog_entry "daily" "m1";
               catalog_entry "weekly" "w1"; catalog_entry "daily" "m2"])].

Definition sample_script : list (result http_response) :=
  [http_ok sample_catalog_json; http_ok sample_destination_json;
   http_ok sample_second_json].

(** [client.fetch_timeseries(asset="BTC", horizons=["daily", "weekly"],
    chunk_size=size)] *)
Definition sample_call (size : Z) : timeseries_args :=
  {| asset := "BTC"; horizons := ["daily"; "weekly"]; market_types := None;
     start_ts := None; end_ts := None; hours := 6;
     include_prices := true; include_open_interest := true;
     include_options_metrics := true; prices_instrument := "spot";
     chunk_size := size; include_probabilities := true |}.

(** The instant a [datetime] denotes, in microseconds on the UTC time
    line: its wall clock minus its offset from UTC, a naive value being
    taken at the offset [naive_offset]. *)
Definition instant_at (naive_offset : Z) (dt : datetime) : Z :=
  wall_us dt - match tzinfo dt with
               | Some offset => offset
               | None => naive_offset
               end.


(** The interval and the market id under which the grouping loop files an
    entry of the catalog: the entry needs a market id that counts as true
    and a horizon of the static mapping. *)
Definition entry_target (h : heap) (entry : val) : option (string * val) :=
  match deref h entry with
  | Some (ODict d) =>
      match dict_get "horizon" d, dict_get "market_id" d with
      | Some (VStr horizon), Some market_id =>
          if truthy h market_id
          then match dict_get horizon HORIZON_INTERVAL_MAP with
               | Some interval => Some (interval, market_id)
               | None => None
               end
          else None
      | _, _ => None
      end
  | _ => None
  end.

(** The market ids filed under an interval, in the order of the catalog. *)
Definition ids_of_interval (h : heap) (interval : string) (entries : list val)
  : list val :=
  flat_map (fun entry =>
              match entry_target h entry with
              | Some (i, market_id) =>
                  if String.eqb i interval then [market_id] else []
              | None => []
              end) entries.

(** A destination without [meta] and a source with one. *)
Definition sample_meta_store : heap :=
  snd (load sample_source_json (snd (load sample_destination_json []))).

(** The number of days of a month, and the field values the [datetime]
    constructor accepts. *)
Definition days_in_month (y m : Z) : Z :=
  if (m =? 2) && is_leap y then 29 else DAYS_IN_MONTH m.

Definition valid_datetime (dt : datetime) : Prop :=
  1 <= year dt <= 9999 /\ 1 <= month dt <= 12 /\
  1 <= day dt <= days_in_month (year dt) (month dt) /\
  0 <= hour dt < 24 /\ 0 <= minute dt < 60 /\ 0 <= second dt < 60 /\
  0 <= microsecond dt < 1000000.

(** * Properties *)

Lemma merge_falsy h destination source :
  truthy h destination = false ->
  _merge_responses destination source h = (Ok source, h).
Proof. intros Hf. unfold _merge_responses. now rewrite Hf. Qed.

Lemma py_range_pos stop step :
  0 < step -> 0 <= stop ->
  py_range stop step =
    Ok (map (fun i => Z.of_nat i * step) (seq 0 (Z.to_nat ((stop + step - 1) / step)))).
Proof.
  intros Hs Hstop. unfold py_range.
  destruct (Z.eqb_spec step 0); [lia|].
  destruct (Z.ltb_spec 0 step); [|lia].
  destruct (Z.ltb_spec 0 stop); [reflexivity|].
  assert (stop = 0) by lia. subst.
  rewrite Z.div_small by lia. reflexivity.
Qed.

Section Chunk.
Context {A : Type}.
Implicit Types (l : list A) (size : Z).

Lemma chunk_unfold l size :
  0 < size ->
  _chunk l size =
    Ok (map (fun i => take (Z.to_nat size) (drop (i * Z.to_nat size) l))
            (seq 0 (Z.to_nat ((Z.of_nat (List.length l) + size - 1) / size)))).
Proof.
  intros Hs. unfold _chunk. rewrite py_range_pos by lia. simpl.
  f_equal. rewrite map_map. apply map_ext. intros i. unfold py_slice.
  f_equal; [|f_equal]; nia.
Qed.

Lemma concat_slices l k a m :
  concat (map (fun i => take k (drop (i * k) l)) (seq a m))
  = take (m * k) (drop (a * k) l).
Proof.
  revert a. induction m as [|m IH]; intros a; simpl.
  - reflexivity.
  - rewrite IH. replace (S a * k)%nat with (a * k + k)%nat by lia.
    rewrite <- drop_drop. apply take_take_drop.
Qed.

Lemma chunk_count_bounds l size :
  0 < size ->
  let q := Z.to_nat ((Z.of_nat (List.length l) + size - 1) / size) in
  (List.length l <= q * Z.to_nat size)%nat /\
  (forall i, (i < q)%nat -> (i * Z.to_nat size < List.length l)%nat).
Proof.
  intros Hs q. subst q.
  set (n := Z.of_nat (List.length l)).
  assert (Hn : 0 <= n) by lia.
  pose proof (Z.div_mod (n + size - 1) size ltac:(lia)) as Hdm.
  pose proof (Z.mod_pos_bound (n + size - 1) size Hs) as Hr.
  set (q := (n + size - 1) / size) in *.
  assert (Hq : 0 <= q) by (apply Z.div_pos; lia).
  split.
  - apply Nat2Z.inj_le. rewrite Nat2Z.inj_mul, !Z2Nat.id by lia. fold n. nia.
  - intros i Hi. apply Nat2Z.inj_lt. rewrite Nat2Z.inj_mul, Z2Nat.id by lia.
    fold n. assert (Z.of_nat i < q) by lia. nia.
Qed.

Lemma chunk_spec l size :
  1 <= size ->
  exists chunks,
    _chunk l size = Ok chunks /\
    concat chunks = l /\
    Forall (fun c => (1 <= List.length c)%nat /\ Z.of_nat (List.length c) <= size)
           chunks.
Proof.
  intros Hs. eexists. split; [apply chunk_unfold; lia|].
  destruct (chunk_count_bounds l size ltac:(lia)) as [Hall Hlt].
  split.
  - rewrite (concat_slices l (Z.to_nat size) 0). simpl. rewrite drop_0.
    apply take_ge. lia.
  - apply List.Forall_forall. intros c Hc. apply in_map_iff in Hc as (i & <- & Hi).
    apply in_seq in Hi. specialize (Hlt i ltac:(lia)).
    rewrite length_take, length_drop. lia.
Qed.

Lemma chunk_nil size : 1 <= size -> _chunk (@nil A) size = Ok [].
Proof. intros Hs. rewrite chunk_unfold by lia. simpl. rewrite Z.div_small by lia. reflexivity. Qed.

Lemma chunk_single l size :
  l <> [] -> Z.of_nat (List.length l) <= size -> _chunk l size = Ok [l].
Proof.
  intros Hne Hle.
  assert (Hpos : (0 < List.length l)%nat) by (destruct l; [congruence|simpl; lia]).
  rewrite chunk_unfold by lia.
  replace ((Z.of_nat (List.length l) + size - 1) / size) with 1.
  - simpl. rewrite drop_0, take_ge by lia. reflexivity.
  - apply Z.div_unique with (r := Z.of_nat (List.length l) - 1); lia.
Qed.

(** C6: [_chunk] splits a sequence into contiguous batches of at most
    [size] elements, in order: the five-element example of the tests gives
    three batches; for a size of at least one, the empty sequence gives no
    batch, a non-empty sequence no longer than [size] gives itself as the
    only batch, and in general the batches are the successive slices of
    [size] elements, they are non-empty, no longer than [size], and their
    concatenation is the sequence. *)
Theorem chunk_batches (sequence : list A) (size : Z) :
  1 <= size ->
  _chunk ["a"; "b"; "c"; "d"; "e"] 2 = Ok [["a"; "b"]; ["c"; "d"]; ["e"]] /\
  (sequence = [] -> _chunk sequence size = Ok []) /\
  (sequence <> [] -> Z.of_nat (List.length sequence) <= size ->
   _chunk sequence size = Ok [sequence]) /\
  exists chunks,
    _chunk sequence size = Ok chunks /\
    concat chunks = sequence /\
    Forall (fun c => (1 <= List.length c)%nat /\ Z.of_nat (List.length c) <= size)
           chunks /\
    forall (i : nat) c,
      chunks !! i = Some c ->
      c = take (Z.to_nat size) (drop (i * Z.to_nat size) sequence).
Proof.
  intros Hs. split; [reflexivity|]. split; [|split].
  - intros ->. now apply chunk_nil.
  - apply chunk_single.
  - destruct (chunk_spec sequence size Hs) as (chunks & Hc & Hcat & Hall).
    exists chunks. repeat split; try assumption.
    intros i c Hi. rewrite chunk_unfold in Hc by lia.
    injection Hc as <-. rewrite list_lookup_fmap in Hi.
    destruct (seq _ _ !! i) as [j|] eqn:Hj; [|discriminate].
    apply lookup_seq in Hj as [-> _]. simpl in Hi. congruence.
Qed.
End Chunk.

Lemma chunk_batches_witness :
  1 <= 5 /\
  exists chunks, _chunk ["a"; "b"] 5 = Ok chunks /\ concat chunks = ["a"; "b"].
Proof.
  split; [lia|].
  destruct (chunk_batches ["a"; "b"] 5 ltac:(lia)) as (_ & _ & _ & chunks & Hc & Hcat & _).
  exists chunks. split; assumption.
Defined.

(** C7: merging into an empty destination returns the source itself: the
    result is the very value that was passed as [source] (the same
    reference, when it is a container) and the store is left as it was, so
    nothing is copied. *)
Theorem merge_empty_destination (h : heap) (destination source : val) :
  deref h destination = Some (ODict []) ->
  _merge_responses destination source h = (Ok source, h).
Proof.
  intros Hd. apply merge_falsy. destruct destination; try discriminate.
  simpl in *. now rewrite Hd.
Qed.

Lemma merge_empty_destination_witness :
  deref sample_store (VRef 0%nat) = Some (ODict []) /\
  _merge_responses (VRef 0%nat) sample_source sample_store
  = (Ok sample_source, sample_store).
Proof.
  split; [reflexivity|]. apply (merge_empty_destination sample_store). reflexivity.
Defined.

(** ** Strings *)

#[local] Arguments String.append : simpl nomatch.

Lemma chars_app (a b : string) : chars (a +:+ b) = chars a ++ chars b.
Proof. induction a as [|c a IH]; simpl; [reflexivity|]. unfold chars in *. simpl. now rewrite IH. Qed.

Lemma append_assoc (a b c : string) : (a +:+ b) +:+ c = a +:+ (b +:+ c).
Proof. induction a as [|x a IH]; simpl; [reflexivity|]. congruence. Qed.

Lemma append_nil_r (a : string) : a +:+ EmptyString = a.
Proof. induction a as [|x a IH]; simpl; [reflexivity|]. congruence. Qed.

Lemma date_string_app a b : date_string a -> date_string b -> date_string (a +:+ b).
Proof. unfold date_string. rewrite chars_app. apply Forall_app_2. Qed.

Lemma date_string_uint (d : Decimal.uint) : date_string (NilEmpty.string_of_uint d).
Proof.
  induction d; simpl; try (constructor; [reflexivity|assumption]). constructor.
Qed.

Lemma date_string_of_Z (z : Z) : date_string (str_of_Z z).
Proof.
  unfold str_of_Z, NilZero.string_of_int.
  destruct (Z.to_int z) as [d|d]; unfold NilZero.string_of_uint.
  - destruct d; try apply date_string_uint. repeat constructor.
  - apply (date_string_app "-"); [repeat constructor|].
    destruct d; try apply date_string_uint. repeat constructor.
Qed.

Lemma date_string_zero_pad w s : date_string s -> date_string (zero_pad w s).
Proof.
  intros Hs. unfold zero_pad. apply date_string_app; [|assumption].
  unfold date_string, chars. rewrite list_ascii_of_string_of_list_ascii.
  induction (w - String.length s)%nat; simpl; constructor; auto.
Qed.

Lemma date_string_fmt_d w z : date_string (fmt_d w z).
Proof.
  unfold fmt_d. destruct (z <? 0).
  - apply (date_string_app "-"); [repeat constructor|].
    apply date_string_zero_pad, date_string_of_Z.
  - apply date_string_zero_pad, date_string_of_Z.
Qed.

Lemma prefix_head_ne (a c : ascii) (p s : string) :
  a <> c -> String.prefix (String a p) (String c s) = false.
Proof. intros Hne. cbn [String.prefix]. destruct (ascii_dec a c); [contradiction|reflexivity]. Qed.

Lemma replace_from_cons (old new : string) (c : ascii) (s : string) :
  replace_from old new 0 (String c s) =
    if String.prefix old (String c s)
    then new +:+ replace_from old new (Nat.pred (String.length old)) s
    else String c (replace_from old new 0 s).
Proof. reflexivity. Qed.

(** A date string followed by the UTC offset: [replace] finds the offset at
    the end and nowhere else. *)
Lemma replace_utc_suffix (s : string) :
  date_string s ->
  str_replace "+00:00" "Z" (s +:+ "+00:00") = s +:+ "Z".
Proof.
  unfold str_replace, date_string.
  induction s as [|c s IH]; intros Hs; [reflexivity|].
  change (chars (String c s)) with (c :: chars s) in Hs.
  inversion Hs as [|? ? Hc Hrest]; subst.
  change (String c s +:+ "+00:00") with (String c (s +:+ "+00:00")).
  rewrite replace_from_cons, prefix_head_ne.
  - change (String c s +:+ "Z") with (String c (s +:+ "Z")). f_equal. now apply IH.
  - intros <-. discriminate Hc.
Qed.

Lemma date_string_no_char (s : string) (c : ascii) :
  date_string s -> date_char c = false -> ~ In c (chars s).
Proof.
  unfold date_string. intros Hs Hc Hin. rewrite List.Forall_forall in Hs.
  specialize (Hs c Hin). congruence.
Qed.

Lemma DAYS_BEFORE_MONTH_cases m :
  1 <= m <= 12 ->
  (m = 1 /\ DAYS_BEFORE_MONTH m = 0) \/ (m = 2 /\ DAYS_BEFORE_MONTH m = 31) \/
  (m = 3 /\ DAYS_BEFORE_MONTH m = 59) \/ (m = 4 /\ DAYS_BEFORE_MONTH m = 90) \/
  (m = 5 /\ DAYS_BEFORE_MONTH m = 120) \/ (m = 6 /\ DAYS_BEFORE_MONTH m = 151) \/
  (m = 7 /\ DAYS_BEFORE_MONTH m = 181) \/ (m = 8 /\ DAYS_BEFORE_MONTH m = 212) \/
  (m = 9 /\ DAYS_BEFORE_MONTH m = 243) \/ (m = 10 /\ DAYS_BEFORE_MONTH m = 273) \/
  (m = 11 /\ DAYS_BEFORE_MONTH m = 304) \/ (m = 12 /\ DAYS_BEFORE_MONTH m = 334).
Proof.
  intros Hm.
  assert (m = 1 \/ m = 2 \/ m = 3 \/ m = 4 \/ m = 5 \/ m = 6 \/ m = 7 \/ m = 8 \/
          m = 9 \/ m = 10 \/ m = 11 \/ m = 12) as Hc by lia.
  repeat (destruct Hc as [->|Hc]; [tauto|]). subst. tauto.
Qed.

Lemma ord2ymd_range (o : Z) :
  1 <= o <= MAXORDINAL ->
  let '(y, m, d) := ord2ymd o in
  1 <= y <= 9999 /\ 1 <= m <= 12 /\ 1 <= d <= 31.
Proof.
  unfold MAXORDINAL. intros Ho. unfold ord2ymd.
  set (n0 := o - 1).
  set (n400 := n0 / 146097). set (r400 := n0 mod 146097).
  set (n100 := r400 / 36524). set (r100 := r400 mod 36524).
  set (n4 := r100 / 1461). set (r4 := r100 mod 1461).
  set (n1 := r4 / 365). set (n := r4 mod 365).
  assert (H0 : 0 <= n0 <= 3652058) by (subst n0; lia).
  assert (H400 : 0 <= n400 <= 24 /\ 0 <= r400 < 146097 /\ n0 = 146097 * n400 + r400).
  { subst n400 r400. pose proof (Z.div_mod n0 146097 ltac:(lia)).
    pose proof (Z.mod_pos_bound n0 146097 ltac:(lia)). lia. }
  assert (H100 : 0 <= n100 <= 4 /\ 0 <= r100 < 36524 /\ r400 = 36524 * n100 + r100).
  { subst n100 r100. pose proof (Z.div_mod r400 36524 ltac:(lia)).
    pose proof (Z.mod_pos_bound r400 36524 ltac:(lia)). lia. }
  assert (H4 : 0 <= n4 <= 24 /\ 0 <= r4 < 1461 /\ r100 = 1461 * n4 + r4).
  { subst n4 r4. pose proof (Z.div_mod r100 1461 ltac:(lia)).
    pose proof (Z.mod_pos_bound r100 1461 ltac:(lia)). lia. }
  assert (H1 : 0 <= n1 <= 4 /\ 0 <= n < 365 /\ r4 = 365 * n1 + n).
  { subst n1 n. pose proof (Z.div_mod r4 365 ltac:(lia)).
    pose proof (Z.mod_pos_bound r4 365 ltac:(lia)). lia. }
  clearbody n0 n400 r400 n100 r100 n4 r4 n1 n.
  destruct (Z.eqb_spec n1 4) as [E1|E1]; cbn [orb].
  { lia. }
  destruct (Z.eqb_spec n100 4) as [E100|E100]; cbn [orb].
  { lia. }
  set (m := Z.shiftr (n + 50) 5).
  assert (Hm : 1 <= m <= 12 /\ 32 * m <= n + 50 < 32 * m + 32).
  { subst m. rewrite Z.shiftr_div_pow2 by lia. change (2 ^ 5) with 32.
    pose proof (Z.div_mod (n + 50) 32 ltac:(lia)).
    pose proof (Z.mod_pos_bound (n + 50) 32 ltac:(lia)). lia. }
  clearbody m.
  set (leap := (n1 =? 3) && (negb (n4 =? 24) || (n100 =? 3))).
  assert (Hy : 1 <= n400 * 400 + 1 + n100 * 100 + n4 * 4 + n1 <= 9999) by lia.
  destruct (DAYS_BEFORE_MONTH_cases m ltac:(lia)) as
    [[-> Hb]|[[-> Hb]|[[-> Hb]|[[-> Hb]|[[-> Hb]|[[-> Hb]|[[-> Hb]|[[-> Hb]|[[-> Hb]|[[-> Hb]|[[-> Hb]|[-> Hb]]]]]]]]]]]];
    rewrite Hb; unfold DAYS_IN_MONTH; clear Hb; destruct leap;
    repeat match goal with
           | |- context [?a <? ?b] => destruct (Z.ltb_spec a b)
           | |- context [?a =? ?b] => destruct (Z.eqb_spec a b)
           end;
    repeat match goal with
           | |- context [Z.to_nat ?z] =>
               let v := eval vm_compute in (Z.to_nat z) in
               change (Z.to_nat z) with v
           end;
    cbn in *; lia.
Qed.

Lemma length_append (a b : string) :
  String.length (a +:+ b) = (String.length a + String.length b)%nat.
Proof. induction a as [|c a IH]; simpl; [reflexivity|]. now rewrite IH. Qed.

Lemma fmt_d_length (w : nat) (bound : Z) (z : Z) :
  forallb (fun k => Nat.eqb (String.length (fmt_d w (Z.of_nat k))) w)
          (seq 0 (Z.to_nat bound)) = true ->
  0 <= z < bound -> String.length (fmt_d w z) = w.
Proof.
  intros Hall Hz. rewrite forallb_forall in Hall.
  specialize (Hall (Z.to_nat z)). rewrite Z2Nat.id in Hall by lia.
  apply Nat.eqb_eq, Hall, in_seq. lia.
Qed.

Lemma fmt_d2_length (z : Z) : 0 <= z < 100 -> String.length (fmt_d 2 z) = 2%nat.
Proof. apply (fmt_d_length 2 100). vm_compute. reflexivity. Qed.

Lemma fmt_d4_length (z : Z) : 0 <= z < 10000 -> String.length (fmt_d 4 z) = 4%nat.
Proof. apply (fmt_d_length 4 10000). vm_compute. reflexivity. Qed.

Lemma datetime_add_range (dt u : datetime) (delta : Z) :
  datetime_add dt delta = Ok u ->
  1 <= year u <= 9999 /\ 1 <= month u <= 12 /\ 1 <= day u <= 31 /\
  0 <= hour u < 24 /\ 0 <= minute u < 60 /\ 0 <= second u < 60 /\
  0 <= microsecond u < 1000000.
Proof.
  unfold datetime_add.
  set (total := wall_us dt + delta).
  destruct (Z.ltb_spec 0 (total / US_PER_DAY)); [|discriminate].
  destruct (Z.leb_spec (total / US_PER_DAY) MAXORDINAL); [|discriminate].
  cbn [andb].
  pose proof (ord2ymd_range (total / US_PER_DAY) ltac:(lia)) as Hr.
  destruct (ord2ymd (total / US_PER_DAY)) as [[y m] d].
  intros [= <-]. cbn [year month day hour minute second microsecond].
  unfold US_PER_DAY, US_PER_SECOND in *.
  set (rest := total mod (86400 * 1000000)).
  assert (0 <= rest < 86400 * 1000000) by (apply Z.mod_pos_bound; lia).
  clearbody rest.
  assert (0 <= rest / 1000000 < 86400).
  { split; [apply Z.div_pos; lia|apply Z.div_lt_upper_bound; lia]. }
  set (secs := rest / 1000000) in *. clearbody secs.
  repeat split; try tauto;
    try (apply Z.div_pos; lia); try (apply Z.div_lt_upper_bound; lia);
    try (apply Z.mod_pos_bound; lia).
  - apply Z.div_pos; [apply Z.mod_pos_bound|]; lia.
  - apply Z.div_lt_upper_bound; [lia|]. pose proof (Z.mod_pos_bound secs 3600). lia.
Qed.

Lemma str_contains_head (c : ascii) (p s : string) :
  ~ In c (chars s) -> str_contains (String c p) s = false.
Proof.
  induction s as [|a s IH]; intros Hin; [reflexivity|].
  change (chars (String a s)) with (a :: chars s) in Hin.
  change (str_contains (String c p) (String a s))
    with (String.prefix (String c p) (String a s) || str_contains (String c p) s).
  rewrite prefix_head_ne, IH; [reflexivity| |]; intros ?; apply Hin; simpl; auto.
Qed.

(** ** [_to_iso] *)

Section ToIso.
Context `{DatetimeLib}.

Lemma iso_seconds_date (dt : datetime) : date_string (iso_seconds dt).
Proof.
  unfold iso_seconds.
  repeat (apply date_string_app;
          [first [apply date_string_fmt_d | repeat constructor]|]).
  apply date_string_fmt_d.
Qed.

Lemma isoformat_utc (dt : datetime) :
  tzinfo dt = Some 0 -> microsecond dt = 0 ->
  isoformat dt = iso_seconds dt +:+ "+00:00".
Proof.
  intros Htz Hus. unfold isoformat, iso_seconds. rewrite Htz, Hus.
  change (format_offset (Some 0)) with "+00:00".
  change (if 0 =? 0 then EmptyString else "." +:+ fmt_d 6 0) with EmptyString.
  rewrite !append_assoc. reflexivity.
Qed.

Lemma astimezone_utc_tzinfo (dt utc : datetime) :
  astimezone_utc dt = Ok utc -> tzinfo utc = Some 0.
Proof.
  unfold astimezone_utc. destruct (datetime_add _ _); simpl; [|discriminate].
  now intros [= <-].
Qed.

Lemma to_iso_ok (dt utc : datetime) :
  astimezone_utc dt = Ok utc -> _to_iso dt = Ok (iso_seconds utc +:+ "Z").
Proof.
  intros Hutc. unfold _to_iso. rewrite Hutc. unfold rbind. f_equal.
  rewrite (isoformat_utc (replace_microsecond utc 0)).
  - rewrite replace_utc_suffix by apply iso_seconds_date. reflexivity.
  - simpl. eapply astimezone_utc_tzinfo; eassumption.
  - reflexivity.
Qed.

Lemma astimezone_utc_range (dt utc : datetime) :
  astimezone_utc dt = Ok utc ->
  1 <= year utc <= 9999 /\ 1 <= month utc <= 12 /\ 1 <= day utc <= 31 /\
  0 <= hour utc < 24 /\ 0 <= minute utc < 60 /\ 0 <= second utc < 60.
Proof.
  unfold astimezone_utc.
  destruct (datetime_add _ _) as [u|] eqn:Hadd; simpl; [|discriminate].
  intros [= <-]. apply datetime_add_range in Hadd. simpl. tauto.
Qed.

Lemma iso_seconds_length (dt : datetime) :
  1 <= year dt <= 9999 -> 1 <= month dt <= 12 -> 1 <= day dt <= 31 ->
  0 <= hour dt < 24 -> 0 <= minute dt < 60 -> 0 <= second dt < 60 ->
  String.length (iso_seconds dt) = 19%nat.
Proof.
  intros. unfold iso_seconds. rewrite !length_append.
  rewrite fmt_d4_length, !fmt_d2_length by lia. reflexivity.
Qed.

(** C9: [_to_iso] writes the UTC value of its argument as
    [YYYY-MM-DDTHH:MM:SS] followed by the letter Z, twenty characters in
    all.  The text before the Z holds digits, dashes, colons and the
    letter T only, so the result has no fraction of a second and no
    [+00:00]; for the UTC value 2024-01-01T12:00:00 it is exactly
    [2024-01-01T12:00:00Z]. *)
Theorem to_iso_format (dt utc : datetime) :
  astimezone_utc dt = Ok utc ->
  _to_iso dt = Ok (iso_seconds utc +:+ "Z") /\
  date_string (iso_seconds utc) /\
  String.length (iso_seconds utc +:+ "Z") = 20%nat /\
  ~ In "+"%char (chars (iso_seconds utc +:+ "Z")) /\
  ~ In "."%char (chars (iso_seconds utc +:+ "Z")) /\
  str_contains "+00:00" (iso_seconds utc +:+ "Z") = false /\
  (year utc = 2024 -> month utc = 1 -> day utc = 1 ->
   hour utc = 12 -> minute utc = 0 -> second utc = 0 ->
   _to_iso dt = Ok "2024-01-01T12:00:00Z").
Proof.
  intros Hutc.
  assert (Hno : forall c, date_char c = false -> c <> "Z"%char ->
                          ~ In c (chars (iso_seconds utc +:+ "Z"))).
  { intros c Hc Hne. rewrite chars_app. intros Hin.
    apply in_app_or in Hin as [Hin|[Hin|[]]]; [|congruence].
    exact (date_string_no_char _ _ (iso_seconds_date utc) Hc Hin). }
  split; [now apply to_iso_ok|]. split; [apply iso_seconds_date|].
  split.
  { pose proof (astimezone_utc_range _ _ Hutc) as (? & ? & ? & ? & ? & ?).
    rewrite length_append, iso_seconds_length by assumption. reflexivity. }
  split; [apply Hno; [reflexivity|discriminate]|].
  split; [apply Hno; [reflexivity|discriminate]|].
  split; [apply str_contains_head, Hno; [reflexivity|discriminate]|].
  intros Hy Hm Hd Hh Hmi Hs. rewrite (to_iso_ok _ _ Hutc).
  unfold iso_seconds. rewrite Hy, Hm, Hd, Hh, Hmi, Hs. reflexivity.
Qed.
End ToIso.

(** [_to_iso] fails only when the UTC value falls outside the years 1 to
    9999, and then with [OverflowError]. *)
Lemma to_iso_raises `{DatetimeLib} (dt : datetime) (e : exn) :
  _to_iso dt = Raise e -> e = OverflowError /\ astimezone_utc dt = Raise OverflowError.
Proof.
  unfold _to_iso. destruct (astimezone_utc dt) as [u|e'] eqn:Hu;
    unfold rbind; [discriminate|].
  intros [= ->]. revert Hu. unfold astimezone_utc, datetime_add.
  destruct (_ && _).
  - destruct (ord2ymd _) as [[? ?] ?]. unfold rbind. discriminate.
  - unfold rbind. intros [= <-]. split; reflexivity.
Qed.

Lemma to_iso_format_witness :
  astimezone_utc sample_datetime = Ok sample_datetime_utc /\
  _to_iso sample_datetime = Ok "2024-01-01T12:00:00Z".
Proof.
  assert (Hutc : astimezone_utc sample_datetime = Ok sample_datetime_utc)
    by (vm_compute; reflexivity).
  split; [exact Hutc|].
  destruct (to_iso_format sample_datetime sample_datetime_utc Hutc)
    as (_ & _ & _ & _ & _ & _ & Hex).
  apply Hex; reflexivity.
Defined.

(** ** [_post] *)

Section PostProps.
Context {W : Type} `{Session W}.

Lemma raise_for_status_2xx (r : http_response) :
  200 <= status_code r < 300 -> raise_for_status r = Ok tt.
Proof.
  intros Hc. unfold raise_for_status.
  destruct (Z.leb_spec 400 (status_code r)); [lia|]. cbn [andb].
  destruct (Z.leb_spec 500 (status_code r)); [lia|]. reflexivity.
Qed.

Lemma check_response_error (r : http_response) d e :
  200 <= status_code r < 300 ->
  json_body r = Some (JObj d) -> dict_get "error" d = Some e ->
  check_response r = Raise (RuntimeError ("API returned error: " +:+ error_msg e)).
Proof.
  intros Hc Hb He. unfold check_response.
  rewrite raise_for_status_2xx, Hb by assumption.
  unfold json_contains, json_getitem, dict_has, rbind. rewrite He. reflexivity.
Qed.

(** C5 (as amended): a response with a 2xx status whose decoded body is an
    object with an [error] field makes [_post] raise [RuntimeError] (the
    API error of the specification) instead of returning the body; the
    request has been sent and nothing is loaded into the store.  The message
    is the [message] field of the error object when that object is a mapping
    that has one, and the stringified error value otherwise: for a mapping
    without [message] and for any value that is not a mapping. *)
Theorem post_error_envelope (c : client) (endpoint : string) (payload : json)
    (s : state W) (r : http_response) (w' : W)
    (d : list (string * json)) (e : json) :
  let rq := {| req_endpoint := endpoint;
               req_url := base_url c +:+ "/" +:+ lstrip "/" endpoint;
               req_json := payload; req_timeout := timeout c |} in
  session_post (req_url rq) payload (timeout c) (st_world s) = (Ok r, w') ->
  200 <= status_code r < 300 ->
  json_body r = Some (JObj d) ->
  dict_get "error" d = Some e ->
  _post c endpoint payload s
  = (Raise (RuntimeError ("API returned error: " +:+ error_msg e)),
     mk_state (st_heap s) w' (st_trace s ++ [rq])) /\
  (forall ed m, e = JObj ed -> dict_get "message" ed = Some m ->
                error_msg e = py_str m) /\
  (forall ed, e = JObj ed -> dict_get "message" ed = None ->
              error_msg e = py_str e) /\
  ((forall ed, e <> JObj ed) -> error_msg e = py_str e).
Proof.
  intros rq Hpost Hc Hb He. split; [|split; [|split]].
  - subst rq. cbn [req_url] in Hpost.
    unfold _post, bind, send. cbn [req_url req_json req_timeout].
    rewrite Hpost. unfold pure.
    rewrite (check_response_error r d e Hc Hb He). reflexivity.
  - intros ed m -> Hm. unfold error_msg, get_default. now rewrite Hm.
  - intros ed -> Hm. unfold error_msg, get_default. now rewrite Hm.
  - intros Hne. destruct e; try reflexivity. now destruct (Hne entries).
Qed.
End PostProps.

Lemma post_error_envelope_witness :
  _post sample_client "api_v1_merged" (JObj [])
        (mk_state [] [http_ok envelope_with_message] [])
  = (Raise (RuntimeError "API returned error: quota exceeded"),
     mk_state [] []
       [{| req_endpoint := "api_v1_merged";
           req_url := "https://api.example/api_v1_merged";
           req_json := JObj []; req_timeout := 60 |}]).
Proof.
  pose (r := {| status_code := 200; reason := "OK"; url := "https://api.example";
                text := EmptyString; json_body := Some envelope_with_message |}).
  assert (Hc : 200 <= status_code r < 300) by (simpl; lia).
  exact (proj1 (post_error_envelope sample_client "api_v1_merged" (JObj [])
                  (mk_state [] [http_ok envelope_with_message] []) r []
                  [("error", JObj [("code", JStr "E1");
                                   ("message", JStr "quota exceeded")])]
                  (JObj [("code", JStr "E1"); ("message", JStr "quota exceeded")])
                  eq_refl Hc eq_refl eq_refl)).
Defined.

(** C5 as it is worded fails for an error object that is a mapping without
    a [message] field: the message is then the stringified mapping, not a
    [message] field. *)
Lemma post_error_without_message :
  _post sample_client "api_v1_merged" (JObj [])
        (mk_state [] [http_ok envelope_without_message] [])
  = (Raise (RuntimeError "API returned error: {'code': 'E1'}"),
     mk_state [] []
       [{| req_endpoint := "api_v1_merged";
           req_url := "https://api.example/api_v1_merged";
           req_json := JObj []; req_timeout := 60 |}]) /\
  ~ message_from_field (JObj [("code", JStr "E1")]) "{'code': 'E1'}".
Proof.
  split; [vm_compute; reflexivity|].
  intros (m & Hm & _). discriminate Hm.
Qed.

(** ** [fetch_timeseries]: validation and the empty catalog *)

Section FetchProps.
Context {W : Type} `{Session W} `{DatetimeLib}.

(** C4: with an empty [horizons] sequence [fetch_timeseries] raises
    [ValueError] (the validation error of the specification) and the state
    is the one of the call: no request has been sent, the remote side and
    the object store are untouched. *)
Theorem fetch_timeseries_no_horizons (c : client) (args : timeseries_args)
    (s : state W) :
  horizons args = [] ->
  fetch_timeseries c args s
  = (Raise (ValueError "At least one horizon must be provided"), s).
Proof. intros Hh. unfold fetch_timeseries. rewrite Hh. reflexivity. Qed.

Lemma post_trace (c : client) (endpoint : string) (payload : json) (s : state W) :
  st_trace (snd (_post c endpoint payload s))
  = st_trace s ++ [request_to c endpoint payload].
Proof.
  unfold _post, bind, send, request_to. cbn [req_url req_json req_timeout].
  destruct (session_post _ _ _ _) as [[r|e] w]; [|reflexivity].
  unfold pure. destruct (check_response r) as [data|e]; [|reflexivity].
  unfold on_heap. cbn [st_heap st_world st_trace].
  destruct (load data (st_heap s)). reflexivity.
Qed.

Lemma pure_bind {A B} (r : result A) (k : A -> M (state W) B) (s : state W) :
  bind (pure r) k s = match r with Ok a => k a s | Raise e => (Raise e, s) end.
Proof. unfold bind, pure. destruct r; reflexivity. Qed.

Lemma catalog_request_trace (c : client) (args : timeseries_args)
    (start_dt end_dt : datetime) (s s1 : state W) (v : val) :
  catalog_request c args start_dt end_dt s = (Ok v, s1) ->
  exists payload,
    st_trace s1 = st_trace s ++ [request_to c "api_v1_market_catalog" payload].
Proof.
  unfold catalog_request. rewrite pure_bind.
  destruct (iso_if_given (start_ts args) start_dt) as [si|]; [|discriminate].
  rewrite pure_bind.
  destruct (iso_if_given (end_ts args) end_dt) as [ei|]; [|discriminate].
  unfold fetch_market_catalog. intros Hp.
  eexists. rewrite <- post_trace. now rewrite Hp.
Qed.

(** C2: when the catalog lookup returns a response in which [markets] is
    absent or is an empty list, [fetch_timeseries] returns (it does not
    raise) a result whose catalog is an empty list and whose responses and
    dataframes are empty; the trace and the remote side are those reached
    when the catalog lookup returned, and that lookup sent exactly one
    request, to the catalog endpoint. *)
Theorem fetch_timeseries_empty_catalog (c : client) (args : timeseries_args)
    (s s1 : state W) (start_dt end_dt : datetime) (response : val) :
  horizons args <> [] ->
  fst (time_window args s) = Ok (start_dt, end_dt) ->
  catalog_request c args start_dt end_dt s = (Ok response, s1) ->
  (method_get response "markets" (st_heap s1) = Ok None \/
   exists l, method_get response "markets" (st_heap s1) = Ok (Some (VRef l)) /\
             st_heap s1 !! l = Some (OList [])) ->
  exists (empty : val) (s' : state W),
    fetch_timeseries c args s
    = (Ok {| catalog := empty; responses := []; dataframes := [] |}, s') /\
    deref (st_heap s') empty = Some (OList []) /\
    st_world s' = st_world s1 /\
    st_trace s' = st_trace s1 /\
    exists payload,
      st_trace s1 = st_trace s ++ [request_to c "api_v1_market_catalog" payload].
Proof.
  intros Hh Hw Hc Hm.
  assert (Hwin : time_window args s = (Ok (start_dt, end_dt), s)).
  { revert Hw. unfold time_window, pure. simpl. now intros ->. }
  destruct s1 as [h1 w1 t1]. cbn [st_heap] in Hm.
  unfold fetch_timeseries. destruct (horizons args) as [|hz hs]; [congruence|].
  unfold bind at 1. rewrite Hwin. unfold bind at 1. rewrite Hc.
  destruct Hm as [Hm|(l & Hm & Hl)].
  - exists (VRef (S (List.length h1))).
    exists (mk_state ((h1 ++ [OList []]) ++ [OList []]) w1 t1).
    split; [|split; [|split; [|split]]]; try reflexivity.
    + unfold bind, on_heap, reads, alloc, ret. cbn [st_heap st_world st_trace].
      rewrite Hm. cbn [st_heap st_world st_trace truthy].
      rewrite lookup_app_r by lia. rewrite Nat.sub_diag. cbn.
      rewrite length_app. cbn. now rewrite Nat.add_1_r.
    + cbn. rewrite lookup_app_r; rewrite length_app; cbn; [|lia].
      replace (S (List.length h1) - (List.length h1 + 1))%nat with 0%nat by lia.
      reflexivity.
    + eapply (catalog_request_trace _ _ _ _ s); eassumption.
  - exists (VRef (List.length h1)).
    exists (mk_state (h1 ++ [OList []]) w1 t1).
    split; [|split; [|split; [|split]]]; try reflexivity.
    + unfold bind, on_heap, reads, alloc, ret. cbn [st_heap st_world st_trace].
      rewrite Hm. cbn [st_heap st_world st_trace truthy]. rewrite Hl.
      reflexivity.
    + cbn. rewrite lookup_app_r by lia. now rewrite Nat.sub_diag.
    + eapply (catalog_request_trace _ _ _ _ s); eassumption.
Qed.
End FetchProps.

Lemma fetch_timeseries_no_horizons_witness :
  horizons (sample_args []) = [] /\
  fetch_timeseries sample_client (sample_args [])
                   (mk_state [] [http_ok (JObj [])] [])
  = (Raise (ValueError "At least one horizon must be provided"),
     mk_state [] [http_ok (JObj [])] []).
Proof.
  split; [reflexivity|].
  apply (fetch_timeseries_no_horizons sample_client (sample_args [])). reflexivity.
Defined.

Lemma fetch_timeseries_empty_catalog_witness :
  exists (empty : val) (s' : state (list (result http_response))),
    fetch_timeseries sample_client (sample_args ["daily"])
                     (mk_state [] [http_ok (JObj [("markets", JArr [])])] [])
    = (Ok {| catalog := empty; responses := []; dataframes := [] |}, s') /\
    deref (st_heap s') empty = Some (OList []) /\
    List.length (st_trace s') = 1%nat.
Proof.
  destruct (fetch_timeseries_empty_catalog sample_client (sample_args ["daily"])
              (mk_state [] [http_ok (JObj [("markets", JArr [])])] [])
              (mk_state [OList []; ODict [("markets", VRef 0%nat)]] []
                 [request_to sample_client "api_v1_market_catalog"
                    (JObj [("assets", JArr [JStr "BTC"]);
                           ("horizons", JArr [JStr "daily"])])])
              (mk_datetime 2024 1 1 6 0 0 0 (Some 0))
              (mk_datetime 2024 1 1 12 0 0 0 (Some 0))
              (VRef 1%nat))
    as (empty & s' & Hrun & Hempty & _ & Htrace & _).
  - discriminate.
  - vm_compute. reflexivity.
  - vm_compute. reflexivity.
  - right. exists 0%nat. split; reflexivity.
  - exists empty, s'. rewrite Htrace. repeat split; assumption || reflexivity.
Defined.

(** ** [_merge_responses] on a non-empty destination *)

Lemma dict_get_set_eq {V} (k : string) (v : V) (d : list (string * V)) :
  dict_get k (dict_set k v d) = Some v.
Proof.
  induction d as [|[k' v'] d IH]; simpl.
  - now rewrite String.eqb_refl.
  - destruct (String.eqb_spec k' k); simpl.
    + now rewrite String.eqb_refl.
    + destruct (String.eqb_spec k' k); [contradiction|assumption].
Qed.

Lemma dict_get_set_ne {V} (k k' : string) (v : V) (d : list (string * V)) :
  k <> k' -> dict_get k' (dict_set k v d) = dict_get k' d.
Proof.
  intros Hne. induction d as [|[k0 v0] d IH]; simpl.
  - destruct (String.eqb_spec k k'); [contradiction|reflexivity].
  - destruct (String.eqb_spec k0 k) as [->|Hk]; simpl.
    + destruct (String.eqb_spec k k'); [contradiction|reflexivity].
    + destruct (String.eqb_spec k0 k'); [reflexivity|assumption].
Qed.

Lemma bind_ok {S A B} (m : M S A) (k : A -> M S B) (s s' : S) (a : A) :
  m s = (Ok a, s') -> bind m k s = k a s'.
Proof. intros Hm. unfold bind. now rewrite Hm. Qed.

Lemma reads_ok {S A} (f : S -> result A) (s : S) (a : A) :
  f s = Ok a -> reads f s = (Ok a, s).
Proof. intros Hf. unfold reads. now rewrite Hf. Qed.

Section MergeProps.
Variables (h : heap) (dl sl : loc) (dd sd : list (string * val)).
Hypothesis Hd : h !! dl = Some (ODict dd).
Hypothesis Hs : h !! sl = Some (ODict sd).
Hypothesis Hsb :
  forall b, In b KNOWN_BLOCKS -> dict_has b sd = true ->
            is_Some (block_rows_loc h (VRef sl) b).
Hypothesis Hdb :
  forall b, In b KNOWN_BLOCKS -> dict_has b sd = true -> dict_has b dd = true ->
            is_Some (block_rows_loc h (VRef dl) b).
Hypothesis Hsep :
  forall b b' l, In b KNOWN_BLOCKS -> In b' KNOWN_BLOCKS -> b <> b' ->
    block_rows_loc h (VRef dl) b = Some l ->
    block_rows_loc h (VRef dl) b' <> Some l /\
    block_rows_loc h (VRef sl) b' <> Some l.

Local Abbreviation inv := (merge_inv h dl sl).

Lemma merge_inv_init : inv [] h.
Proof.
  split; [|split].
  - intros l d Hl. exists d. auto.
  - auto.
  - intros b l rd rs [].
Qed.

Lemma rows_loc_inv (r : loc) (b : string) (l : loc) :
  block_rows_loc h (VRef r) b = Some l ->
  exists d x bl bd xs,
    h !! r = Some (ODict d) /\ dict_get b d = Some x /\ x = VRef bl /\
    h !! bl = Some (ODict bd) /\ dict_get "rows" bd = Some (VRef l) /\
    h !! l = Some (OList xs).
Proof.
  unfold block_rows_loc, deref.
  destruct (h !! r) as [[d|]|] eqn:Hr; try discriminate.
  destruct (dict_get b d) as [x|] eqn:Hx; try discriminate.
  destruct x as [| | | |bl]; try discriminate.
  destruct (h !! bl) as [[bd|]|] eqn:Hbl; try discriminate.
  destruct (dict_get "rows" bd) as [[| | | |l']|] eqn:Hrows; try discriminate.
  destruct (h !! l') as [[|xs]|] eqn:Hl; try discriminate.
  intros [= ->]. exists d, (VRef bl), bl, bd, xs. auto 10.
Qed.

Lemma has_get {V} (k : string) (d : list (string * V)) :
  dict_has k d = true <-> exists v, dict_get k d = Some v.
Proof.
  unfold dict_has. destruct (dict_get k d); split; eauto; try discriminate.
  intros [v [=]].
Qed.

Lemma inv_has (done : list string) (hk : heap) (l : loc)
    (d : list (string * val)) (b : string) :
  inv done hk -> h !! l = Some (ODict d) -> ~ In b done ->
  exists d', hk !! l = Some (ODict d') /\ dict_has b d' = dict_has b d /\
             dict_get b d' = dict_get b d.
Proof.
  intros (I1 & _ & _) Hl Hnd. destruct (I1 l d Hl) as (d' & Hl' & Hk & Hn).
  exists d'. split; [assumption|]. unfold dict_has.
  destruct (dict_get b d) as [v|] eqn:Hb.
  - now rewrite (Hk b v Hb).
  - now rewrite (Hn b Hnd Hb).
Qed.

(** The chain from a response to the rows of one of its blocks, read in a
    later store. *)
Lemma inv_chain (done : list string) (hk : heap) (r : loc) (b : string) (l : loc) :
  inv done hk -> block_rows_loc h (VRef r) b = Some l ->
  exists d' bl bd',
    hk !! r = Some (ODict d') /\ dict_get b d' = Some (VRef bl) /\
    hk !! bl = Some (ODict bd') /\ dict_get "rows" bd' = Some (VRef l).
Proof.
  intros (I1 & _ & _) Hloc.
  apply rows_loc_inv in Hloc as (d & x & bl & bd & xs & Hr & Hx & -> & Hbl & Hrows & _).
  destruct (I1 r d Hr) as (d' & Hr' & Hk & _).
  destruct (I1 bl bd Hbl) as (bd' & Hbl' & Hk' & _).
  exists d', bl, bd'. auto.
Qed.

Lemma rows_of_loc (r : loc) (b : string) (l : loc) (xs : list val) :
  block_rows_loc h (VRef r) b = Some l -> h !! l = Some (OList xs) ->
  block_rows h (VRef r) b = Some xs.
Proof. intros Hl Hx. unfold block_rows. now rewrite Hl, Hx. Qed.

Lemma rows_loc_list (r : loc) (b : string) (l : loc) :
  block_rows_loc h (VRef r) b = Some l -> exists xs, h !! l = Some (OList xs).
Proof.
  intros Hl. apply rows_loc_inv in Hl as (? & ? & ? & ? & xs & ? & ? & ? & ? & ? & ?).
  eauto.
Qed.

Lemma lookup_lt_heap (hk : heap) (l : loc) (o : obj) :
  hk !! l = Some o -> (l < List.length hk)%nat.
Proof. intros Hl. now apply lookup_lt_Some in Hl. Qed.

(** One iteration of the loop. *)
Lemma merge_block_step (done : list string) (hk : heap) (b : string) :
  inv done hk -> In b KNOWN_BLOCKS -> ~ In b done ->
  (forall b', In b' done -> In b' KNOWN_BLOCKS) ->
  exists hk',
    merge_block (VRef dl) (VRef sl) b hk = (Ok tt, hk') /\ inv (b :: done) hk'.
Proof.
  intros Inv Hb Hnd Hdone.
  destruct (inv_has done hk sl sd b Inv Hs Hnd) as (sd' & Hsl' & Hhas_s & Hget_s).
  destruct (inv_has done hk dl dd b Inv Hd Hnd) as (dd' & Hdl' & Hhas_d & Hget_d).
  pose proof Inv as (I1 & I2 & I3).
  unfold merge_block.
  rewrite (bind_ok _ _ hk hk (dict_has b sd))
    by (apply reads_ok; unfold py_contains; now rewrite Hsl', Hhas_s).
  destruct (dict_has b sd) eqn:Hbs; cbn [negb].
  2:{ exists hk. split; [reflexivity|]. split; [|split].
      - intros l d Hl. destruct (I1 l d Hl) as (d' & ? & ? & Hn).
        exists d'. repeat split; try assumption.
        intros key Hk. apply Hn. intros ?. apply Hk. now right.
      - intros l xs Hl Hno. apply (I2 l xs Hl). intros b' Hb'. apply Hno. now right.
      - intros b' l rd rs [<-|Hb'] Hloc Hl Hrs; [|now apply (I3 b' l rd rs)].
        exfalso. unfold block_rows, block_rows_loc, deref in Hrs.
        rewrite Hs in Hrs. unfold dict_has in Hbs.
        destruct (dict_get b sd); discriminate. }
  destruct (Hsb b Hb Hbs) as [srl Hsrl].
  destruct (rows_loc_list sl b srl Hsrl) as [rs Hrs].
  destruct (inv_chain done hk sl b srl Inv Hsrl)
    as (sd2 & sbl & sbd' & Hsl2 & Hsb2 & Hsbl' & Hsrows).
  rewrite Hsl' in Hsl2. injection Hsl2 as <-.
  assert (Hsrl' : hk !! srl = Some (OList rs)).
  { apply (I2 srl rs Hrs). intros b' Hb' Hloc.
    destruct (Hsep b' b srl (Hdone b' Hb') Hb) as [_ Hne]; [congruence|assumption|].
    contradiction. }
  rewrite (bind_ok _ _ hk hk (VRef sbl))
    by (apply reads_ok; unfold getitem, deref; now rewrite Hsl', Hsb2).
  rewrite (bind_ok _ _ hk hk (dict_has b dd))
    by (apply reads_ok; unfold py_contains; now rewrite Hdl', Hhas_d).
  destruct (dict_has b dd) eqn:Hbd; cbn [negb].
  - (* the block is on both sides: the rows are extended in place *)
    destruct (Hdb b Hb Hbs Hbd) as [l Hl].
    destruct (rows_loc_list dl b l Hl) as [rd Hrd].
    destruct (inv_chain done hk dl b l Inv Hl)
      as (dd2 & dbl & dbd' & Hdl2 & Hdb2 & Hdbl' & Hdrows).
    rewrite Hdl' in Hdl2. injection Hdl2 as <-.
    assert (Hfresh : forall b', In b' done -> block_rows_loc h (VRef dl) b' <> Some l).
    { intros b' Hb'. destruct (Hsep b b' l Hb (Hdone b' Hb')) as [Hne _];
        [congruence|assumption|assumption]. }
    assert (Hl' : hk !! l = Some (OList rd)) by now apply (I2 l rd Hrd).
    rewrite (bind_ok _ _ hk hk (VRef dbl))
      by (apply reads_ok; unfold getitem, deref; now rewrite Hdl', Hdb2).
    rewrite (bind_ok _ _ hk hk (VRef l))
      by (apply reads_ok; unfold getitem, deref; now rewrite Hdbl', Hdrows).
    rewrite (bind_ok _ _ hk hk l)
      by (apply reads_ok; unfold extend_method; now rewrite Hl').
    rewrite (bind_ok _ _ hk hk (Some (VRef srl)))
      by (apply reads_ok; unfold method_get, deref; now rewrite Hsbl', Hsrows).
    rewrite (bind_ok _ _ hk hk rs)
      by (apply reads_ok; unfold iterate; now rewrite Hsrl').
    unfold list_extend. rewrite Hl'.
    eexists. split; [reflexivity|]. split; [|split].
    + intros l0 d0 Hl0. destruct (I1 l0 d0 Hl0) as (d' & Hl0' & Hk & Hn).
      exists d'. split; [|split; [assumption|]].
      * rewrite list_lookup_insert_ne by congruence. assumption.
      * intros key Hkey. apply Hn. intros ?. apply Hkey. now right.
    + intros l0 xs Hl0 Hno.
      assert (l <> l0) by (intros <-; apply (Hno b); [now left|assumption]).
      rewrite list_lookup_insert_ne by assumption.
      apply (I2 l0 xs Hl0). intros b' Hb'. apply Hno. now right.
    + intros b' l0 rd0 rs0 [<-|Hb'] Hloc Hl0 Hrs0.
      * rewrite Hl in Hloc. injection Hloc as <-.
        rewrite Hrd in Hl0. injection Hl0 as <-.
        rewrite (rows_of_loc sl b srl rs Hsrl Hrs) in Hrs0. injection Hrs0 as <-.
        apply list_lookup_insert_eq. eapply lookup_lt_heap; eassumption.
      * assert (l <> l0) by (intros <-; now apply (Hfresh b')).
        rewrite list_lookup_insert_ne by assumption. now apply (I3 b' l0 rd0 rs0).
  - (* the block is new to the destination: columns adopted, rows copied *)
    assert (Htail : forall cols ext, exists hk',
      bind (reads (method_get (VRef sbl) "rows"))
        (fun rows =>
           bind (match rows with
                 | Some r => reads (iterate r)
                 | None => ret []
                 end)
             (fun items =>
                bind (alloc (OList items))
                  (fun rows_copy =>
                     bind (alloc (ODict [("columns", cols); ("rows", rows_copy)]))
                       (fun new_block => setitem (VRef dl) b new_block))))
        (hk ++ ext) = (Ok tt, hk') /\ inv (b :: done) hk').
    2:{ rewrite (bind_ok _ _ hk hk (dict_get "columns" sbd'))
          by (apply reads_ok; unfold method_get, deref; now rewrite Hsbl').
        destruct (dict_get "columns" sbd') as [cv|].
        - specialize (Htail cv []). rewrite app_nil_r in Htail. exact Htail.
        - exact (Htail (VRef (List.length hk)) [OList []]). }
    intros cols ext.
    assert (Hold : forall l0 o, hk !! l0 = Some o -> (hk ++ ext) !! l0 = Some o).
    { intros l0 o Hl0. rewrite lookup_app_l; [assumption|].
      eapply lookup_lt_heap; eassumption. }
    rewrite (bind_ok _ _ (hk ++ ext) (hk ++ ext) (Some (VRef srl)))
      by (apply reads_ok; unfold method_get, deref;
          now rewrite (Hold _ _ Hsbl'), Hsrows).
    rewrite (bind_ok _ _ (hk ++ ext) (hk ++ ext) rs)
      by (apply reads_ok; unfold iterate; now rewrite (Hold _ _ Hsrl')).
    unfold bind, alloc, setitem.
    set (h1 := (hk ++ ext) ++ [OList rs]).
    set (h2 := h1 ++ [ODict _]).
    assert (Hold2 : forall l0 o, hk !! l0 = Some o -> h2 !! l0 = Some o).
    { intros l0 o Hl0. subst h2 h1. rewrite <- !app_assoc.
      rewrite lookup_app_l; [assumption|]. eapply lookup_lt_heap; eassumption. }
    rewrite (Hold2 _ _ Hdl').
    eexists. split; [reflexivity|].
    assert (Hnone : dict_get b dd = None).
    { unfold dict_has in Hbd. destruct (dict_get b dd); [discriminate|reflexivity]. }
    split; [|split].
    + intros l0 d0 Hl0. destruct (I1 l0 d0 Hl0) as (d' & Hl0' & Hk & Hn).
      destruct (Nat.eq_dec dl l0) as [<-|Hne].
      * rewrite Hd in Hl0. injection Hl0 as <-.
        rewrite Hdl' in Hl0'. injection Hl0' as <-.
        eexists. split; [apply list_lookup_insert_eq;
                         eapply lookup_lt_heap, Hold2, Hdl'|].
        split.
        -- intros key v Hkey. rewrite dict_get_set_ne; [now apply Hk|].
           intros <-. congruence.
        -- intros key Hkey Hnk. rewrite dict_get_set_ne; [|intros <-; apply Hkey; now left].
           apply Hn; [|assumption]. intros ?. apply Hkey. now right.
      * exists d'. split; [|split; [assumption|]].
        -- rewrite list_lookup_insert_ne by assumption. now apply Hold2.
        -- intros key Hkey. apply Hn. intros ?. apply Hkey. now right.
    + intros l0 xs Hl0 Hno.
      assert (dl <> l0) by (intros <-; congruence).
      rewrite list_lookup_insert_ne by assumption. apply Hold2.
      apply (I2 l0 xs Hl0). intros b' Hb'. apply Hno. now right.
    + intros b' l0 rd0 rs0 [<-|Hb'] Hloc Hl0 Hrs0.
      * exfalso. unfold block_rows_loc, deref in Hloc. rewrite Hd, Hnone in Hloc.
        discriminate.
      * assert (dl <> l0) by (intros <-; congruence).
        rewrite list_lookup_insert_ne by assumption. apply Hold2.
        now apply (I3 b' l0 rd0 rs0).
Qed.

Lemma merge_loop (blocks done : list string) (hk : heap) :
  NoDup blocks ->
  (forall b, In b blocks -> In b KNOWN_BLOCKS /\ ~ In b done) ->
  (forall b', In b' done -> In b' KNOWN_BLOCKS) ->
  inv done hk ->
  exists hk',
    for_each blocks (merge_block (VRef dl) (VRef sl)) hk = (Ok tt, hk') /\
    inv (rev blocks ++ done) hk'.
Proof.
  revert done hk. induction blocks as [|b blocks IH]; intros done hk Hnd Hin Hdone Inv.
  - exists hk. split; [reflexivity|assumption].
  - apply NoDup_cons in Hnd as [Hnb Hnd].
    destruct (Hin b (or_introl eq_refl)) as [Hb Hbd].
    destruct (merge_block_step done hk b Inv Hb Hbd Hdone) as (h1 & Hstep & Inv1).
    destruct (IH (b :: done) h1 Hnd) as (h2 & Hloop & Inv2); [| |assumption|].
    + intros b' Hb'. destruct (Hin b' (or_intror Hb')) as [? ?].
      split; [assumption|]. intros [<-|?]; [|contradiction].
      apply Hnb. now apply list_elem_of_In.
    + intros b' [<-|Hb']; auto.
    + exists h2. split.
      * cbn [for_each]. rewrite (bind_ok _ _ hk h1 tt Hstep). assumption.
      * cbn [rev]. now rewrite <- app_assoc.
Qed.

Lemma chain_rows (hk : heap) (r bl l : loc) (b : string)
    (d bd : list (string * val)) (xs : list val) :
  hk !! r = Some (ODict d) -> dict_get b d = Some (VRef bl) ->
  hk !! bl = Some (ODict bd) -> dict_get "rows" bd = Some (VRef l) ->
  hk !! l = Some (OList xs) ->
  block_rows hk (VRef r) b = Some xs.
Proof.
  intros Hr Hb Hbl Hrows Hl. unfold block_rows, block_rows_loc, deref.
  now rewrite Hr, Hb, Hbl, Hrows, Hl, Hl.
Qed.

(** The rows of a processed block after the loop, read through the
    destination, whatever happens to the [meta] entry afterwards. *)
Lemma merged_rows_after (hk : heap) (v : val) (b : string) (rd rs : list val) :
  inv (rev KNOWN_BLOCKS) hk -> In b KNOWN_BLOCKS ->
  block_rows h (VRef dl) b = Some rd -> block_rows h (VRef sl) b = Some rs ->
  block_rows hk (VRef dl) b = Some (rd ++ rs) /\
  forall dk, hk !! dl = Some (ODict dk) ->
    block_rows (<[dl := ODict (dict_set "meta" v dk)]> hk) (VRef dl) b
    = Some (rd ++ rs).
Proof.
  intros Inv Hb Hrd Hrs. pose proof Inv as (I1 & I2 & I3).
  unfold block_rows in Hrd.
  destruct (block_rows_loc h (VRef dl) b) as [l|] eqn:Hl; [|discriminate].
  destruct (h !! l) as [[|xs]|] eqn:Hxs; try discriminate. injection Hrd as ->.
  destruct (inv_chain (rev KNOWN_BLOCKS) hk dl b l Inv Hl)
    as (d' & bl & bd' & Hdl' & Hbk & Hbl' & Hrows).
  assert (Hl' : hk !! l = Some (OList (rd ++ rs))).
  { apply (I3 b l rd rs); try assumption. now apply in_rev in Hb. }
  split; [eapply chain_rows; eassumption|].
  intros dk Hdk. rewrite Hdl' in Hdk. injection Hdk as <-.
  assert (Hmeta : b <> "meta").
  { intros ->. cbn in Hb. intuition discriminate. }
  assert (Hlt : (dl < List.length hk)%nat) by (eapply lookup_lt_heap; eassumption).
  assert (Hne : dl <> l) by (intros <-; congruence).
  destruct (Nat.eq_dec dl bl) as [<-|Hbl_ne].
  - rewrite Hdl' in Hbl'. injection Hbl' as <-.
    eapply (chain_rows _ dl dl l).
    + now apply list_lookup_insert_eq.
    + rewrite dict_get_set_ne by congruence. eassumption.
    + now apply list_lookup_insert_eq.
    + rewrite dict_get_set_ne by discriminate. eassumption.
    + now rewrite list_lookup_insert_ne.
  - eapply (chain_rows _ dl bl l).
    + now apply list_lookup_insert_eq.
    + rewrite dict_get_set_ne by congruence. eassumption.
    + rewrite list_lookup_insert_ne by assumption. eassumption.
    + eassumption.
    + now rewrite list_lookup_insert_ne.
Qed.

Lemma merge_nonempty :
  dd <> [] ->
  exists h',
    _merge_responses (VRef dl) (VRef sl) h = (Ok (VRef dl), h') /\
    forall b rd rs, In b KNOWN_BLOCKS ->
      block_rows h (VRef dl) b = Some rd -> block_rows h (VRef sl) b = Some rs ->
      block_rows h' (VRef dl) b = Some (rd ++ rs).
Proof.
  intros Hne.
  destruct (merge_loop KNOWN_BLOCKS [] h) as (h2 & Hloop & Inv).
  { repeat constructor; rewrite ?list_elem_of_In; cbn; intuition discriminate. }
  { intros b Hb. split; [assumption|intros []]. }
  { intros b' []. }
  { apply merge_inv_init. }
  rewrite app_nil_r in Inv. pose proof Inv as (I1 & _ & _).
  destruct (I1 sl sd Hs) as (sd2 & Hsl2 & Hsk & _).
  destruct (I1 dl dd Hd) as (dd2 & Hdl2 & _ & _).
  unfold _merge_responses. cbn [truthy]. rewrite Hd.
  destruct dd as [|e0 dd0]; [congruence|]. cbn [negb].
  rewrite (bind_ok _ _ h h2 tt Hloop).
  rewrite (bind_ok _ _ h2 h2 (dict_has "meta" sd2))
    by (apply reads_ok; unfold py_contains; now rewrite Hsl2).
  destruct (dict_has "meta" sd2) eqn:Hmeta.
  - apply has_get in Hmeta as [meta Hmeta].
    unfold bind at 1.
    rewrite (bind_ok _ _ h2 h2 tt)
      by (apply reads_ok; unfold dict_method, deref; now rewrite Hdl2).
    rewrite (bind_ok _ _ h2 h2 meta)
      by (apply reads_ok; unfold getitem, deref; now rewrite Hsl2, Hmeta).
    unfold setdefault. rewrite Hdl2.
    destruct (dict_has "meta" dd2).
    + exists h2. split; [reflexivity|]. intros b rd rs Hb Hrd Hrs.
      now apply (merged_rows_after h2 meta b rd rs Inv Hb Hrd Hrs).
    + eexists. split; [reflexivity|]. intros b rd rs Hb Hrd Hrs.
      now apply (merged_rows_after h2 meta b rd rs Inv Hb Hrd Hrs).
  - exists h2. split; [reflexivity|]. intros b rd rs Hb Hrd Hrs.
    now apply (merged_rows_after h2 VNone b rd rs Inv Hb Hrd Hrs).
Qed.
End MergeProps.

(** C3: for a non-empty destination and a source that are responses whose
    rows lists are apart, [_merge_responses] returns the destination, in
    which every known block present on both sides holds the rows the
    destination had followed by the rows of the source, in order; a block
    with one row on each side ends with exactly these two rows, the one of
    the destination first. *)
Theorem merge_appends_rows (h : heap) (destination source : val) :
  response_ok h destination -> response_ok h source ->
  truthy h destination = true ->
  rows_apart h destination source ->
  exists h',
    _merge_responses destination source h = (Ok destination, h') /\
    (forall b rd rs, In b KNOWN_BLOCKS ->
       block_rows h destination b = Some rd -> block_rows h source b = Some rs ->
       block_rows h' destination b = Some (rd ++ rs)) /\
    (forall r1 r2,
       block_rows h destination "probabilities" = Some [r1] ->
       block_rows h source "probabilities" = Some [r2] ->
       block_rows h' destination "probabilities" = Some [r1; r2]).
Proof.
  intros (dl & dd & -> & Hd & Hdb) (sl & sd & -> & Hs & Hsb) Htruthy Hsep.
  assert (Hne : dd <> []).
  { cbn in Htruthy. rewrite Hd in Htruthy. destruct dd; [discriminate|congruence]. }
  destruct (merge_nonempty h dl sl dd sd Hd Hs Hsb) as (h' & Hrun & Hrows);
    try assumption.
  { intros b Hb _ Hbd. now apply Hdb. }
  exists h'. split; [assumption|]. split; [assumption|].
  intros r1 r2 H1 H2. apply (Hrows "probabilities" [r1] [r2]); try assumption.
  cbn. auto.
Qed.

Lemma merge_appends_rows_witness :
  exists h',
    _merge_responses (VRef 4%nat) (VRef 9%nat) sample_merge_store
    = (Ok (VRef 4%nat), h') /\
    block_rows h' (VRef 4%nat) "probabilities" = Some [VRef 1%nat; VRef 6%nat].
Proof.
  destruct (merge_appends_rows sample_merge_store (VRef 4%nat) (VRef 9%nat))
    as (h' & Hrun & _ & Hone).
  - exists 4%nat, [("probabilities", VRef 3%nat)]. split; [reflexivity|].
    split; [reflexivity|]. intros b Hb Hhas.
    destruct Hb as [<-|[<-|[<-|[]]]]; try discriminate Hhas.
    vm_compute. eauto.
  - exists 9%nat, [("probabilities", VRef 8%nat)]. split; [reflexivity|].
    split; [reflexivity|]. intros b Hb Hhas.
    destruct Hb as [<-|[<-|[<-|[]]]]; try discriminate Hhas.
    vm_compute. eauto.
  - reflexivity.
  - intros b b' l Hb Hb' Hne Hl.
    destruct Hb as [<-|[<-|[<-|[]]]]; try discriminate Hl;
      destruct Hb' as [<-|[<-|[<-|[]]]]; try congruence;
      split; vm_compute; discriminate.
  - exists h'. split; [assumption|]. apply Hone; reflexivity.
Defined.

(** ** The two parts of [fetch_timeseries] *)

Lemma bind_assoc {S A B C} (m : M S A) (k : A -> M S B) (k' : B -> M S C) (s : S) :
  bind (bind m k) k' s = bind m (fun a => bind (k a) k') s.
Proof.
  unfold bind. destruct (m s) as [[a|e] s1]; [|reflexivity]. reflexivity.
Qed.

Lemma bind_ext {S A B} (m : M S A) (k k' : A -> M S B) (s : S) :
  (forall a s1, k a s1 = k' a s1) -> bind m k s = bind m k' s.
Proof.
  intros Hk. unfold bind. destruct (m s) as [[a|e] s1]; [apply Hk|reflexivity].
Qed.

Section PhaseProps.
Context {W : Type} `{Session W} `{DatetimeLib}.

Lemma fetch_timeseries_phases (c : client) (args : timeseries_args) (s : state W) :
  fetch_timeseries c args s
  = bind (resolve_groups c args) (fetch_groups c args) s.
Proof.
  unfold fetch_timeseries, resolve_groups.
  destruct (horizons args) as [|hz hs]; [reflexivity|].
  rewrite bind_assoc. apply bind_ext. intros [start_dt end_dt] s0.
  rewrite bind_assoc. apply bind_ext. intros response s1.
  rewrite bind_assoc. apply bind_ext. intros markets s2.
  rewrite bind_assoc. apply bind_ext. intros catalog s3.
  rewrite bind_assoc. apply bind_ext. intros is_truthy s4.
  destruct is_truthy; cbn [negb].
  - rewrite bind_assoc. apply bind_ext. intros groups s5. reflexivity.
  - reflexivity.
Qed.
End PhaseProps.

(** ** [sorted(set(market_ids))] *)

Lemma ltb_trichotomy (s t : string) :
  String.ltb t s = false -> s <> t -> String.ltb s t = true.
Proof.
  unfold String.ltb. intros Hts Hne. rewrite String.compare_antisym.
  destruct (String.compare t s) eqn:Hc; simpl; try reflexivity; try discriminate.
  apply String.compare_eq_iff in Hc. congruence.
Qed.

Lemma ltb_trans (s t u : string) :
  String.ltb s t = true -> String.ltb t u = true -> String.ltb s u = true.
Proof.
  unfold String.ltb. intros Hst Htu.
  destruct (String.compare s t) eqn:H1; try discriminate.
  destruct (String.compare t u) eqn:H2; try discriminate.
  apply String_as_OT.cmp_lt in H1, H2.
  pose proof (String_as_OT.lt_trans _ _ _ H1 H2) as H3.
  apply String_as_OT.cmp_lt in H3. unfold String_as_OT.cmp in H3. now rewrite H3.
Qed.


Ltac val_cases a b :=
  destruct a as [|[]| |?|], b as [|[]| |?|];
  cbn -[Z.leb Z.eqb Z.ltb Z.lt String.ltb String.eqb]; try discriminate.

Lemma val_lt_of_leb (a b : val) :
  same_kind a b = true -> val_leb a b = true -> val_eqb a b = false -> val_lt a b.
Proof.
  unfold same_kind, val_leb, val_eqb, val_lt, is_str, is_num.
  val_cases a b; intros _ Hle Hne;
    try (apply Z.leb_le in Hle; apply Z.eqb_neq in Hne; lia).
  apply ltb_trichotomy.
  - now destruct (String.ltb _ _).
  - intros ->. now rewrite String.eqb_refl in Hne.
Qed.

Lemma val_lt_of_not_leb (a b : val) :
  same_kind a b = true -> val_leb a b = false -> val_lt b a.
Proof.
  unfold same_kind, val_leb, val_lt, is_str, is_num.
  val_cases a b; intros _ Hle; try (apply Z.leb_gt in Hle; lia).
  now destruct (String.ltb _ _).
Qed.

#[local] Instance val_lt_trans : Transitive val_lt.
Proof.
  intros a b c. unfold val_lt.
  destruct a as [|[]| |?|], b as [|[]| |?|], c as [|[]| |?|];
    cbn -[Z.lt String.ltb]; try tauto; try lia.
  apply ltb_trans.
Qed.


Lemma in_insert_sorted (x w : val) (l : list val) :
  In w (insert_sorted x l) <-> w = x \/ In w l.
Proof.
  induction l as [|y l IH]; simpl; [intuition|].
  destruct (val_leb x y); simpl; [intuition|]. rewrite IH. intuition.
Qed.

Lemma in_sort_vals (w : val) (l : list val) : In w (sort_vals l) <-> In w l.
Proof.
  induction l as [|x l IH]; simpl; [reflexivity|].
  rewrite in_insert_sorted, IH. intuition.
Qed.

Lemma length_insert_sorted (x : val) (l : list val) :
  List.length (insert_sorted x l) = S (List.length l).
Proof.
  induction l as [|y l IH]; simpl; [reflexivity|].
  destruct (val_leb x y); simpl; [reflexivity|]. now rewrite IH.
Qed.

Lemma length_sort_vals (l : list val) : List.length (sort_vals l) = List.length l.
Proof.
  induction l as [|x l IH]; simpl; [reflexivity|].
  now rewrite length_insert_sorted, IH.
Qed.

Lemma insert_sorted_sorted (x : val) (l : list val) :
  StronglySorted val_lt l ->
  (forall y, In y l -> same_kind x y = true /\ val_eqb x y = false) ->
  StronglySorted val_lt (insert_sorted x l).
Proof.
  induction l as [|y l IH]; intros Hs Hx; simpl.
  - repeat constructor.
  - apply StronglySorted_cons in Hs as [Hy Hs].
    destruct (Hx y (or_introl eq_refl)) as [Hk Hne].
    destruct (val_leb x y) eqn:Hle.
    + pose proof (val_lt_of_leb x y Hk Hle Hne) as Hxy.
      apply StronglySorted_cons. split; [|now apply StronglySorted_cons].
      constructor; [assumption|].
      eapply Forall_impl; [exact Hy|]. intros z Hz. now transitivity y.
    + apply StronglySorted_cons. split.
      * apply List.Forall_forall. intros w Hw. apply in_insert_sorted in Hw as [->|Hw].
        -- now apply val_lt_of_not_leb.
        -- rewrite List.Forall_forall in Hy. now apply Hy.
      * apply IH; [assumption|]. intros z Hz. apply Hx. now right.
Qed.

Lemma sort_vals_sorted (l : list val) :
  (forall a b, In a l -> In b l -> same_kind a b = true) ->
  StronglySorted (fun a b => val_eqb a b = false) l ->
  StronglySorted val_lt (sort_vals l).
Proof.
  induction l as [|x l IH]; intros Hk Hd; simpl; [constructor|].
  apply StronglySorted_cons in Hd as [Hx Hd].
  apply insert_sorted_sorted.
  - apply IH; [|assumption]. intros a b Ha Hb. apply Hk; now right.
  - intros y Hy. apply (proj1 (in_sort_vals y l)) in Hy. split.
    + apply Hk; simpl; auto.
    + rewrite List.Forall_forall in Hx. now apply Hx.
Qed.

Lemma filter_strongly_sorted {A} (R : A -> A -> Prop) (P : A -> Prop)
    `{forall x, Decision (P x)} (l : list A) :
  StronglySorted R l -> StronglySorted R (filter P l).
Proof.
  induction 1 as [|x l Hs IH Hx]; [constructor|].
  rewrite filter_cons. destruct (decide (P x)); [|assumption].
  constructor; [assumption|].
  apply List.Forall_forall. intros y Hy.
  apply list_elem_of_In, list_elem_of_filter in Hy as [_ Hy].
  rewrite List.Forall_forall in Hx. apply Hx. now apply list_elem_of_In.
Qed.

Lemma dedup_distinct (l : list val) :
  StronglySorted (fun a b => val_eqb a b = false) (dedup l).
Proof.
  induction l as [|x l IH]; simpl; [constructor|].
  constructor.
  - now apply filter_strongly_sorted.
  - apply List.Forall_forall. intros y Hy.
    apply list_elem_of_In, list_elem_of_filter in Hy as [Hy _].
    destruct (val_eqb x y); [contradiction|reflexivity].
Qed.

Lemma in_dedup (w : val) (l : list val) : In w (dedup l) -> In w l.
Proof.
  induction l as [|x l IH]; simpl; [tauto|]. intros [->|Hw]; [now left|].
  apply list_elem_of_In, list_elem_of_filter in Hw as [_ Hw].
  right. apply IH. now apply list_elem_of_In.
Qed.

Lemma dedup_nonempty (l : list val) : l <> [] -> dedup l <> [].
Proof. destruct l; [congruence|discriminate]. Qed.

Lemma homogeneous_same_kind (l : list val) :
  forallb is_str l || forallb is_num l = true ->
  forall a b, In a l -> In b l -> same_kind a b = true.
Proof.
  intros Hh a b Ha Hb. unfold same_kind.
  apply orb_true_iff in Hh as [Hh|Hh]; rewrite forallb_forall in Hh;
    rewrite (Hh a Ha), (Hh b Hb); [reflexivity|apply orb_true_r].
Qed.

(** The ids of a group, once sorted: strictly ascending, hence without
    duplicates; none when the group is empty only; all of them truthy when
    the ids of the group are. *)
Lemma unique_ids_sorted (ids unique : list val) :
  unique_ids_of ids = Ok unique ->
  StronglySorted val_lt unique /\
  (ids <> [] -> unique <> []) /\
  (forall v, In v unique -> In v ids).
Proof.
  unfold unique_ids_of, py_set.
  destruct (forallb hashable ids); [|discriminate]. unfold rbind.
  pose proof (dedup_distinct ids) as Hd.
  pose proof (dedup_nonempty ids) as Hne.
  pose proof (fun w => in_dedup w ids) as Hin.
  destruct (dedup ids) as [|x [|y l]] eqn:Hdd; unfold py_sorted.
  - intros [= <-]. split; [constructor|]. split; [assumption|]. intros v [].
  - intros [= <-]. split; [repeat constructor|]. split; [discriminate|assumption].
  - destruct (forallb is_str (x :: y :: l) || forallb is_num (x :: y :: l)) eqn:Hh;
      [|discriminate].
    intros Heq. assert (unique = sort_vals (x :: y :: l)) as -> by congruence.
    clear Heq. split; [|split].
    + apply (sort_vals_sorted (x :: y :: l)); [|assumption].
      now apply homogeneous_same_kind.
    + intros _ Hs. apply (f_equal (@List.length val)) in Hs.
      rewrite (length_sort_vals (x :: y :: l)) in Hs. discriminate.
    + intros v Hv. apply Hin. now apply (proj1 (in_sort_vals v (x :: y :: l))) in Hv.
Qed.





Lemma sorted_slice {A} (R : A -> A -> Prop) (l : list A) (i k : nat) :
  StronglySorted R l -> StronglySorted R (take k (drop i l)).
Proof.
  intros Hs. rewrite <- (take_drop i l) in Hs.
  apply StronglySorted_app_1_r in Hs.
  rewrite <- (take_drop k (drop i l)) in Hs.
  now apply StronglySorted_app_1_l in Hs.
Qed.

(** ** The grouping of the catalog *)

Lemma dict_set_keys {V} (k : string) (v : V) (d : list (string * V)) :
  map fst (dict_set k v d)
  = if dict_has k d then map fst d else map fst d ++ [k].
Proof.
  unfold dict_has. induction d as [|[k' v'] d IH]; simpl; [reflexivity|].
  destruct (String.eqb_spec k' k) as [->|Hne]; simpl; [reflexivity|].
  rewrite IH. now destruct (dict_get k d).
Qed.

Lemma dict_get_in {V} (k : string) (v : V) (d : list (string * V)) :
  dict_get k d = Some v -> In (k, v) d.
Proof.
  induction d as [|[k' v'] d IH]; simpl; [discriminate|].
  destruct (String.eqb_spec k' k) as [->|Hne].
  - intros [= ->]. now left.
  - intros Hd. right. now apply IH.
Qed.

Lemma dict_get_none_keys {V} (k : string) (d : list (string * V)) :
  dict_get k d = None -> ~ In k (map fst d).
Proof.
  induction d as [|[k' v'] d IH]; simpl; [tauto|].
  destruct (String.eqb_spec k' k) as [->|Hne]; [discriminate|].
  intros Hd [?|Hin]; [contradiction|]. now apply IH.
Qed.

Lemma in_dict_get {V} (k : string) (v : V) (d : list (string * V)) :
  List.NoDup (map fst d) -> In (k, v) d -> dict_get k d = Some v.
Proof.
  induction d as [|[k' v'] d IH]; simpl; [tauto|].
  intros Hnd Hin. apply List.NoDup_cons_iff in Hnd as [Hk Hnd].
  destruct (String.eqb_spec k' k) as [->|Hne].
  - destruct Hin as [[= ->]|Hin]; [reflexivity|].
    exfalso. apply Hk. apply in_map_iff. now exists (k, v).
  - destruct Hin as [[= -> ->]|Hin]; [contradiction|]. now apply IH.
Qed.

Lemma in_dict_set {V} (k k' : string) (v v' : V) (d : list (string * V)) :
  In (k', v') (dict_set k v d) -> (k' = k /\ v' = v) \/ In (k', v') d.
Proof.
  induction d as [|[k0 v0] d IH]; simpl.
  - intros [[= <- <-]|[]]. now left.
  - destruct (String.eqb_spec k0 k) as [->|Hne]; simpl.
    + intros [[= <- <-]|Hin]; [now left|right; now right].
    + intros [Heq|Hin]; [right; now left|].
      destruct (IH Hin) as [?|?]; [now left|right; now right].
Qed.

Lemma dict_set_nodup {V} (k : string) (v : V) (d : list (string * V)) :
  List.NoDup (map fst d) -> List.NoDup (map fst (dict_set k v d)).
Proof.
  intros Hnd. rewrite dict_set_keys. unfold dict_has.
  destruct (dict_get k d) eqn:Hk; [assumption|].
  apply NoDup_ListNoDup, NoDup_app. split; [now apply NoDup_ListNoDup|]. split.
  - intros x Hx Hx'. apply list_elem_of_In in Hx. apply list_elem_of_In in Hx'.
    destruct Hx' as [<-|[]]. now apply (dict_get_none_keys k d Hk).
  - apply NoDup_ListNoDup. repeat constructor. intros [].
Qed.

Lemma mapped_interval (horizon interval : string) :
  dict_get horizon HORIZON_INTERVAL_MAP = Some interval ->
  In interval MAPPED_INTERVALS.
Proof.
  unfold HORIZON_INTERVAL_MAP, MAPPED_INTERVALS. cbn -[String.eqb].
  repeat (destruct (String.eqb _ horizon); [intros [= <-]; cbn; tauto|]).
  discriminate.
Qed.

Lemma group_append_ok (interval : string) (market_id : val)
    (groups : list (string * list val)) :
  In interval MAPPED_INTERVALS -> groups_ok groups ->
  groups_ok (group_append interval market_id groups).
Proof.
  intros Hi [Hnd Hall]. unfold group_append.
  assert (Hset : forall ids, ids <> [] -> groups_ok (dict_set interval ids groups)).
  { intros ids Hne. split; [now apply dict_set_nodup|].
    apply List.Forall_forall. intros [k v] Hin.
    apply in_dict_set in Hin as [[-> ->]|Hin]; [now split|].
    rewrite List.Forall_forall in Hall. exact (Hall _ Hin). }
  destruct (dict_get interval groups); apply Hset; [|discriminate].
  intros Happ. now apply app_eq_nil in Happ as [_ [=]].
Qed.

Lemma group_entry_ok (groups : list (string * list val)) (entry : val) (h : heap) :
  groups_ok groups ->
  snd (group_entry groups entry h) = h /\
  forall groups', fst (group_entry groups entry h) = Ok groups' -> groups_ok groups'.
Proof.
  intros Hok. unfold group_entry, bind, reads.
  destruct (method_get entry "horizon" h) as [horizon|]; [|split; [reflexivity|discriminate]].
  destruct (method_get entry "market_id" h) as [market_id|];
    [|split; [reflexivity|discriminate]].
  destruct (negb _ || negb _); [split; [reflexivity|now intros ? [= <-]]|].
  destruct (interval_of (or_none horizon)) as [[interval|]|] eqn:Hi; cbn [fst snd].
  - destruct (String.eqb interval EmptyString); cbn [fst snd];
      (split; [reflexivity|]); intros ? [= <-]; [assumption|].
    apply group_append_ok; [|assumption].
    unfold interval_of in Hi. destruct (or_none horizon); try discriminate.
    injection Hi as Hi. now apply mapped_interval in Hi.
  - split; [reflexivity|]. now intros ? [= <-].
  - split; [reflexivity|discriminate].
Qed.

Lemma group_fold_ok (entries : list val) (groups : list (string * list val))
    (h : heap) :
  groups_ok groups ->
  snd (fold_M group_entry entries groups h) = h /\
  forall groups', fst (fold_M group_entry entries groups h) = Ok groups' ->
                  groups_ok groups'.
Proof.
  revert groups. induction entries as [|entry entries IH]; intros groups Hok.
  - cbn. split; [reflexivity|]. now intros ? [= <-].
  - cbn [fold_M]. unfold bind.
    destruct (group_entry_ok groups entry h Hok) as [Hh Hg].
    destruct (group_entry groups entry h) as [[groups1|e] h1]; cbn [fst snd] in *.
    + subst h1. apply IH. now apply Hg.
    + split; [assumption|discriminate].
Qed.

Lemma group_markets_ok (catalog : val) (h : heap) :
  snd (group_markets catalog h) = h /\
  forall groups, fst (group_markets catalog h) = Ok groups -> groups_ok groups.
Proof.
  unfold group_markets, bind, reads.
  destruct (iterate catalog h) as [entries|e]; [|split; [reflexivity|discriminate]].
  apply group_fold_ok. split; constructor.
Qed.

(** ** The requests of the loop over the groups *)

Lemma chunk_nil_any {A} (size : Z) (chunks : list (list A)) :
  _chunk (@nil A) size = Ok chunks -> chunks = [].
Proof.
  unfold _chunk, py_range. cbn [List.length Z.of_nat].
  destruct (size =? 0); [discriminate|].
  destruct (0 <? size); cbn; now intros [= <-].
Qed.

Lemma chunk_small_size {A} (l : list A) (size : Z) (chunks : list (list A)) :
  size < 1 -> _chunk l size = Ok chunks -> chunks = [].
Proof.
  intros Hs. unfold _chunk, py_range.
  destruct (Z.eqb_spec size 0); [discriminate|].
  destruct (Z.ltb_spec 0 size); [lia|].
  destruct (Z.ltb_spec (Z.of_nat (List.length l)) 0); [lia|].
  cbn. now intros [= <-].
Qed.

Lemma map_take_prefix {A B} (f : A -> B) (l : list A) (k : nat) :
  map f (take k l) `prefix_of` map f l.
Proof.
  exists (map f (drop k l)). rewrite <- map_app. now rewrite take_drop.
Qed.

Section TraceProps.
Context {W : Type} `{Session W} `{DatetimeLib}.
Variables (c : client) (args : timeseries_args) (start_dt end_dt : datetime).

Local Abbreviation si := (iso_text start_dt).
Local Abbreviation ei := (iso_text end_dt).

Lemma on_heap_frame {A} (m : M heap A) (s : state W) :
  st_trace (snd (on_heap m s)) = st_trace s /\
  st_world (snd (on_heap m s)) = st_world s.
Proof. unfold on_heap. destruct (m (st_heap s)). split; reflexivity. Qed.

Lemma fetch_chunk_trace (interval : string) (aggregated : val)
    (chunk : list val) (s : state W) :
  let run := fetch_chunk c args start_dt end_dt interval aggregated chunk s in
  (st_trace (snd run) = st_trace s /\ ~ is_ok (fst run)) \/
  st_trace (snd run) = st_trace s ++ [merged_request c args si ei interval chunk].
Proof.
  unfold fetch_chunk, iso_text. rewrite pure_bind.
  destruct (_to_iso start_dt) as [start_iso|e]; [|left; split; [reflexivity|intros []]].
  rewrite pure_bind.
  destruct (_to_iso end_dt) as [end_iso|e]; [|left; split; [reflexivity|intros []]].
  right. unfold bind.
  pose proof (post_trace c "api_v1_merged"
                (merged_payload args interval chunk start_iso end_iso) s) as Hp.
  destruct (_post _ _ _ s) as [[response|e] s1]; cbn [fst snd] in *; [|exact Hp].
  destruct (on_heap_frame (_merge_responses aggregated response) s1) as [Ht _].
  rewrite Ht. exact Hp.
Qed.

Lemma fetch_chunks_trace (interval : string) (chunks : list (list val))
    (aggregated : val) (s : state W) :
  let run := fold_M (fetch_chunk c args start_dt end_dt interval)
                    chunks aggregated s in
  exists k : nat,
    st_trace (snd run)
    = st_trace s ++ map (merged_request c args si ei interval) (take k chunks) /\
    (is_ok (fst run) -> k = List.length chunks).
Proof.
  revert aggregated s. induction chunks as [|chunk chunks IH]; intros aggregated s.
  - exists 0%nat. cbn. rewrite app_nil_r. auto.
  - cbn [fold_M]. unfold bind.
    pose proof (fetch_chunk_trace interval aggregated chunk s) as Hstep.
    destruct (fetch_chunk c args start_dt end_dt interval aggregated chunk s)
      as [[aggregated1|e] s1]; cbn [fst snd] in *.
    + destruct Hstep as [[_ Hno]|Hstep]; [now destruct Hno|].
      destruct (IH aggregated1 s1) as (k & Htrace & Hk).
      exists (S k). cbn [take map]. split.
      * rewrite Htrace, Hstep, <- app_assoc. reflexivity.
      * intros Hok. cbn. f_equal. now apply Hk.
    + destruct Hstep as [[Hstep _]|Hstep].
      * exists 0%nat. cbn. rewrite app_nil_r. split; [assumption|intros []].
      * exists 1%nat. cbn [take map]. rewrite take_0. split; [assumption|intros []].
Qed.
End TraceProps.

(** ** The tables of a response and the keys of the result *)

Lemma in_dict_set_keys {V} (k k' : string) (v : V) (d : list (string * V)) :
  In k (map fst (dict_set k' v d)) <-> k = k' \/ In k (map fst d).
Proof.
  rewrite dict_set_keys. unfold dict_has.
  destruct (dict_get k' d) as [x|] eqn:Hg.
  - split; [tauto|]. intros [->|Hin]; [|assumption].
    apply dict_get_in in Hg. apply in_map_iff. now exists (k', x).
  - rewrite in_app_iff. cbn. intuition congruence.
Qed.

Lemma in_fold_dict_set {V} (f : string -> string) (frames acc : list (string * V))
    (key : string) :
  In key (map fst (fold_left (fun dfs bf => dict_set (f (fst bf)) (snd bf) dfs)
                             frames acc))
  <-> In key (map fst acc) \/ exists block, In block (map fst frames) /\ key = f block.
Proof.
  revert acc. induction frames as [|[b fr] frames IH]; intros acc; cbn.
  - split; [tauto|]. intros [?|(? & [] & _)]. assumption.
  - rewrite IH, in_dict_set_keys. split.
    + intros [[->|Hin]|(block & Hb & ->)].
      * right. exists b. auto.
      * now left.
      * right. exists block. auto.
    + intros [Hin|(block & [<-|Hb] & ->)].
      * left. now right.
      * left. now left.
      * right. now exists block.
Qed.

Lemma frame_of_block_keys (response : val) (frames frames' : list (string * frame))
    (block : string) (h h' : heap) :
  frame_of_block response frames block h = (Ok frames', h') ->
  h' = h /\
  forall k, In k (map fst frames') -> In k (map fst frames) \/ k = block.
Proof.
  unfold frame_of_block, bind, reads, ret.
  destruct (py_contains block response h) as [[ | ] | ]; cbn; try discriminate.
  2:{ intros [= <- <-]. auto. }
  destruct (getitem response block h) as [item|]; [|discriminate].
  destruct (is_dict h item).
  - destruct (method_get item "rows" h) as [rows|]; [|discriminate].
    intros [= <- <-]. split; [reflexivity|]. intros k Hk.
    apply in_dict_set_keys in Hk. tauto.
  - intros [= <- <-]. auto.
Qed.

Lemma frames_fold_keys (response : val) (blocks : list string)
    (frames frames' : list (string * frame)) (h h' : heap) :
  fold_M (frame_of_block response) blocks frames h = (Ok frames', h') ->
  h' = h /\
  forall k, In k (map fst frames') -> In k (map fst frames) \/ In k blocks.
Proof.
  revert frames. induction blocks as [|block blocks IH]; intros frames; cbn [fold_M].
  - intros [= <- <-]. auto.
  - unfold bind.
    destruct (frame_of_block response frames block h) as [[frames1|e] h1] eqn:Hstep;
      [|discriminate].
    apply frame_of_block_keys in Hstep as [-> Hk1]. intros Hrest.
    apply IH in Hrest as [-> Hk]. split; [reflexivity|].
    intros k Hin. destruct (Hk k Hin) as [Hin1|?]; [|right; now right].
    destruct (Hk1 k Hin1) as [? | ->]; [now left|right; now left].
Qed.

(** The tables of a response are tables of known blocks, and building them
    leaves the store as it is. *)
Lemma response_to_frames_keys (response : val) (frames : list (string * frame))
    (h h' : heap) :
  _response_to_frames response h = (Ok frames, h') ->
  h' = h /\ forall k, In k (map fst frames) -> In k KNOWN_BLOCKS.
Proof.
  intros Hf. apply frames_fold_keys in Hf as [-> Hk]. split; [reflexivity|].
  intros k Hin. destruct (Hk k Hin) as [[]|?]. assumption.
Qed.

Lemma response_to_frames_empty (h : heap) (l : loc) :
  h !! l = Some (ODict []) ->
  _response_to_frames (VRef l) h = (Ok [], h).
Proof.
  intros Hl.
  assert (Hstep : forall block frames,
            frame_of_block (VRef l) frames block h = (Ok frames, h)).
  { intros block frames. unfold frame_of_block, bind, reads, py_contains.
    now rewrite Hl. }
  unfold _response_to_frames, KNOWN_BLOCKS. cbn [fold_M]. unfold bind.
  now rewrite !Hstep.
Qed.

Section ResultProps.
Context {W : Type} `{Session W} `{DatetimeLib}.
Variables (c : client) (args : timeseries_args) (start_dt end_dt : datetime).

Local Abbreviation si := (iso_text start_dt).
Local Abbreviation ei := (iso_text end_dt).

(** One group: the requests sent are the first ones of the plan of the
    group, and all of them when the iteration completes; the iteration
    adds the interval to the responses and tables of known blocks, under
    the key the number of groups decides, to the tables. *)
Lemma fetch_interval_spec (groups : list (string * list val))
    (acc : list (string * val) * list (string * frame))
    (group : string * list val) (s : state W) :
  let run := fetch_interval c args start_dt end_dt groups acc group s in
  exists new,
    st_trace (snd run) = st_trace s ++ new /\
    new `prefix_of` interval_plan c args si ei group /\
    forall acc', fst run = Ok acc' ->
      new = interval_plan c args si ei group /\
      (forall k, In k (map fst (fst acc')) ->
                 In k (map fst (fst acc)) \/ k = fst group) /\
      (forall k, In k (map fst (fst acc)) -> In k (map fst (fst acc'))) /\
      (snd group <> [] -> In (fst group) (map fst (fst acc'))) /\
      (forall key, In key (map fst (snd acc')) ->
         In key (map fst (snd acc)) \/
         exists block, In block KNOWN_BLOCKS /\
                       key = frame_key groups block (fst group)) /\
      (chunk_size args < 1 -> snd acc' = snd acc).
Proof.
  destruct group as [interval ids]. cbv zeta.
  destruct (fetch_interval c args start_dt end_dt groups acc (interval, ids) s)
    as [r s'] eqn:Hrun.
  unfold interval_plan. cbn [fst snd].
  unfold fetch_interval in Hrun. rewrite pure_bind in Hrun.
  fold (unique_ids_of ids) in Hrun.
  destruct (unique_ids_of ids) as [unique|e] eqn:Hu.
  2:{ injection Hrun as <- <-. exists []. rewrite app_nil_r.
      split; [reflexivity|]. split; [apply prefix_nil|discriminate]. }
  destruct unique as [|id unique'] eqn:Hun.
  { injection Hrun as <- <-. exists []. rewrite app_nil_r. split; [reflexivity|].
    split; [apply prefix_nil|]. intros acc' [= <-]. split.
    - destruct (_chunk [] (chunk_size args)) as [chunks|] eqn:Hc; [|reflexivity].
      now rewrite (chunk_nil_any _ _ Hc).
    - repeat split; auto. intros Hne.
      destruct (unique_ids_sorted ids [] Hu) as (_ & Hnn & _).
      now destruct (Hnn Hne). }
  rewrite <- Hun in *. clear Hun.
  unfold bind at 1 in Hrun. unfold on_heap at 1, alloc in Hrun.
  set (s0 := mk_state _ _ _) in Hrun.
  assert (Ht0 : st_trace s0 = st_trace s) by reflexivity.
  assert (Hh0 : st_heap s0 !! List.length (st_heap s) = Some (ODict [])).
  { subst s0. cbn [st_heap]. now rewrite lookup_app_r, Nat.sub_diag by lia. }
  clearbody s0.
  rewrite pure_bind in Hrun.
  destruct (_chunk unique (chunk_size args)) as [chunks|e] eqn:Hc.
  2:{ injection Hrun as <- <-. exists []. rewrite app_nil_r. split; [assumption|].
      split; [apply prefix_nil|discriminate]. }
  unfold bind at 1 in Hrun.
  destruct (fetch_chunks_trace c args start_dt end_dt interval chunks
              (VRef (List.length (st_heap s))) s0) as (k & Htrace & Hk).
  assert (Hnil : chunks = [] ->
            fold_M (fetch_chunk c args start_dt end_dt interval) chunks
                   (VRef (List.length (st_heap s))) s0
            = (Ok (VRef (List.length (st_heap s))), s0)) by now intros ->.
  destruct (fold_M _ chunks _ s0) as [[aggregated'|e] s1]; cbn [fst snd] in *.
  2:{ injection Hrun as <- <-. eexists. rewrite Htrace, Ht0. split; [reflexivity|].
      split; [apply map_take_prefix|discriminate]. }
  unfold bind, on_heap in Hrun.
  destruct (_response_to_frames aggregated' (st_heap s1)) as [[frames|e] h2] eqn:Hf;
    injection Hrun as <- <-; cbn [fst snd st_trace].
  2:{ eexists. rewrite Htrace, Ht0. split; [reflexivity|].
      split; [apply map_take_prefix|discriminate]. }
  eexists. rewrite Htrace, Ht0. split; [reflexivity|].
  split; [apply map_take_prefix|]. intros acc' [= <-]. cbn [fst snd].
  rewrite (Hk I), take_ge by lia. split; [reflexivity|].
  split; [|split; [|split; [|split]]].
  - intros key Hin. apply in_dict_set_keys in Hin. tauto.
  - intros key Hin. apply in_dict_set_keys. tauto.
  - intros _. apply in_dict_set_keys. now left.
  - intros key Hin.
    apply (proj1 (in_fold_dict_set (fun b => frame_key groups b interval) _ _ _))
      in Hin as [?|(block & Hb & ->)]; [now left|right].
    exists block. split; [|reflexivity].
    apply response_to_frames_keys in Hf as [_ Hkeys]. now apply Hkeys.
  - intros Hsize. rewrite (chunk_small_size _ _ _ Hsize Hc) in Hnil.
    injection (Hnil eq_refl) as -> ->.
    rewrite (response_to_frames_empty _ _ Hh0) in Hf.
    injection Hf as <- _. reflexivity.
Qed.

(** The requests of a complete iteration over a group that holds an id are
    not empty, for a chunk size of at least one. *)
Lemma interval_plan_nonempty (group : string * list val) (unique : list val) :
  unique_ids_of (snd group) = Ok unique -> snd group <> [] ->
  1 <= chunk_size args ->
  interval_plan c args si ei group <> [].
Proof.
  intros Hu Hne Hsize. unfold interval_plan. rewrite Hu.
  destruct (chunk_spec unique (chunk_size args) Hsize) as (chunks & Hc & Hcat & _).
  rewrite Hc. intros Hmap. apply map_eq_nil in Hmap. subst chunks.
  destruct (unique_ids_sorted _ _ Hu) as (_ & Hnn & _).
  apply (Hnn Hne). now rewrite <- Hcat.
Qed.

(** All the groups. *)
Lemma fetch_groups_spec (groups todo : list (string * list val))
    (acc : list (string * val) * list (string * frame)) (s : state W) :
  let run := fold_M (fetch_interval c args start_dt end_dt groups) todo acc s in
  exists new,
    st_trace (snd run) = st_trace s ++ new /\
    new `prefix_of` plan c args si ei todo /\
    forall acc', fst run = Ok acc' ->
      new = plan c args si ei todo /\
      (forall k, In k (map fst (fst acc')) ->
                 In k (map fst (fst acc)) \/ In k (map fst todo)) /\
      (forall k, In k (map fst (fst acc)) -> In k (map fst (fst acc'))) /\
      (forall g, In g todo -> snd g <> [] -> In (fst g) (map fst (fst acc'))) /\
      (forall key, In key (map fst (snd acc')) ->
         In key (map fst (snd acc)) \/
         exists block interval,
           In block KNOWN_BLOCKS /\ In interval (map fst todo) /\
           key = frame_key groups block interval) /\
      (chunk_size args < 1 -> snd acc' = snd acc).
Proof.
  revert acc s. induction todo as [|group todo IH]; intros acc s.
  - exists []. cbn. rewrite app_nil_r. split; [reflexivity|].
    split; [apply prefix_nil|]. intros acc' [= <-]. repeat split; auto.
    intros ? [].
  - cbn [fold_M]. unfold bind, plan. cbn [flat_map].
    destruct (fetch_interval_spec groups acc group s) as (new1 & Ht1 & Hp1 & Hok1).
    destruct (fetch_interval c args start_dt end_dt groups acc group s)
      as [[acc1|e] s1]; cbn [fst snd] in *.
    + destruct (Hok1 acc1 eq_refl) as (-> & Hr1 & Hm1 & Hg1 & Hd1 & Hz1).
      destruct (IH acc1 s1) as (new2 & Ht2 & Hp2 & Hok2).
      exists (interval_plan c args si ei group ++ new2).
      split; [now rewrite Ht2, Ht1, app_assoc|].
      split; [now apply prefix_app|].
      intros acc' Hacc'.
      destruct (Hok2 acc' Hacc') as (-> & Hr2 & Hm2 & Hg2 & Hd2 & Hz2).
      split; [reflexivity|]. split; [|split; [|split; [|split]]].
      * intros k Hin. destruct (Hr2 k Hin) as [Hin1|?]; [|right; now right].
        destruct (Hr1 k Hin1) as [? | ->]; [now left|right; now left].
      * intros k Hin. apply Hm2, Hm1, Hin.
      * intros g [<-|Hin] Hne; [apply Hm2, Hg1, Hne|now apply Hg2].
      * intros key Hin. destruct (Hd2 key Hin) as [Hin1|(b & i & Hb & Hi & ->)].
        -- destruct (Hd1 key Hin1) as [?|(b & Hb & ->)]; [now left|right].
           exists b, (fst group). repeat split; [assumption|now left].
        -- right. exists b, i. repeat split; [assumption|now right].
      * intros Hsize. now rewrite Hz2, Hz1.
    + exists new1. split; [assumption|].
      split; [now apply prefix_app_r|discriminate].
Qed.
End ResultProps.

(** ** The requests of a call *)

Section CallProps.
Context {W : Type} `{Session W} `{DatetimeLib}.
Variables (c : client) (args : timeseries_args).

Lemma on_heap_trace {A} (m : M heap A) (s s' : state W) (r : result A) :
  on_heap m s = (r, s') -> st_trace s' = st_trace s.
Proof. unfold on_heap. destruct (m (st_heap s)). now intros [= _ <-]. Qed.

Lemma time_window_state (s : state W) : snd (time_window args s) = s.
Proof. reflexivity. Qed.

(** The catalog request of a call: nothing is sent when a timestamp cannot
    be rendered, and otherwise exactly one request goes to the catalog
    endpoint, with the asset and the horizons of the call. *)
Lemma catalog_request_spec (start_dt end_dt : datetime) (s : state W) :
  let run := catalog_request c args start_dt end_dt s in
  (st_trace (snd run) = st_trace s /\ ~ is_ok (fst run)) \/
  exists start_iso end_iso,
    st_trace (snd run)
    = st_trace s ++ [request_to c "api_v1_market_catalog"
                       (catalog_payload (Some [asset args]) (Some (horizons args))
                                        (market_types args) start_iso end_iso)].
Proof.
  cbv zeta. unfold catalog_request. rewrite pure_bind.
  destruct (iso_if_given (start_ts args) start_dt) as [start_iso|];
    [|left; split; [reflexivity|intros []]].
  rewrite pure_bind.
  destruct (iso_if_given (end_ts args) end_dt) as [end_iso|];
    [|left; split; [reflexivity|intros []]].
  right. exists start_iso, end_iso. unfold fetch_market_catalog. apply post_trace.
Qed.

Lemma resolve_groups_spec (s : state W) :
  let run := resolve_groups c args s in
  (st_trace (snd run) = st_trace s /\ ~ is_ok (fst run)) \/
  exists start_iso end_iso,
    st_trace (snd run)
    = st_trace s ++ [request_to c "api_v1_market_catalog"
                       (catalog_payload (Some [asset args]) (Some (horizons args))
                                        (market_types args) start_iso end_iso)] /\
    forall start_dt end_dt catalog groups,
      fst run = Ok (Some (start_dt, end_dt, catalog, groups)) -> groups_ok groups.
Proof.
  cbv zeta. destruct (resolve_groups c args s) as [r s'] eqn:Hrun. cbn [fst snd].
  unfold resolve_groups in Hrun.
  destruct (horizons args) as [|hz hs] eqn:Hh.
  { injection Hrun as <- <-. left. split; [reflexivity|intros []]. }
  unfold bind at 1 in Hrun. pose proof (time_window_state s) as Hws.
  destruct (time_window args s) as [[[start_dt end_dt]|e] s0]; cbn [snd] in Hws;
    subst s0.
  2:{ injection Hrun as <- <-. left. split; [reflexivity|intros []]. }
  unfold bind at 1 in Hrun.
  pose proof (catalog_request_spec start_dt end_dt s) as Hcat. cbv zeta in Hcat.
  rewrite Hh in Hcat.
  destruct (catalog_request c args start_dt end_dt s) as [[response|e] s1];
    cbn [fst snd] in Hcat.
  2:{ injection Hrun as <- <-. destruct Hcat as [Hcat|(si & ei & Hcat)].
      - left. split; [tauto|intros []].
      - right. exists si, ei. split; [assumption|discriminate]. }
  destruct Hcat as [[_ Hno]|(si & ei & Hcat)]; [now destruct Hno|].
  right. exists si, ei.
  unfold bind at 1 in Hrun.
  destruct (on_heap (reads (method_get response "markets")) s1)
    as [[markets|e] s2] eqn:H1; apply on_heap_trace in H1.
  2:{ injection Hrun as <- <-. split; [congruence|discriminate]. }
  unfold bind at 1 in Hrun.
  assert (Hcatalog : exists catalog s3,
            match markets with
            | Some v => ret v
            | None => on_heap (alloc (OList []))
            end s2 = (Ok catalog, s3) /\ st_trace s3 = st_trace s2).
  { destruct markets as [v|]; [now exists v, s2|].
    unfold on_heap, alloc. eexists _, _. split; reflexivity. }
  destruct Hcatalog as (catalog & s3 & Hcat3 & H3). rewrite Hcat3 in Hrun.
  unfold bind at 1 in Hrun.
  destruct (on_heap (reads (fun h => Ok (truthy h catalog))) s3)
    as [[is_truthy|e] s4] eqn:H4; apply on_heap_trace in H4.
  2:{ injection Hrun as <- <-. split; [congruence|discriminate]. }
  destruct is_truthy; cbn [negb] in Hrun.
  2:{ injection Hrun as <- <-. split; [congruence|discriminate]. }
  unfold bind, on_heap in Hrun.
  destruct (group_markets_ok catalog (st_heap s4)) as [_ Hg].
  destruct (group_markets catalog (st_heap s4)) as [[groups|e] h5];
    injection Hrun as <- <-; cbn [st_trace]; (split; [congruence|]);
    [|discriminate].
  intros ? ? ? ? [= <- <- <- <-]. now apply Hg.
Qed.

(** The requests of a call: none when it fails before the catalog lookup;
    otherwise the catalog request, followed by the first requests of the
    plan of some grouping of market ids, and by all of them when the call
    returns. *)
Lemma fetch_timeseries_trace (s : state W) :
  let run := fetch_timeseries c args s in
  (st_trace (snd run) = st_trace s /\ ~ is_ok (fst run)) \/
  exists start_iso end_iso start_text end_text groups bulk,
    st_trace (snd run)
    = st_trace s ++ request_to c "api_v1_market_catalog"
                      (catalog_payload (Some [asset args]) (Some (horizons args))
                                       (market_types args) start_iso end_iso)
                    :: bulk /\
    groups_ok groups /\
    bulk `prefix_of` plan c args start_text end_text groups /\
    (is_ok (fst run) -> bulk = plan c args start_text end_text groups).
Proof.
  cbv zeta. rewrite fetch_timeseries_phases. unfold bind.
  pose proof (resolve_groups_spec s) as Hres. cbv zeta in Hres.
  destruct (resolve_groups c args s) as [[resolved|e] s1]; cbn [fst snd] in *.
  2:{ destruct Hres as [Hres|(si & ei & Hres & _)]; [left; tauto|right].
      exists si, ei, EmptyString, EmptyString, [], [].
      split; [assumption|]. split; [split; constructor|].
      split; [apply prefix_nil|intros []]. }
  destruct Hres as [[_ Hno]|(si & ei & Hres & Hg)]; [now destruct Hno|].
  right. exists si, ei.
  destruct resolved as [[[[start_dt end_dt] catalog] groups]|].
  - exists (iso_text start_dt), (iso_text end_dt), groups.
    specialize (Hg _ _ _ _ eq_refl). unfold fetch_groups, bind, ret.
    destruct (fetch_groups_spec c args start_dt end_dt groups groups ([], []) s1)
      as (new & Ht & Hp & Hok).
    destruct (fold_M _ groups _ s1) as [[tables|e] s2]; cbn [fst snd] in *.
    + exists new. rewrite Ht, Hres, <- app_assoc. split; [reflexivity|].
      split; [assumption|]. split; [assumption|].
      intros _. now destruct (Hok tables eq_refl) as [-> _].
    + exists new. rewrite Ht, Hres, <- app_assoc. split; [reflexivity|].
      split; [assumption|]. split; [assumption|intros []].
  - exists EmptyString, EmptyString, [], [].
    unfold fetch_groups, bind, on_heap, alloc. cbn [fst snd st_trace].
    split; [assumption|]. split; [split; constructor|].
    split; [apply prefix_nil|reflexivity].
Qed.
End CallProps.

(** ** The bulk requests of a plan *)

Lemma chunk_in {A} (l : list A) (size : Z) (chunks : list (list A)) (chunk : list A) :
  _chunk l size = Ok chunks -> In chunk chunks ->
  1 <= size /\ chunk <> [] /\ Z.of_nat (List.length chunk) <= size /\
  exists i : nat, chunk = take (Z.to_nat size) (drop (i * Z.to_nat size) l).
Proof.
  intros Hc Hin.
  assert (Hs : 1 <= size).
  { destruct (Z.le_gt_cases 1 size) as [?|Hlt]; [assumption|].
    rewrite (chunk_small_size l size chunks) in Hin by (lia || assumption).
    destruct Hin. }
  split; [assumption|].
  destruct (chunk_spec l size Hs) as (chunks' & Hc' & _ & Hall).
  rewrite Hc in Hc'. injection Hc' as <-.
  rewrite List.Forall_forall in Hall. destruct (Hall chunk Hin) as [Hlen Hmax].
  split; [intros ->; cbn in Hlen; lia|]. split; [assumption|].
  rewrite chunk_unfold in Hc by lia. injection Hc as <-.
  apply in_map_iff in Hin as (i & <- & _). now exists i.
Qed.

Lemma in_plan (c : client) (args : timeseries_args) (start_iso end_iso : string)
    (groups : list (string * list val)) (rq : request) :
  In rq (plan c args start_iso end_iso groups) ->
  exists interval ids unique chunks chunk,
    In (interval, ids) groups /\ unique_ids_of ids = Ok unique /\
    _chunk unique (chunk_size args) = Ok chunks /\ In chunk chunks /\
    rq = merged_request c args start_iso end_iso interval chunk.
Proof.
  unfold plan. intros Hin. apply in_flat_map in Hin as ([interval ids] & Hg & Hin).
  unfold interval_plan in Hin. cbn [fst snd] in Hin.
  destruct (unique_ids_of ids) as [unique|] eqn:Hu; [|destruct Hin].
  destruct (_chunk unique (chunk_size args)) as [chunks|] eqn:Hc; [|destruct Hin].
  apply in_map_iff in Hin as (chunk & <- & Hin).
  now exists interval, ids, unique, chunks, chunk.
Qed.

Lemma merged_payload_interval (args : timeseries_args) (interval : string)
    (chunk : list val) (start_iso end_iso : string) :
  payload_interval (merged_payload args interval chunk start_iso end_iso)
  = Some interval.
Proof. reflexivity. Qed.

Lemma merged_payload_markets (args : timeseries_args) (interval : string)
    (chunk : list val) (start_iso end_iso : string) :
  payload_markets (merged_payload args interval chunk start_iso end_iso)
  = map json_of_val chunk.
Proof. reflexivity. Qed.

Lemma merged_payload_blocks (args : timeseries_args) (interval : string)
    (chunk : list val) (start_iso end_iso : string) :
  payload_blocks (merged_payload args interval chunk start_iso end_iso)
  = map JStr (request_blocks args interval).
Proof. reflexivity. Qed.

Lemma catalog_payload_no_interval (assets horizons market_types : option (list string))
    (start_ts end_ts : option string) :
  payload_interval (catalog_payload assets horizons market_types start_ts end_ts)
  = None.
Proof.
  unfold catalog_payload, payload_interval, payload_field, list_field, str_field.
  destruct assets as [[|? ?]|], horizons as [[|? ?]|], market_types as [[|? ?]|],
    start_ts as [[|? ?]|], end_ts as [[|? ?]|]; reflexivity.
Qed.

(** What every request of a plan looks like, for groups as the grouping
    loop builds them. *)
Lemma plan_request (c : client) (args : timeseries_args) (start_iso end_iso : string)
    (groups : list (string * list val)) (rq : request) :
  groups_ok groups -> In rq (plan c args start_iso end_iso groups) ->
  exists interval chunk,
    rq = merged_request c args start_iso end_iso interval chunk /\
    In interval MAPPED_INTERVALS /\
    chunk <> [] /\ StronglySorted val_lt chunk /\
    Z.of_nat (List.length chunk) <= chunk_size args.
Proof.
  intros [_ Hall] Hin.
  apply in_plan in Hin as (interval & ids & unique & chunks & chunk
                           & Hg & Hu & Hc & Hin & ->).
  exists interval, chunk. split; [reflexivity|].
  rewrite List.Forall_forall in Hall. destruct (Hall _ Hg) as [Hi _].
  split; [assumption|].
  destruct (chunk_in _ _ _ _ Hc Hin) as (_ & Hne & Hlen & i & ->).
  split; [assumption|]. split; [|assumption].
  apply sorted_slice. now destruct (unique_ids_sorted _ _ Hu).
Qed.

Lemma mapped_interval_not_1d (interval : string) :
  In interval MAPPED_INTERVALS -> String.eqb interval "1d" = false.
Proof.
  unfold MAPPED_INTERVALS. cbn. intros [<-|[<-|[<-|[<-|[]]]]]; reflexivity.
Qed.

(** ** [fetch_timeseries]: the requests of a call *)

Section CallRequests.
Context {W : Type} `{Session W} `{DatetimeLib}.
Variables (c : client) (args : timeseries_args).

(** Every bulk request of a call is the request of the client for one
    chunk of sorted ids of one mapped interval. *)
Lemma call_bulk_requests (s : state W) :
  exists new,
    st_trace (snd (fetch_timeseries c args s)) = st_trace s ++ new /\
    Forall (fun rq =>
              req_endpoint rq = "api_v1_merged" ->
              exists start_iso end_iso interval chunk,
                rq = merged_request c args start_iso end_iso interval chunk /\
                In interval MAPPED_INTERVALS /\
                chunk <> [] /\ StronglySorted val_lt chunk /\
                Z.of_nat (List.length chunk) <= chunk_size args) new.
Proof.
  destruct (fetch_timeseries_trace c args s)
    as [[Ht _]|(si & ei & st & et & groups & bulk & Ht & Hg & Hp & _)].
  - exists []. rewrite app_nil_r. split; [assumption|constructor].
  - eexists. split; [exact Ht|]. constructor; [discriminate|].
    apply List.Forall_forall. intros rq Hin _.
    destruct Hp as [rest Hp].
    destruct (plan_request c args st et groups rq Hg) as (interval & chunk & Hrq);
      [rewrite Hp; apply in_or_app; now left|].
    now exists st, et, interval, chunk.
Qed.



(** X3: the [blocks] list of every request a call sends to the bulk
    endpoint is [probabilities] when probabilities are included, followed
    by [prices] when prices are included, and nothing else: the options
    metrics are never requested, whatever [include_options_metrics] is.
    The [prices] settings are in the body exactly when prices are
    included. *)
Theorem bulk_request_blocks (s : state W) :
  exists new,
    st_trace (snd (fetch_timeseries c args s)) = st_trace s ++ new /\
    Forall (fun rq =>
              req_endpoint rq = "api_v1_merged" ->
              payload_blocks (req_json rq)
              = map JStr ((if include_probabilities args
                           then ["probabilities"] else [])
                          ++ (if include_prices args then ["prices"] else [])) /\
              ~ In (JStr "options_metrics") (payload_blocks (req_json rq)) /\
              payload_field "prices" (req_json rq)
              = if include_prices args
                then Some (JObj [("instrument_type", JStr (prices_instrument args));
                                 ("include_open_interest",
                                  JBool (include_open_interest args))])
                else None) new.
Proof.
  destruct (call_bulk_requests s) as (new & Ht & Hall).
  exists new. split; [assumption|].
  eapply List.Forall_impl; [|exact Hall]. cbv beta.
  intros rq Hrq Hend.
  destruct (Hrq Hend) as (st & et & interval & chunk & -> & Hi & _).
  unfold merged_request, request_to. cbn [req_json].
  rewrite merged_payload_blocks. unfold request_blocks.
  rewrite (mapped_interval_not_1d interval Hi), andb_false_r, app_nil_r.
  split; [reflexivity|]. split.
  - destruct (include_probabilities args), (include_prices args); cbn;
      intuition discriminate.
  - unfold merged_payload, payload_field.
    destruct (include_prices args); reflexivity.
Qed.
End CallRequests.

(** ** [fetch_timeseries]: a call that returns *)

Lemma markets_sent_app (interval : string) (l l' : list request) :
  markets_sent interval (l ++ l') = markets_sent interval l ++ markets_sent interval l'.
Proof. unfold markets_sent. apply flat_map_app. Qed.

Lemma markets_sent_chunks (c : client) (args : timeseries_args)
    (start_iso end_iso interval interval' : string) (chunks : list (list val)) :
  markets_sent interval
    (map (merged_request c args start_iso end_iso interval') chunks)
  = if String.eqb interval' interval then map json_of_val (concat chunks) else [].
Proof.
  induction chunks as [|chunk chunks IH].
  - now destruct (String.eqb interval' interval).
  - cbn [map concat]. change (?x :: ?l) with ([x] ++ l).
    rewrite markets_sent_app, IH. unfold markets_sent at 1. cbn [flat_map].
    unfold merged_request, request_to. cbn [req_json].
    rewrite merged_payload_interval, merged_payload_markets.
    destruct (String.eqb interval' interval); [|reflexivity].
    now rewrite app_nil_r, map_app.
Qed.

Lemma markets_sent_plan (c : client) (args : timeseries_args)
    (start_iso end_iso interval : string) (groups : list (string * list val))
    (ids unique : list val) :
  List.NoDup (map fst groups) -> 1 <= chunk_size args ->
  dict_get interval groups = Some ids -> unique_ids_of ids = Ok unique ->
  markets_sent interval (plan c args start_iso end_iso groups)
  = map json_of_val unique.
Proof.
  intros Hnd Hsize Hget Hu. unfold plan.
  induction groups as [|[interval' ids'] groups IH]; [discriminate|].
  cbn [flat_map]. rewrite markets_sent_app.
  cbn [map fst] in Hnd. apply List.NoDup_cons_iff in Hnd as [Hfresh Hnd].
  cbn [dict_get] in Hget. unfold interval_plan at 1. cbn [fst snd].
  destruct (String.eqb_spec interval' interval) as [->|Hne].
  - injection Hget as ->. rewrite Hu.
    destruct (chunk_spec unique (chunk_size args) Hsize) as (chunks & Hc & Hcat & _).
    rewrite Hc, markets_sent_chunks, String.eqb_refl, Hcat.
    assert (Hrest : markets_sent interval
                      (flat_map (interval_plan c args start_iso end_iso) groups) = []).
    { clear IH Hnd. induction groups as [|[i' ids'] groups IH]; [reflexivity|].
      cbn [flat_map]. rewrite markets_sent_app, IH.
      2:{ intros Hin. apply Hfresh. now right. }
      unfold interval_plan. cbn [fst snd].
      assert (Hi : String.eqb i' interval = false).
      { apply String.eqb_neq. intros ->. apply Hfresh. now left. }
      destruct (unique_ids_of ids') as [u|]; [|reflexivity].
      destruct (_chunk u (chunk_size args)); [|reflexivity].
      now rewrite markets_sent_chunks, Hi. }
    now rewrite Hrest, app_nil_r.
  - rewrite (IH Hnd Hget).
    assert (Hhead : forall l, markets_sent interval
               (match unique_ids_of ids' with
                | Ok u => match _chunk u (chunk_size args) with
                          | Ok chunks =>
                              map (merged_request c args start_iso end_iso interval')
                                  chunks
                          | Raise _ => []
                          end
                | Raise _ => []
                end) ++ l = l).
    { intros l. destruct (unique_ids_of ids') as [u|]; [|reflexivity].
      destruct (_chunk u (chunk_size args)); [|reflexivity].
      rewrite markets_sent_chunks.
      now destruct (String.eqb_spec interval' interval). }
    apply Hhead.
Qed.

Section CallResult.
Context {W : Type} `{Session W} `{DatetimeLib}.
Variables (c : client) (args : timeseries_args).

Lemma fetch_timeseries_resolved (s s1 : state W)
    (resolved : option (datetime * datetime * val * list (string * list val))) :
  resolve_groups c args s = (Ok resolved, s1) ->
  fetch_timeseries c args s = fetch_groups c args resolved s1.
Proof.
  intros Hres. rewrite fetch_timeseries_phases. now apply bind_ok.
Qed.

(** A group whose iteration completes held ids that [sorted(set(...))]
    accepts. *)
Lemma fetch_interval_ok_ids (start_dt end_dt : datetime)
    (groups : list (string * list val))
    (acc acc' : list (string * val) * list (string * frame))
    (group : string * list val) (s s' : state W) :
  fetch_interval c args start_dt end_dt groups acc group s = (Ok acc', s') ->
  is_ok (unique_ids_of (snd group)).
Proof.
  destruct group as [interval ids]. unfold fetch_interval. rewrite pure_bind.
  fold (unique_ids_of ids). cbn [snd].
  destruct (unique_ids_of ids); [constructor|discriminate].
Qed.

Lemma fetch_groups_ok_ids (start_dt end_dt : datetime)
    (groups todo : list (string * list val))
    (acc acc' : list (string * val) * list (string * frame)) (s s' : state W) :
  fold_M (fetch_interval c args start_dt end_dt groups) todo acc s = (Ok acc', s') ->
  Forall (fun g => is_ok (unique_ids_of (snd g))) todo.
Proof.
  revert acc s. induction todo as [|group todo IH]; intros acc s; [constructor|].
  cbn [fold_M]. unfold bind.
  destruct (fetch_interval c args start_dt end_dt groups acc group s)
    as [[acc1|e] s1] eqn:Hstep; [|discriminate].
  intros Hrest. constructor; [|now apply (IH acc1 s1)].
  now apply fetch_interval_ok_ids in Hstep.
Qed.

Lemma resolved_groups_ok (s s1 : state W) (start_dt end_dt : datetime)
    (cat : val) (groups : list (string * list val)) :
  resolve_groups c args s = (Ok (Some (start_dt, end_dt, cat, groups)), s1) ->
  groups_ok groups /\
  exists start_iso end_iso,
    st_trace s1
    = st_trace s ++ [request_to c "api_v1_market_catalog"
                       (catalog_payload (Some [asset args]) (Some (horizons args))
                                        (market_types args) start_iso end_iso)].
Proof.
  intros Hres. pose proof (resolve_groups_spec c args s) as Hspec.
  cbv zeta in Hspec. rewrite Hres in Hspec. cbn [fst snd] in Hspec.
  destruct Hspec as [[_ Hno]|(si & ei & Ht & Hg)]; [now destruct Hno|].
  split; [now apply (Hg _ _ _ _ eq_refl)|]. now exists si, ei.
Qed.

(** X4: when a call returns, for a chunk size of at least one, the ids
    its bulk requests carried for an interval, taken in the order of the
    requests, are exactly the ids the catalog gave for the interval, sorted
    and without duplicates: no id is left out, none is sent twice. *)
Theorem returned_call_sent_all_ids (s s1 : state W) (start_dt end_dt : datetime)
    (cat : val) (groups : list (string * list val)) :
  resolve_groups c args s = (Ok (Some (start_dt, end_dt, cat, groups)), s1) ->
  is_ok (fst (fetch_timeseries c args s)) ->
  1 <= chunk_size args ->
  exists new,
    st_trace (snd (fetch_timeseries c args s)) = st_trace s ++ new /\
    forall interval ids,
      dict_get interval groups = Some ids ->
      exists unique,
        unique_ids_of ids = Ok unique /\
        markets_sent interval new = map json_of_val unique.
Proof.
  intros Hres Hok Hsize.
  destruct (resolved_groups_ok _ _ _ _ _ _ Hres) as [[Hnd Hall] (si & ei & Ht1)].
  rewrite (fetch_timeseries_resolved _ _ _ Hres) in *.
  unfold fetch_groups, bind, ret in *.
  destruct (fetch_groups_spec c args start_dt end_dt groups groups ([], []) s1)
    as (new & Ht & _ & Hnew).
  destruct (fold_M _ groups _ s1) as [[tables|e] s2] eqn:Hfold; cbn [fst snd] in *;
    [|destruct Hok].
  destruct (Hnew tables eq_refl) as [-> _].
  eexists. rewrite Ht, Ht1, <- app_assoc. split; [reflexivity|].
  intros interval ids Hget.
  apply fetch_groups_ok_ids in Hfold. rewrite List.Forall_forall in Hfold.
  specialize (Hfold _ (dict_get_in _ _ _ Hget)). cbn [snd] in Hfold.
  destruct (unique_ids_of ids) as [unique|] eqn:Hu; [|destruct Hfold].
  exists unique. split; [reflexivity|].
  rewrite markets_sent_app.
  rewrite (markets_sent_plan _ _ _ _ _ _ _ _ Hnd Hsize Hget Hu).
  unfold markets_sent. cbn [flat_map]. unfold request_to. cbn [req_json].
  now rewrite catalog_payload_no_interval.
Qed.

(** X5: the result of a call that found markets holds the catalog as it
    was received, one response per interval of the catalog, and tables of
    known blocks only: a table is filed under the name of its block when
    the catalog gave exactly one interval, and under
    [<block>_<interval>] otherwise. *)
Theorem returned_call_tables (s s1 : state W) (start_dt end_dt : datetime)
    (cat : val) (groups : list (string * list val)) (r : TimeseriesResult) :
  resolve_groups c args s = (Ok (Some (start_dt, end_dt, cat, groups)), s1) ->
  fst (fetch_timeseries c args s) = Ok r ->
  catalog r = cat /\
  (forall k, In k (map fst (responses r)) <-> In k (map fst groups)) /\
  forall key, In key (map fst (dataframes r)) ->
    exists block interval,
      In block KNOWN_BLOCKS /\ In interval (map fst groups) /\
      key = if (List.length groups =? 1)%nat then block
            else block +:+ "_" +:+ interval.
Proof.
  intros Hres Hr.
  destruct (resolved_groups_ok _ _ _ _ _ _ Hres) as [[Hnd Hall] _].
  rewrite (fetch_timeseries_resolved _ _ _ Hres) in Hr.
  unfold fetch_groups, bind, ret in Hr.
  destruct (fetch_groups_spec c args start_dt end_dt groups groups ([], []) s1)
    as (new & _ & _ & Hnew).
  destruct (fold_M _ groups _ s1) as [[tables|e] s2]; cbn [fst snd] in *;
    [|discriminate].
  injection Hr as <-. cbn [catalog responses dataframes].
  destruct (Hnew tables eq_refl) as (_ & Hr1 & _ & Hr2 & Hd & _).
  split; [reflexivity|]. split.
  - intros k. split.
    + intros Hin. destruct (Hr1 k Hin) as [[]|?]. assumption.
    + intros Hin. apply in_map_iff in Hin as (g & <- & Hg).
      apply Hr2; [assumption|].
      rewrite List.Forall_forall in Hall. now destruct (Hall g Hg).
  - intros key Hin. destruct (Hd key Hin) as [[]|(block & interval & Hb & Hi & ->)].
    now exists block, interval.
Qed.

(** X6: with a chunk size below one a call never returns data: if it
    returns at all, the catalog request is the only request it has sent and
    its result holds no table. *)
Theorem small_chunk_size_no_data (s : state W) (r : TimeseriesResult) :
  chunk_size args < 1 ->
  fst (fetch_timeseries c args s) = Ok r ->
  dataframes r = [] /\
  exists catalog_rq,
    st_trace (snd (fetch_timeseries c args s)) = st_trace s ++ [catalog_rq] /\
    req_endpoint catalog_rq = "api_v1_market_catalog".
Proof.
  intros Hsize Hr. split.
  - destruct (resolve_groups c args s) as [[resolved|e] s1] eqn:Hres.
    2:{ rewrite fetch_timeseries_phases in Hr. unfold bind in Hr.
        now rewrite Hres in Hr. }
    rewrite (fetch_timeseries_resolved _ _ _ Hres) in Hr.
    destruct resolved as [[[[start_dt end_dt] cat] groups]|].
    + unfold fetch_groups, bind, ret in Hr.
      destruct (fetch_groups_spec c args start_dt end_dt groups groups ([], []) s1)
        as (new & _ & _ & Hnew).
      destruct (fold_M _ groups _ s1) as [[tables|e] s2]; cbn [fst snd] in *;
        [|discriminate].
      injection Hr as <-. cbn [dataframes].
      destruct (Hnew tables eq_refl) as (_ & _ & _ & _ & _ & Hz). now apply Hz.
    + unfold fetch_groups, bind, on_heap, alloc, ret in Hr. cbn in Hr.
      now injection Hr as <-.
  - destruct (fetch_timeseries_trace c args s)
      as [[_ Hno]|(si & ei & st & et & groups & bulk & Ht & Hg & _ & Hbulk)].
    { rewrite Hr in Hno. now destruct Hno. }
    rewrite Hr in Hbulk. specialize (Hbulk I).
    assert (Hnil : bulk = []).
    { destruct bulk as [|rq bulk]; [reflexivity|].
      destruct (plan_request c args st et groups rq Hg)
        as (interval & chunk & _ & _ & Hne & _ & Hlen);
        [rewrite <- Hbulk; now left|].
      destruct chunk; [contradiction|]. cbn [List.length] in Hlen. lia. }
    rewrite Hnil in Ht. eexists. split; [exact Ht|reflexivity].
Qed.
End CallResult.

Lemma returned_call_sent_all_ids_witness :
  exists new,
    st_trace (snd (fetch_timeseries sample_client (sample_call 10)
                                    (mk_state [] sample_script [])))
    = [] ++ new /\
    forall interval ids,
      dict_get interval [("5m", [VStr "m2"; VStr "m1"; VStr "m2"]);
                         ("30m", [VStr "w1"])] = Some ids ->
      exists unique,
        unique_ids_of ids = Ok unique /\
        markets_sent interval new = map json_of_val unique.
Proof.
  eapply (returned_call_sent_all_ids sample_client (sample_call 10)
            (mk_state [] sample_script [])).
  - vm_compute. reflexivity.
  - vm_compute. exact I.
  - vm_compute. discriminate.
Defined.

Lemma returned_call_tables_witness :
  let r := {| catalog := VRef 4;
              responses := [("5m", VRef 11); ("30m", VRef 17)];
              dataframes := [("probabilities_5m", DataFrame (VRef 9));
                             ("probabilities_30m", DataFrame (VRef 15))] |} in
  catalog r = VRef 4 /\
  (forall k, In k (map fst (responses r)) <-> In k ["5m"; "30m"]) /\
  forall key, In key (map fst (dataframes r)) ->
    exists block interval,
      In block KNOWN_BLOCKS /\ In interval ["5m"; "30m"] /\
      key = block +:+ "_" +:+ interval.
Proof.
  apply (returned_call_tables sample_client (sample_call 10)
           (mk_state [] sample_script [])
           (snd (resolve_groups sample_client (sample_call 10)
                   (mk_state [] sample_script [])))
           (mk_datetime 2024 1 1 6 0 0 0 (Some 0))
           (mk_datetime 2024 1 1 12 0 0 0 (Some 0))
           (VRef 4)
           [("5m", [VStr "m2"; VStr "m1"; VStr "m2"]); ("30m", [VStr "w1"])]).
  - vm_compute. reflexivity.
  - vm_compute. reflexivity.
Defined.

Lemma small_chunk_size_no_data_witness :
  dataframes {| catalog := VRef 4; responses := [("5m", VRef 6); ("30m", VRef 7)];
                dataframes := [] |} = [] /\
  exists catalog_rq,
    st_trace (snd (fetch_timeseries sample_client (sample_call (-1))
                                    (mk_state [] sample_script [])))
    = [] ++ [catalog_rq] /\
    req_endpoint catalog_rq = "api_v1_market_catalog".
Proof.
  apply (small_chunk_size_no_data sample_client (sample_call (-1))
           (mk_state [] sample_script [])).
  - vm_compute. reflexivity.
  - vm_compute. reflexivity.
Defined.

(** ** The address of a request *)

(** [n] times the character [c]. *)
Lemma rstrip_split (c : ascii) (s : string) :
  exists k : nat, s = rstrip c s +:+ string_of_list_ascii (repeat c k).
Proof.
  induction s as [|a rest [k IH]]; [now exists 0%nat|].
  cbn [rstrip]. destruct (rstrip c rest) as [|b r] eqn:Hr.
  - cbn in IH. destruct (Ascii.eqb_spec a c) as [->|Hne].
    + exists (S k). cbn. now rewrite <- IH.
    + exists k. cbn. now rewrite <- IH.
  - exists k. cbn. cbn in IH. now rewrite <- IH.
Qed.

Lemma rstrip_no_trail (c : ascii) (s p : string) :
  rstrip c s <> p +:+ String c EmptyString.
Proof.
  revert p. induction s as [|a rest IH]; intros p; cbn [rstrip].
  - now destruct p.
  - destruct (rstrip c rest) as [|b r] eqn:Hr.
    + destruct (Ascii.eqb_spec a c) as [->|Hne]; [now destruct p|].
      destruct p as [|x [|y p]]; cbn; congruence.
    + destruct p as [|x p]; cbn; [congruence|].
      intros [= -> Heq]. now apply (IH p).
Qed.

Lemma lstrip_split (c : ascii) (s : string) :
  exists k : nat, s = string_of_list_ascii (repeat c k) +:+ lstrip c s.
Proof.
  induction s as [|a rest [k IH]]; [now exists 0%nat|].
  cbn [lstrip]. destruct (Ascii.eqb_spec a c) as [->|Hne].
  - exists (S k). cbn. now rewrite <- IH.
  - now exists 0%nat.
Qed.

Lemma lstrip_no_lead (c : ascii) (s p : string) : lstrip c s <> String c p.
Proof.
  induction s as [|a rest IH]; cbn [lstrip]; [discriminate|].
  destruct (Ascii.eqb_spec a c) as [->|Hne]; [assumption|congruence].
Qed.

Section PostMore.
Context {W : Type} `{Session W}.

(** X7: a client is built for a non-empty API key only.  Whatever the
    outcome, a POST of a client so built sends exactly one request; its
    address is the base URL without its trailing slashes, one slash, and
    the endpoint without its leading slashes, and it carries the payload
    and the timeout of the client. *)
Theorem post_address (api_key base endpoint : string) (tmo : Z) (c : client)
    (payload : json) (s : state W) :
  PolybridgeClient api_key base tmo = Ok c ->
  api_key <> EmptyString /\
  exists (j k : nat) (b e : string),
    base = b +:+ string_of_list_ascii (repeat "/"%char j) /\
    endpoint = string_of_list_ascii (repeat "/"%char k) +:+ e /\
    (forall p, b <> p +:+ "/") /\ (forall p, e <> String "/"%char p) /\
    st_trace (snd (_post c endpoint payload s))
    = st_trace s ++ [{| req_endpoint := endpoint;
                        req_url := b +:+ "/" +:+ e;
                        req_json := payload; req_timeout := tmo |}].
Proof.
  unfold PolybridgeClient.
  destruct (String.eqb_spec api_key EmptyString) as [|Hkey]; [discriminate|].
  intros [= <-]. split; [assumption|].
  destruct (rstrip_split "/" base) as [j Hj].
  destruct (lstrip_split "/" endpoint) as [k Hk].
  exists j, k, (rstrip "/" base), (lstrip "/" endpoint).
  split; [assumption|]. split; [assumption|].
  split; [intros p; apply rstrip_no_trail|].
  split; [intros p; apply lstrip_no_lead|].
  apply post_trace.
Qed.

(** X8: when the response has an error status (400 to 599), [_post] raises
    [HTTPError] and returns no body, whatever the body says; the store is
    untouched.  The message is the status line of [raise_for_status],
    [ | ], and a detail: the code and the message of the error object of a
    JSON body; the first 500 characters of the text when the body is not
    JSON or is a JSON object without an [error] entry. *)
Theorem post_http_error (c : client) (endpoint : string) (payload : json)
    (s : state W) (r : http_response) (w : W) :
  session_post (base_url c +:+ "/" +:+ lstrip "/" endpoint) payload (timeout c)
               (st_world s) = (Ok r, w) ->
  400 <= status_code r < 600 ->
  exists status_line detail,
    _post c endpoint payload s
    = (Raise (HTTPError (status_line +:+ " | " +:+ detail)),
       mk_state (st_heap s) w (st_trace s ++ [request_to c endpoint payload])) /\
    raise_for_status r = Raise (HTTPError status_line) /\
    (json_body r = None -> detail = str_take 500 (text r)) /\
    (forall d, json_body r = Some (JObj d) -> dict_get "error" d = None ->
               detail = str_take 500 (text r)) /\
    (forall d e code msg,
       json_body r = Some (JObj d) -> dict_get "error" d = Some (JObj e) ->
       dict_get "code" e = Some (JStr code) ->
       dict_get "message" e = Some (JStr msg) -> dict_get "detail" e = None ->
       detail = "Code: " +:+ code +:+ ", Message: " +:+ msg).
Proof.
  intros Hpost Hcode.
  assert (Hstatus : exists status_line,
             raise_for_status r = Raise (HTTPError status_line)).
  { unfold raise_for_status.
    destruct (Z.leb_spec 400 (status_code r)); [|lia].
    destruct (Z.ltb_spec (status_code r) 500); cbn [andb]; [eauto|].
    destruct (Z.leb_spec 500 (status_code r)); [|lia].
    destruct (Z.ltb_spec (status_code r) 600); cbn [andb]; [eauto|lia]. }
  destruct Hstatus as [status_line Hstatus].
  exists status_line,
    (if String.eqb (error_detail r) EmptyString
     then str_take 500 (text r) else error_detail r).
  split; [|split; [assumption|]].
  - unfold _post, bind, send. cbn [req_url req_json req_timeout].
    rewrite Hpost. unfold pure, check_response. rewrite Hstatus. reflexivity.
  - split; [|split].
    + intros Hb. unfold error_detail. rewrite Hb.
      now destruct (String.eqb _ _).
    + intros d Hb He. unfold error_detail. rewrite Hb.
      unfold error_detail_of, json_contains, dict_has. rewrite He.
      reflexivity.
    + intros d e code msg Hb He Hc Hm Hd. unfold error_detail. rewrite Hb.
      unfold error_detail_of, json_contains, json_getitem, dict_has, get_default.
      rewrite He. cbn [rbind]. rewrite Hc, Hm, Hd. cbn [py_str].
      now rewrite append_nil_r.
Qed.

(** X9: a body that [_post] returns was received with a status outside
    400 to 599, decodes as JSON and holds no [error] entry; it is returned
    loaded into the store, and nothing else has changed there. *)
Theorem post_returns_clean_body (c : client) (endpoint : string) (payload : json)
    (s s' : state W) (v : val) :
  _post c endpoint payload s = (Ok v, s') ->
  exists r data,
    session_post (base_url c +:+ "/" +:+ lstrip "/" endpoint) payload (timeout c)
                 (st_world s) = (Ok r, st_world s') /\
    ~ 400 <= status_code r < 600 /\
    json_body r = Some data /\
    json_contains "error" data = Ok false /\
    load data (st_heap s) = (v, st_heap s').
Proof.
  unfold _post, bind, send. cbn [req_url req_json req_timeout].
  destruct (session_post _ _ _ _) as [[r|e] w]; [|discriminate].
  unfold pure. destruct (check_response r) as [data|e] eqn:Hcheck; [|discriminate].
  unfold on_heap. cbn [st_heap st_world st_trace].
  destruct (load data (st_heap s)) as [v' h'] eqn:Hload.
  intros [= <- <-]. exists r, data. cbn [st_world st_heap].
  unfold check_response in Hcheck.
  destruct (raise_for_status r) as [[]|e] eqn:Hstatus.
  2:{ now destruct e. }
  split; [reflexivity|]. split.
  { intros Hcode. unfold raise_for_status in Hstatus.
    destruct (Z.leb_spec 400 (status_code r)); [|lia].
    destruct (Z.ltb_spec (status_code r) 500); cbn [andb] in Hstatus;
      [discriminate|].
    destruct (Z.leb_spec 500 (status_code r)); [|lia].
    destruct (Z.ltb_spec (status_code r) 600); cbn [andb] in Hstatus;
      [discriminate|lia]. }
  destruct (json_body r) as [data'|]; [|discriminate].
  destruct (json_contains "error" data') as [[|]|] eqn:Hc; cbn [rbind] in Hcheck.
  - destruct (json_getitem data' "error"); discriminate.
  - injection Hcheck as ->. auto.
  - discriminate.
Qed.
End PostMore.
Lemma post_address_witness :
  "key" <> EmptyString /\
  exists (j k : nat) (b e : string),
    "https://api.example//" = b +:+ string_of_list_ascii (repeat "/"%char j) /\
    "//api_v1_merged" = string_of_list_ascii (repeat "/"%char k) +:+ e /\
    (forall p, b <> p +:+ "/") /\ (forall p, e <> String "/"%char p) /\
    st_trace (snd (_post sample_client "//api_v1_merged" (JObj [])
                         (mk_state [] [http_ok (JObj [])] [])))
    = [] ++ [{| req_endpoint := "//api_v1_merged";
                req_url := b +:+ "/" +:+ e;
                req_json := JObj []; req_timeout := 60 |}].
Proof.
  apply (post_address "key" "https://api.example//" "//api_v1_merged" 60
                      sample_client (JObj [])
                      (mk_state [] [http_ok (JObj [])] [])).
  reflexivity.
Defined.

Lemma post_http_error_witness :
  exists status_line detail,
    _post sample_client "api_v1_merged" (JObj [])
          (mk_state [] [http_status 503 "Service Unavailable"] [])
    = (Raise (HTTPError (status_line +:+ " | " +:+ detail)),
       mk_state [] [] ([] ++ [request_to sample_client "api_v1_merged" (JObj [])])) /\
    raise_for_status {| status_code := 503; reason := "Service Unavailable";
                        url := "https://api.example";
                        text := "Service Unavailable"; json_body := None |}
    = Raise (HTTPError status_line) /\
    (@None json = None -> detail = str_take 500 "Service Unavailable") /\
    (forall d, None = Some (JObj d) -> dict_get "error" d = None ->
               detail = str_take 500 "Service Unavailable") /\
    (forall d e code msg,
       None = Some (JObj d) -> dict_get "error" d = Some (JObj e) ->
       dict_get "code" e = Some (JStr code) ->
       dict_get "message" e = Some (JStr msg) -> dict_get "detail" e = None ->
       detail = "Code: " +:+ code +:+ ", Message: " +:+ msg).
Proof.
  apply (post_http_error sample_client "api_v1_merged" (JObj [])
           (mk_state [] [http_status 503 "Service Unavailable"] [])
           {| status_code := 503; reason := "Service Unavailable";
              url := "https://api.example";
              text := "Service Unavailable"; json_body := None |} []).
  - reflexivity.
  - cbn. lia.
Defined.

Lemma post_returns_clean_body_witness :
  exists r data,
    session_post "https://api.example/api_v1_merged" (JObj []) 60
                 [http_ok (JObj [("meta", JStr "m")])]
    = (Ok r, []) /\
    ~ 400 <= status_code r < 600 /\
    json_body r = Some data /\
    json_contains "error" data = Ok false /\
    load data [] = (VRef 0, [ODict [("meta", VStr "m")]]).
Proof.
  apply (post_returns_clean_body sample_client "api_v1_merged" (JObj [])
           (mk_state [] [http_ok (JObj [("meta", JStr "m")])] [])
           (mk_state [ODict [("meta", VStr "m")]] []
                     [request_to sample_client "api_v1_merged" (JObj [])])
           (VRef 0)).
  reflexivity.
Defined.

(** ** The calendar: ordinals and dates *)

Lemma days_before_year_split (a b c d : Z) :
  0 <= a -> 0 <= b <= 3 -> 0 <= c <= 24 -> 0 <= d <= 3 ->
  days_before_year (400 * a + 100 * b + 4 * c + d + 1)
  = 146097 * a + 36524 * b + 1461 * c + 365 * d.
Proof.
  intros Ha Hb Hc Hd. unfold days_before_year.
  set (p := 400 * a + 100 * b + 4 * c + d + 1 - 1).
  assert (Hp : p = 400 * a + 100 * b + 4 * c + d) by (subst p; lia).
  clearbody p.
  pose proof (Z.div_mod p 4 ltac:(lia)).
  pose proof (Z.mod_pos_bound p 4 ltac:(lia)).
  pose proof (Z.div_mod p 100 ltac:(lia)).
  pose proof (Z.mod_pos_bound p 100 ltac:(lia)).
  pose proof (Z.div_mod p 400 ltac:(lia)).
  pose proof (Z.mod_pos_bound p 400 ltac:(lia)).
  lia.
Qed.

Lemma is_leap_split (a b c d : Z) :
  0 <= a -> 0 <= b <= 3 -> 0 <= c <= 24 -> 0 <= d <= 3 ->
  is_leap (400 * a + 100 * b + 4 * c + d + 1)
  = (d =? 3) && (negb (c =? 24) || (b =? 3)).
Proof.
  intros Ha Hb Hc Hd. unfold is_leap.
  set (y := 400 * a + 100 * b + 4 * c + d + 1).
  assert (Hy : y = 400 * a + 100 * b + 4 * c + d + 1) by reflexivity.
  clearbody y.
  pose proof (Z.div_mod y 4 ltac:(lia)).
  pose proof (Z.mod_pos_bound y 4 ltac:(lia)).
  pose proof (Z.div_mod y 100 ltac:(lia)).
  pose proof (Z.mod_pos_bound y 100 ltac:(lia)).
  pose proof (Z.div_mod y 400 ltac:(lia)).
  pose proof (Z.mod_pos_bound y 400 ltac:(lia)).
  destruct (Z.eqb_spec (y mod 4) 0), (Z.eqb_spec (y mod 100) 0),
    (Z.eqb_spec (y mod 400) 0), (Z.eqb_spec d 3), (Z.eqb_spec c 24),
    (Z.eqb_spec b 3); cbn; try reflexivity; exfalso; lia.
Qed.

(** The ordinal of the date of an ordinal is that ordinal. *)
Lemma ymd2ord_ord2ymd (o : Z) :
  1 <= o <= MAXORDINAL ->
  let '(y, m, d) := ord2ymd o in ymd2ord y m d = o.
Proof.
  unfold MAXORDINAL. intros Ho. unfold ord2ymd.
  set (n0 := o - 1).
  set (n400 := n0 / 146097). set (r400 := n0 mod 146097).
  set (n100 := r400 / 36524). set (r100 := r400 mod 36524).
  set (n4 := r100 / 1461). set (r4 := r100 mod 1461).
  set (n1 := r4 / 365). set (n := r4 mod 365).
  assert (H0 : 0 <= n0 <= 3652058 /\ o = n0 + 1) by (subst n0; lia).
  assert (H400 : 0 <= n400 <= 24 /\ 0 <= r400 < 146097 /\ n0 = 146097 * n400 + r400).
  { subst n400 r400. pose proof (Z.div_mod n0 146097 ltac:(lia)).
    pose proof (Z.mod_pos_bound n0 146097 ltac:(lia)). lia. }
  assert (H100 : 0 <= n100 <= 4 /\ 0 <= r100 < 36524 /\ r400 = 36524 * n100 + r100).
  { subst n100 r100. pose proof (Z.div_mod r400 36524 ltac:(lia)).
    pose proof (Z.mod_pos_bound r400 36524 ltac:(lia)). lia. }
  assert (H4 : 0 <= n4 <= 24 /\ 0 <= r4 < 1461 /\ r100 = 1461 * n4 + r4).
  { subst n4 r4. pose proof (Z.div_mod r100 1461 ltac:(lia)).
    pose proof (Z.mod_pos_bound r100 1461 ltac:(lia)). lia. }
  assert (H1 : 0 <= n1 <= 4 /\ 0 <= n < 365 /\ r4 = 365 * n1 + n).
  { subst n1 n. pose proof (Z.div_mod r4 365 ltac:(lia)).
    pose proof (Z.mod_pos_bound r4 365 ltac:(lia)). lia. }
  clearbody n0 n400 r400 n100 r100 n4 r4 n1 n.
  unfold ymd2ord, days_before_month.
  destruct (Z.eqb_spec n1 4) as [E1|E1]; cbn [orb].
  { replace (n400 * 400 + 1 + n100 * 100 + n4 * 4 + n1 - 1)
      with (400 * n400 + 100 * n100 + 4 * n4 + 3 + 1) by lia.
    rewrite days_before_year_split, is_leap_split by lia.
    change (DAYS_BEFORE_MONTH 12) with 334. change (2 <? 12) with true.
    change (3 =? 3) with true.
    destruct (Z.eqb_spec n4 24), (Z.eqb_spec n100 3); cbn [andb orb negb]; lia. }
  destruct (Z.eqb_spec n100 4) as [E100|E100]; cbn [orb].
  { replace (n400 * 400 + 1 + n100 * 100 + n4 * 4 + n1 - 1)
      with (400 * n400 + 100 * 3 + 4 * 24 + 3 + 1) by lia.
    rewrite days_before_year_split, is_leap_split by lia.
    change (DAYS_BEFORE_MONTH 12) with 334. change (2 <? 12) with true.
    change (3 =? 3) with true. change (24 =? 24) with true.
    cbn [andb orb negb]. lia. }
  set (m := Z.shiftr (n + 50) 5).
  assert (Hm : 1 <= m <= 12 /\ 32 * m <= n + 50 < 32 * m + 32).
  { subst m. rewrite Z.shiftr_div_pow2 by lia. change (2 ^ 5) with 32.
    pose proof (Z.div_mod (n + 50) 32 ltac:(lia)).
    pose proof (Z.mod_pos_bound (n + 50) 32 ltac:(lia)). lia. }
  clearbody m.
  replace (n400 * 400 + 1 + n100 * 100 + n4 * 4 + n1)
    with (400 * n400 + 100 * n100 + 4 * n4 + n1 + 1) by lia.
  set (y := 400 * n400 + 100 * n100 + 4 * n4 + n1 + 1).
  assert (Hdy : days_before_year y
                = 146097 * n400 + 36524 * n100 + 1461 * n4 + 365 * n1)
    by (apply days_before_year_split; lia).
  assert (Hleap : is_leap y = (n1 =? 3) && (negb (n4 =? 24) || (n100 =? 3)))
    by (apply is_leap_split; lia).
  clearbody y.
  set (leap := (n1 =? 3) && (negb (n4 =? 24) || (n100 =? 3))) in *.
  clearbody leap.
  destruct (DAYS_BEFORE_MONTH_cases m ltac:(lia)) as
    [[-> Hb]|[[-> Hb]|[[-> Hb]|[[-> Hb]|[[-> Hb]|[[-> Hb]|[[-> Hb]|[[-> Hb]|[[-> Hb]|[[-> Hb]|[[-> Hb]|[-> Hb]]]]]]]]]]]];
    rewrite Hb; unfold DAYS_IN_MONTH; clear Hb; destruct leap;
    repeat match goal with
           | |- context [?a <? ?b] => destruct (Z.ltb_spec a b)
           | |- context [?a =? ?b] => destruct (Z.eqb_spec a b)
           end;
    repeat match goal with
           | |- context [Z.to_nat ?z] =>
               let v := eval vm_compute in (Z.to_nat z) in
               change (Z.to_nat z) with v
           end;
    cbn [andb nth] in *; rewrite ?Hdy, ?Hleap;
    unfold DAYS_BEFORE_MONTH;
    repeat match goal with
           | |- context [Z.to_nat ?z] =>
               let v := eval vm_compute in (Z.to_nat z) in
               change (Z.to_nat z) with v
           end;
    cbn [nth andb]; try lia.
Qed.

(** ** Instants *)

(** Adding a duration moves the wall clock by that duration and keeps the
    time zone. *)
Lemma wall_us_datetime_add (dt u : datetime) (delta : Z) :
  datetime_add dt delta = Ok u ->
  wall_us u = wall_us dt + delta /\ tzinfo u = tzinfo dt.
Proof.
  unfold datetime_add.
  set (total := wall_us dt + delta).
  destruct (Z.ltb_spec 0 (total / US_PER_DAY)); [|discriminate].
  destruct (Z.leb_spec (total / US_PER_DAY) MAXORDINAL); [|discriminate].
  cbn [andb].
  pose proof (ymd2ord_ord2ymd (total / US_PER_DAY) ltac:(lia)) as Hr.
  destruct (ord2ymd (total / US_PER_DAY)) as [[y m] d].
  intros [= <-]. split; [|reflexivity].
  unfold wall_us at 1. cbn [year month day hour minute second microsecond].
  rewrite Hr. clear Hr. clearbody total.
  unfold US_PER_DAY, US_PER_SECOND in *.
  pose proof (Z.div_mod total (86400 * 1000000) ltac:(lia)).
  pose proof (Z.mod_pos_bound total (86400 * 1000000) ltac:(lia)).
  set (days := total / (86400 * 1000000)) in *.
  set (rest := total mod (86400 * 1000000)) in *. clearbody days rest.
  pose proof (Z.div_mod rest 1000000 ltac:(lia)).
  pose proof (Z.mod_pos_bound rest 1000000 ltac:(lia)).
  set (secs := rest / 1000000) in *.
  set (us := rest mod 1000000) in *. clearbody secs us.
  pose proof (Z.div_mod secs 3600 ltac:(lia)).
  pose proof (Z.mod_pos_bound secs 3600 ltac:(lia)).
  set (hh := secs / 3600) in *.
  set (rs := secs mod 3600) in *. clearbody hh rs.
  pose proof (Z.div_mod rs 60 ltac:(lia)).
  pose proof (Z.mod_pos_bound rs 60 ltac:(lia)).
  assert (Hs : secs mod 60 = rs mod 60).
  { subst secs. replace (3600 * hh + rs) with (rs + (60 * hh) * 60) by lia.
    apply Z.mod_add. lia. }
  rewrite Hs. lia.
Qed.

Section Instants.
Context `{DatetimeLib}.

(** The conversion to UTC keeps the instant. *)
Lemma astimezone_utc_instant (dt utc : datetime) :
  astimezone_utc dt = Ok utc ->
  tzinfo utc = Some 0 /\ wall_us utc = instant_at (local_utcoffset dt) dt.
Proof.
  unfold astimezone_utc, instant_at.
  destruct (datetime_add dt _) as [u|] eqn:Hadd; [|discriminate].
  intros [= <-]. apply wall_us_datetime_add in Hadd as [Hw _].
  split; [reflexivity|]. unfold replace_tzinfo, wall_us in *.
  cbn [year month day hour minute second microsecond]. lia.
Qed.

(** X10: [_to_iso] renders the instant, not the representation: two
    datetimes that denote the same instant, in whatever time zones, give
    the same outcome, text or error. *)
Theorem to_iso_same_instant (a b : datetime) :
  instant_at (local_utcoffset a) a = instant_at (local_utcoffset b) b ->
  _to_iso a = _to_iso b.
Proof.
  unfold instant_at, _to_iso, astimezone_utc, datetime_add. intros Heq.
  set (oa := match tzinfo a with Some o => o | None => local_utcoffset a end) in *.
  set (ob := match tzinfo b with Some o => o | None => local_utcoffset b end) in *.
  replace (wall_us a + - oa) with (wall_us b + - ob) by lia.
  destruct ((0 <? _) && _); [|reflexivity].
  destruct (ord2ymd _) as [[y m] d]. reflexivity.
Qed.

(** X11: a timestamp given as text is parsed after its [Z] has been
    replaced by [+00:00]; the value returned is in UTC and denotes the
    instant of the parsed value, a parsed value without a zone being read as
    UTC and not as local time.  The fallback plays no part. *)
Theorem ensure_datetime_instant (value : string) (fallback d : datetime) :
  _ensure_datetime (Some value) fallback = Ok d ->
  exists parsed,
    fromisoformat (str_replace "Z" "+00:00" value) = Ok parsed /\
    tzinfo d = Some 0 /\
    wall_us d = instant_at 0 parsed.
Proof.
  unfold _ensure_datetime.
  destruct (fromisoformat _) as [parsed|]; [|discriminate]. cbn [rbind].
  intros Hutc. exists parsed. split; [reflexivity|].
  destruct (tzinfo parsed) as [o|] eqn:Htz;
    apply astimezone_utc_instant in Hutc as [Hd Hw]; (split; [assumption|]);
    rewrite Hw; unfold instant_at.
  - now rewrite Htz.
  - rewrite Htz. reflexivity.
Qed.
End Instants.

Lemma to_iso_same_instant_witness :
  instant_at 0 sample_datetime = instant_at 0 sample_datetime_utc /\
  _to_iso sample_datetime = _to_iso sample_datetime_utc.
Proof.
  split; [reflexivity|].
  apply (to_iso_same_instant sample_datetime sample_datetime_utc). reflexivity.
Defined.

Lemma ensure_datetime_instant_witness :
  exists parsed,
    fromisoformat (str_replace "Z" "+00:00" "2024-01-01T12:00:00Z") = Ok parsed /\
    tzinfo (mk_datetime 2024 1 1 12 0 0 0 (Some 0)) = Some 0 /\
    wall_us (mk_datetime 2024 1 1 12 0 0 0 (Some 0)) = instant_at 0 parsed.
Proof.
  apply (ensure_datetime_instant "2024-01-01T12:00:00Z" sample_datetime
                                 (mk_datetime 2024 1 1 12 0 0 0 (Some 0))).
  vm_compute. reflexivity.
Defined.

(** ** The time window of a call *)

Section Window.
Context {W : Type} `{Session W} `{DatetimeLib}.
Variables (c : client) (args : timeseries_args).


Lemma resolve_groups_window (s s1 : state W) (start_dt end_dt : datetime)
    (cat : val) (groups : list (string * list val)) :
  resolve_groups c args s = (Ok (Some (start_dt, end_dt, cat, groups)), s1) ->
  fst (time_window args s) = Ok (start_dt, end_dt).
Proof.
  unfold resolve_groups. destruct (horizons args); [discriminate|].
  unfold bind at 1. pose proof (time_window_state args s) as Hs.
  destruct (time_window args s) as [[[sd ed]|e] sw]; [|discriminate].
  cbn [fst snd] in *. subst sw.
  unfold bind at 1.
  destruct (catalog_request c args sd ed s) as [[response|e] s2]; [|discriminate].
  unfold bind at 1.
  destruct (on_heap _ s2) as [[markets|e] s3]; [|discriminate].
  unfold bind at 1.
  destruct (match markets with Some v => ret v | None => _ end s3)
    as [[catalog|e] s4]; [|discriminate].
  unfold bind at 1.
  destruct (on_heap _ s4) as [[[|]|e] s5]; cbn [negb]; try discriminate.
  unfold bind.
  destruct (on_heap (group_markets catalog) s5) as [[g|e] s6]; [|discriminate].
  now intros [= <- <- _ _ _].
Qed.

(** Nothing is sent for a chunk when a bound of the window cannot be
    rendered. *)
Lemma fetch_chunks_no_text (start_dt end_dt : datetime) (interval : string)
    (chunks : list (list val)) (aggregated : val) (s : state W) :
  ~ (is_ok (_to_iso start_dt) /\ is_ok (_to_iso end_dt)) ->
  st_trace (snd (fold_M (fetch_chunk c args start_dt end_dt interval)
                        chunks aggregated s)) = st_trace s.
Proof.
  intros Hno. destruct chunks as [|chunk chunks]; [reflexivity|].
  cbn [fold_M]. unfold bind at 1, fetch_chunk at 1. rewrite pure_bind.
  destruct (_to_iso start_dt); [|reflexivity]. rewrite pure_bind.
  destruct (_to_iso end_dt); [|reflexivity].
  exfalso. apply Hno. split; constructor.
Qed.

Lemma fetch_groups_no_text (start_dt end_dt : datetime)
    (groups todo : list (string * list val))
    (acc : list (string * val) * list (string * frame)) (s : state W) :
  ~ (is_ok (_to_iso start_dt) /\ is_ok (_to_iso end_dt)) ->
  st_trace (snd (fold_M (fetch_interval c args start_dt end_dt groups)
                        todo acc s)) = st_trace s.
Proof.
  intros Hno. revert acc s.
  induction todo as [|[interval ids] todo IH]; intros acc s; [reflexivity|].
  cbn [fold_M]. unfold bind at 1.
  assert (Hstep : st_trace (snd (fetch_interval c args start_dt end_dt groups acc
                                   (interval, ids) s)) = st_trace s).
  { unfold fetch_interval. rewrite pure_bind.
    destruct (let? ids0 := py_set ids in py_sorted ids0) as [[|id unique]|];
      try reflexivity.
    unfold bind at 1, on_heap at 1, alloc. rewrite pure_bind.
    destruct (_chunk _ _) as [chunks|]; [|reflexivity].
    unfold bind at 1.
    match goal with
    | |- context [fold_M ?f chunks ?a ?s0] =>
        pose proof (fetch_chunks_no_text start_dt end_dt interval chunks a s0 Hno)
          as Hc;
        destruct (fold_M f chunks a s0) as [[aggregated|e] s1]
    end; cbn [fst snd st_trace] in *; [|assumption].
    unfold bind, on_heap.
    destruct (_response_to_frames aggregated (st_heap s1)) as [[frames|e] h2];
      cbn [fst snd st_trace]; assumption. }
  destruct (fetch_interval c args start_dt end_dt groups acc (interval, ids) s)
    as [[acc1|e] s1]; cbn [fst snd] in *; [|assumption].
  now rewrite IH.
Qed.

(** X13: every bulk request of a call carries the same window: the
    renderings by [_to_iso] of the two bounds of the window of the call. *)
Theorem bulk_request_window (s s1 : state W) (start_dt end_dt : datetime)
    (cat : val) (groups : list (string * list val)) :
  resolve_groups c args s = (Ok (Some (start_dt, end_dt, cat, groups)), s1) ->
  fst (time_window args s) = Ok (start_dt, end_dt) /\
  exists new,
    st_trace (snd (fetch_timeseries c args s)) = st_trace s ++ new /\
    Forall (fun rq =>
              req_endpoint rq = "api_v1_merged" ->
              exists start_iso end_iso,
                _to_iso start_dt = Ok start_iso /\
                _to_iso end_dt = Ok end_iso /\
                payload_field "start_ts" (req_json rq) = Some (JStr start_iso) /\
                payload_field "end_ts" (req_json rq) = Some (JStr end_iso)) new.
Proof.
  intros Hres. split; [now apply resolve_groups_window in Hres|].
  destruct (resolved_groups_ok _ _ _ _ _ _ _ _ Hres) as [Hg (si & ei & Ht1)].
  rewrite (fetch_timeseries_resolved _ _ _ _ _ Hres).
  unfold fetch_groups, bind, ret.
  destruct (fetch_groups_spec c args start_dt end_dt groups groups ([], []) s1)
    as (new & Ht & Hp & _).
  pose proof (fetch_groups_no_text start_dt end_dt groups groups ([], []) s1) as Hno.
  assert (Htrace : st_trace
            (snd (let (r, s') :=
                    fold_M (fetch_interval c args start_dt end_dt groups)
                           groups ([], []) s1 in
                  match r with
                  | Ok a => (Ok {| catalog := cat; responses := fst a;
                                   dataframes := snd a |}, s')
                  | Raise e => (Raise e, s')
                  end))
          = st_trace s1 ++ new).
  { destruct (fold_M _ groups _ s1) as [[tables|e] s2]; exact Ht. }
  rewrite Htrace, Ht1, <- app_assoc. eexists. split; [reflexivity|].
  constructor; [discriminate|].
  apply List.Forall_forall. intros rq Hin _.
  destruct Hp as [rest Hp].
  destruct (plan_request c args (iso_text start_dt) (iso_text end_dt) groups rq Hg)
    as (interval & chunk & -> & _); [rewrite Hp; apply in_or_app; now left|].
  assert (Hok : is_ok (_to_iso start_dt) /\ is_ok (_to_iso end_dt)).
  { destruct (_to_iso start_dt) as [a|] eqn:Ha, (_to_iso end_dt) as [b|] eqn:Hb;
      try (split; constructor); exfalso;
      (rewrite Hno in Ht by (intros [[] []]);
       apply (f_equal (@List.length _)) in Ht; rewrite length_app in Ht;
       destruct new; [destruct Hin|cbn in Ht; lia]). }
  unfold iso_text.
  destruct (_to_iso start_dt) as [a|]; [|now destruct Hok as [[] _]].
  destruct (_to_iso end_dt) as [b|]; [|now destruct Hok as [_ []]].
  exists a, b. repeat split.
Qed.
End Window.

Lemma bulk_request_window_witness :
  fst (time_window (sample_call 10) (mk_state [] sample_script []))
  = Ok (mk_datetime 2024 1 1 6 0 0 0 (Some 0),
        mk_datetime 2024 1 1 12 0 0 0 (Some 0)) /\
  exists new,
    st_trace (snd (fetch_timeseries sample_client (sample_call 10)
                                    (mk_state [] sample_script [])))
    = [] ++ new /\
    Forall (fun rq =>
              req_endpoint rq = "api_v1_merged" ->
              exists start_iso end_iso,
                _to_iso (mk_datetime 2024 1 1 6 0 0 0 (Some 0)) = Ok start_iso /\
                _to_iso (mk_datetime 2024 1 1 12 0 0 0 (Some 0)) = Ok end_iso /\
                payload_field "start_ts" (req_json rq) = Some (JStr start_iso) /\
                payload_field "end_ts" (req_json rq) = Some (JStr end_iso)) new.
Proof.
  eapply (bulk_request_window sample_client (sample_call 10)
            (mk_state [] sample_script [])).
  vm_compute. reflexivity.
Defined.

(** ** [_response_to_frames] on a response *)




(** ** [_chunk]: sizes below one *)

(** X15: [_chunk] with a size of zero raises the [ValueError] of [range],
    and with a negative size it yields no chunk at all, whatever the
    sequence holds. *)
Theorem chunk_size_below_one {A} (sequence : list A) (size : Z) :
  size < 1 ->
  _chunk sequence size
  = if size =? 0 then Raise (ValueError "range() arg 3 must not be zero")
    else Ok [].
Proof.
  intros Hs. unfold _chunk, py_range.
  destruct (Z.eqb_spec size 0); [reflexivity|].
  destruct (Z.ltb_spec 0 size); [lia|].
  destruct (Z.ltb_spec (Z.of_nat (List.length sequence)) 0); [lia|].
  reflexivity.
Qed.

Lemma chunk_size_below_one_witness :
  _chunk ["a"; "b"; "c"] (-2) = Ok [] /\
  _chunk ["a"; "b"; "c"] 0 = Raise (ValueError "range() arg 3 must not be zero").
Proof.
  split.
  - apply (chunk_size_below_one ["a"; "b"; "c"] (-2)). lia.
  - apply (chunk_size_below_one ["a"; "b"; "c"] 0). lia.
Defined.

(** ** [_merge_responses]: the entries outside the blocks *)

(** X16: merging a source into a non-empty destination keeps the [meta] of
    the destination when it has one and takes the [meta] of the source
    otherwise: the [meta] of the first chunk wins.  No other entry of the
    source outside the three known blocks reaches the destination. *)
Theorem merge_meta_first_wins (h : heap) (destination source : val) :
  response_ok h destination -> response_ok h source ->
  truthy h destination = true ->
  rows_apart h destination source ->
  exists h' dd sd dd',
    deref h destination = Some (ODict dd) /\
    deref h source = Some (ODict sd) /\
    _merge_responses destination source h = (Ok destination, h') /\
    deref h' destination = Some (ODict dd') /\
    dict_get "meta" dd'
    = match dict_get "meta" dd with
      | Some meta => Some meta
      | None => dict_get "meta" sd
      end /\
    forall key, ~ In key KNOWN_BLOCKS -> key <> "meta" ->
                dict_get key dd' = dict_get key dd.
Proof.
  intros (dl & dd & -> & Hd & Hdb) (sl & sd & -> & Hs & Hsb) Htruthy Hsep.
  assert (Hne : dd <> []).
  { cbn in Htruthy. rewrite Hd in Htruthy. destruct dd; [discriminate|congruence]. }
  destruct (merge_loop h dl sl dd sd Hd Hs Hsb) with (blocks := KNOWN_BLOCKS)
    (done := @nil string) (hk := h) as (h2 & Hloop & Inv); try assumption.
  { intros b Hb _ Hbd. now apply Hdb. }
  { repeat constructor; rewrite ?list_elem_of_In; cbn; intuition discriminate. }
  { intros b Hb. split; [assumption|intros []]. }
  { intros b' []. }
  { apply merge_inv_init. }
  rewrite app_nil_r in Inv. pose proof Inv as (I1 & _ & _).
  destruct (I1 sl sd Hs) as (sd2 & Hsl2 & Hsk & Hsn).
  destruct (I1 dl dd Hd) as (dd2 & Hdl2 & Hdk & Hdn).
  assert (Hkeep : forall (l : loc) (d d2 : list (string * val)),
            (forall key v, dict_get key d = Some v -> dict_get key d2 = Some v) ->
            (forall key, ~ In key (rev KNOWN_BLOCKS) -> dict_get key d = None ->
                         dict_get key d2 = None) ->
            forall key, ~ In key KNOWN_BLOCKS -> dict_get key d2 = dict_get key d).
  { intros _ d d2 Hk Hn key Hkey.
    destruct (dict_get key d) as [v|] eqn:Hg; [now apply Hk|].
    apply Hn; [|assumption]. intros Hin. apply Hkey. now apply in_rev. }
  assert (Hmeta_known : ~ In "meta" KNOWN_BLOCKS) by (cbn; intuition discriminate).
  pose proof (Hkeep sl sd sd2 Hsk Hsn "meta" Hmeta_known) as Hsm.
  pose proof (Hkeep dl dd dd2 Hdk Hdn) as Hdm.
  exists (if dict_has "meta" sd2 && negb (dict_has "meta" dd2)
          then <[dl := ODict (dict_set "meta"
                                (match dict_get "meta" sd2 with
                                 | Some meta => meta
                                 | None => VNone
                                 end) dd2)]> h2
          else h2), dd, sd,
         (if dict_has "meta" sd2 && negb (dict_has "meta" dd2)
          then dict_set "meta" (match dict_get "meta" sd2 with
                                | Some meta => meta
                                | None => VNone
                                end) dd2
          else dd2).
  split; [exact Hd|]. split; [exact Hs|].
  split.
  { unfold _merge_responses. cbn [truthy]. rewrite Hd.
    destruct dd as [|e0 dd0]; [congruence|]. cbn [negb].
    rewrite (bind_ok _ _ h h2 tt Hloop).
    rewrite (bind_ok _ _ h2 h2 (dict_has "meta" sd2))
      by (apply reads_ok; unfold py_contains; now rewrite Hsl2).
    destruct (dict_has "meta" sd2) eqn:Hmeta; [|reflexivity].
    apply has_get in Hmeta as [meta Hmeta].
    unfold bind at 1.
    rewrite (bind_ok _ _ h2 h2 tt)
      by (apply reads_ok; unfold dict_method, deref; now rewrite Hdl2).
    rewrite (bind_ok _ _ h2 h2 meta)
      by (apply reads_ok; unfold getitem, deref; now rewrite Hsl2, Hmeta).
    unfold setdefault. rewrite Hdl2, Hmeta.
    now destruct (dict_has "meta" dd2). }
  assert (Hlt : (dl < List.length h2)%nat) by (eapply lookup_lt_Some; eassumption).
  split; [|split].
  - cbn [deref]. destruct (dict_has "meta" sd2 && negb (dict_has "meta" dd2));
      [now apply list_lookup_insert_eq|assumption].
  - unfold dict_has. rewrite Hsm, (Hdm "meta" Hmeta_known).
    destruct (dict_get "meta" dd) as [md|] eqn:Hmd.
    + rewrite andb_false_r. now rewrite (Hdm "meta" Hmeta_known).
    + destruct (dict_get "meta" sd) as [ms|] eqn:Hms; cbn [andb negb].
      * apply dict_get_set_eq.
      * now rewrite (Hdm "meta" Hmeta_known).
  - intros key Hkey Hmeta.
    destruct (dict_has "meta" sd2 && negb (dict_has "meta" dd2));
      [rewrite dict_get_set_ne by congruence|]; now apply Hdm.
Qed.

Lemma merge_meta_first_wins_witness :
  exists h' dd',
    _merge_responses (VRef 4%nat) (VRef 10%nat) sample_meta_store
    = (Ok (VRef 4%nat), h') /\
    deref h' (VRef 4%nat) = Some (ODict dd') /\
    dict_get "meta" dd' = Some (VRef 9%nat).
Proof.
  destruct (merge_meta_first_wins sample_meta_store (VRef 4%nat) (VRef 10%nat))
    as (h' & dd & sd & dd' & Hd & Hs & Hrun & Hd' & Hmeta & _).
  - exists 4%nat, [("probabilities", VRef 3%nat)]. split; [reflexivity|].
    split; [reflexivity|]. intros b Hb Hhas.
    destruct Hb as [<-|[<-|[<-|[]]]]; try discriminate Hhas.
    vm_compute. eauto.
  - exists 10%nat, [("probabilities", VRef 8%nat); ("meta", VRef 9%nat)].
    split; [reflexivity|].
    split; [reflexivity|]. intros b Hb Hhas.
    destruct Hb as [<-|[<-|[<-|[]]]]; try discriminate Hhas.
    vm_compute. eauto.
  - reflexivity.
  - intros b b' l Hb Hb' Hne Hl.
    destruct Hb as [<-|[<-|[<-|[]]]]; try discriminate Hl;
      destruct Hb' as [<-|[<-|[<-|[]]]]; try congruence;
      split; vm_compute; discriminate.
  - exists h', dd'. split; [assumption|]. split; [assumption|].
    rewrite Hmeta. injection Hd as <-. injection Hs as <-. reflexivity.
Defined.

(** ** [sorted(set(market_ids))] *)





Lemma forallb_false_witness {A} (f : A -> bool) (l : list A) :
  forallb f l = false -> exists a, In a l /\ f a = false.
Proof.
  induction l as [|x l IH]; [discriminate|]. cbn [forallb].
  destruct (f x) eqn:Hx.
  - intros Hl. destruct (IH Hl) as (a & Ha & Hfa). exists a. split; [now right|assumption].
  - intros _. exists x. split; [now left|assumption].
Qed.

(** X18: [sorted(set(market_ids))] fails with [TypeError] only, and only
    when an id cannot be hashed, as a list or a dict, or when two ids
    cannot be compared, as a number and a string. *)
Theorem unique_ids_error (ids : list val) (e : exn) :
  unique_ids_of ids = Raise e ->
  e = TypeError /\
  ((exists v, In v ids /\ hashable v = false) \/
   (exists a b, In a ids /\ In b ids /\ same_kind a b = false)).
Proof.
  unfold unique_ids_of, py_set.
  destruct (forallb hashable ids) eqn:Hh.
  - cbn [rbind]. unfold py_sorted.
    pose proof (fun w => in_dedup w ids) as Hin.
    destruct (dedup ids) as [|x [|y l]]; try discriminate.
    destruct (forallb is_str (x :: y :: l)) eqn:Hs; [discriminate|].
    destruct (forallb is_num (x :: y :: l)) eqn:Hn; [discriminate|].
    cbn [orb]. intros [= <-]. split; [reflexivity|right].
    apply forallb_false_witness in Hs as (a & Ha & Hsa).
    apply forallb_false_witness in Hn as (b & Hb & Hnb).
    exists a, b. split; [now apply Hin|]. split; [now apply Hin|].
    unfold same_kind. now rewrite Hsa, Hnb, andb_false_r.
  - cbn [rbind]. intros [= <-]. split; [reflexivity|left].
    now apply forallb_false_witness.
Qed.


Lemma unique_ids_error_witness :
  TypeError = TypeError /\
  ((exists v, In v [VStr "m1"; VInt 7] /\ hashable v = false) \/
   (exists a b, In a [VStr "m1"; VInt 7] /\ In b [VStr "m1"; VInt 7] /\
                same_kind a b = false)).
Proof.
  apply (unique_ids_error [VStr "m1"; VInt 7] TypeError). reflexivity.
Defined.

(** ** The grouping loop, entry by entry *)

Lemma group_append_get (interval interval' : string) (market_id : val)
    (groups : list (string * list val)) :
  dict_get interval' (group_append interval market_id groups)
  = if String.eqb interval interval'
    then Some (match dict_get interval groups with
               | Some ids => ids ++ [market_id]
               | None => [market_id]
               end)
    else dict_get interval' groups.
Proof.
  unfold group_append.
  destruct (String.eqb_spec interval interval') as [<-|Hne].
  - destruct (dict_get interval groups); apply dict_get_set_eq.
  - destruct (dict_get interval groups); now apply dict_get_set_ne.
Qed.

Lemma group_entry_target (groups groups' : list (string * list val))
    (entry : val) (h h' : heap) :
  group_entry groups entry h = (Ok groups', h') ->
  h' = h /\
  groups' = match entry_target h entry with
            | Some (interval, market_id) => group_append interval market_id groups
            | None => groups
            end.
Proof.
  unfold group_entry, entry_target, bind, reads, method_get.
  destruct (deref h entry) as [[d|items]|]; try discriminate.
  destruct (dict_get "horizon" d) as [horizon|]; cbn [or_none].
  2:{ cbn. intros [= <- <-]. split; [reflexivity|].
      now destruct (dict_get "market_id" d). }
  destruct (dict_get "market_id" d) as [market_id|]; cbn [or_none].
  2:{ cbn [truthy negb]. rewrite orb_true_r. intros [= <- <-].
      split; [reflexivity|]. now destruct horizon. }
  destruct (truthy h horizon) eqn:Hth; cbn [negb orb].
  2:{ intros [= <- <-]. split; [reflexivity|].
      destruct horizon as [| | |s|]; try reflexivity.
      cbn in Hth. apply negb_false_iff, String.eqb_eq in Hth. subst s.
      now destruct (truthy h market_id). }
  destruct (truthy h market_id) eqn:Htm; cbn [negb].
  2:{ intros [= <- <-]. split; [reflexivity|]. now destruct horizon. }
  destruct horizon as [| | |s|]; cbn [interval_of]; try discriminate;
    try (intros [= <- <-]; split; reflexivity).
  destruct (dict_get s HORIZON_INTERVAL_MAP) as [interval|] eqn:Hi.
  - pose proof (mapped_interval s interval Hi) as Hm.
    assert (Hne : String.eqb interval EmptyString = false).
    { unfold MAPPED_INTERVALS in Hm. cbn in Hm.
      destruct Hm as [<-|[<-|[<-|[<-|[]]]]]; reflexivity. }
    rewrite Hne. intros [= <- <-]. split; reflexivity.
  - intros [= <- <-]. split; reflexivity.
Qed.

Lemma group_fold_ids (entries : list val) (groups groups' : list (string * list val))
    (h h' : heap) :
  fold_M group_entry entries groups h = (Ok groups', h') ->
  h' = h /\
  forall interval,
    dict_get interval groups'
    = match dict_get interval groups, ids_of_interval h interval entries with
      | Some ids, more => Some (ids ++ more)
      | None, [] => None
      | None, more => Some more
      end.
Proof.
  revert groups. induction entries as [|entry entries IH]; intros groups.
  - cbn. intros [= <- <-]. split; [reflexivity|]. intros interval.
    destruct (dict_get interval groups); [now rewrite app_nil_r|reflexivity].
  - cbn [fold_M]. unfold bind.
    destruct (group_entry groups entry h) as [[groups1|e] h1] eqn:Hstep;
      [|discriminate].
    apply group_entry_target in Hstep as [-> Hg1]. intros Hrest.
    apply IH in Hrest as [-> Hget]. split; [reflexivity|].
    intros interval. rewrite Hget. unfold ids_of_interval. cbn [flat_map].
    fold (ids_of_interval h interval entries). subst groups1.
    destruct (entry_target h entry) as [[i m]|]; [|reflexivity].
    rewrite group_append_get.
    destruct (String.eqb_spec i interval) as [->|Hne]; [|reflexivity].
    destruct (dict_get interval groups) as [ids|].
    + now rewrite <- app_assoc.
    + reflexivity.
Qed.

(** X19: when the grouping loop completes on a catalog, the store is as
    before, and [markets_by_interval] holds, for each interval, the market
    ids of the entries whose horizon the static mapping sends to that
    interval, in the order of the catalog and with their repetitions; an
    interval without such an entry has no key.  Entries without a market id
    or with an unknown horizon are passed over. *)
Theorem group_markets_by_interval (catalog : val) (h h' : heap)
    (entries : list val) (groups : list (string * list val)) :
  iterate catalog h = Ok entries ->
  group_markets catalog h = (Ok groups, h') ->
  h' = h /\
  forall interval,
    dict_get interval groups
    = match ids_of_interval h interval entries with
      | [] => None
      | ids => Some ids
      end.
Proof.
  intros Hit. unfold group_markets, bind, reads. rewrite Hit.
  intros Hfold. apply group_fold_ids in Hfold as [-> Hget].
  split; [reflexivity|]. intros interval. now rewrite Hget.
Qed.

Lemma group_markets_by_interval_witness :
  let h := snd (load sample_catalog_json []) in
  h = h /\
  forall interval,
    dict_get interval [("5m", [VStr "m2"; VStr "m1"; VStr "m2"]);
                       ("30m", [VStr "w1"])]
    = match ids_of_interval h interval
              [VRef 0%nat; VRef 1%nat; VRef 2%nat; VRef 3%nat] with
      | [] => None
      | ids => Some ids
      end.
Proof.
  apply (group_markets_by_interval (VRef 4%nat) (snd (load sample_catalog_json []))).
  - reflexivity.
  - vm_compute. reflexivity.
Defined.

(** ** [fetch_market_catalog] *)

Section CatalogProps.
Context {W : Type} `{Session W}.

(** X20: [fetch_market_catalog] sends one request, to the catalog
    endpoint.  Its body holds a filter only when the filter was given and
    is not empty: every entry of the body is a non-empty list or a
    non-empty string, so that an empty filter asks for the same as no
    filter. *)
Theorem catalog_filters (c : client) (assets horizons market_types : option (list string))
    (start_ts end_ts : option string) (s : state W) :
  let or_absent {A} (l : option (list A)) :=
    match l with Some [] => None | _ => l end in
  let text_or_absent (t : option string) :=
    match t with Some EmptyString => None | _ => t end in
  exists entries,
    st_trace (snd (fetch_market_catalog c assets horizons market_types
                                        start_ts end_ts s))
    = st_trace s ++ [request_to c "api_v1_market_catalog" (JObj entries)] /\
    Forall (fun kv => match snd kv with
                      | JArr (_ :: _) | JStr (String _ _) => True
                      | _ => False
                      end) entries /\
    fetch_market_catalog c (or_absent assets) (or_absent horizons)
                         (or_absent market_types)
                         (text_or_absent start_ts) (text_or_absent end_ts) s
    = fetch_market_catalog c assets horizons market_types start_ts end_ts s.
Proof.
  cbv zeta. unfold fetch_market_catalog, catalog_payload.
  eexists. split; [apply post_trace|]. split.
  - repeat (apply Forall_app_2);
      unfold list_field, str_field;
      repeat match goal with
             | |- context [match ?x with _ => _ end] => destruct x
             end; repeat constructor.
  - destruct assets as [[|? ?]|], horizons as [[|? ?]|],
      market_types as [[|? ?]|], start_ts as [[|? ?]|], end_ts as [[|? ?]|];
      reflexivity.
Qed.
End CatalogProps.

(** ** [_merge_responses]: the source *)

Lemma chain_rows_meta (hk : heap) (dl r bl l : loc) (b : string) (v : val)
    (d bd dk : list (string * val)) (xs : list val) :
  hk !! r = Some (ODict d) -> dict_get b d = Some (VRef bl) ->
  hk !! bl = Some (ODict bd) -> dict_get "rows" bd = Some (VRef l) ->
  hk !! l = Some (OList xs) -> hk !! dl = Some (ODict dk) -> b <> "meta" ->
  block_rows (<[dl := ODict (dict_set "meta" v dk)]> hk) (VRef r) b = Some xs.
Proof.
  intros Hr Hb Hbl Hrows Hl Hdl Hmeta.
  assert (Hlt : (dl < List.length hk)%nat) by (eapply lookup_lt_Some; eassumption).
  assert (Hne : dl <> l) by (intros <-; congruence).
  assert (Hnew : forall (x : loc) (dx : list (string * val)) (k : string) (w : val),
            hk !! x = Some (ODict dx) -> dict_get k dx = Some w -> k <> "meta" ->
            exists dx', <[dl := ODict (dict_set "meta" v dk)]> hk !! x
                        = Some (ODict dx') /\ dict_get k dx' = Some w).
  { intros x dx k w Hx Hk Hkm. destruct (Nat.eq_dec dl x) as [<-|Hxne].
    - rewrite Hdl in Hx. injection Hx as <-. eexists. split.
      + now apply list_lookup_insert_eq.
      + rewrite dict_get_set_ne by congruence. assumption.
    - exists dx. split; [now rewrite list_lookup_insert_ne|assumption]. }
  destruct (Hnew r d b (VRef bl) Hr Hb Hmeta) as (d' & Hr' & Hb').
  destruct (Hnew bl bd "rows" (VRef l) Hbl Hrows ltac:(discriminate))
    as (bd' & Hbl' & Hrows').
  eapply (chain_rows _ r bl l); try eassumption.
  now rewrite list_lookup_insert_ne.
Qed.

(** X21: merging into a non-empty destination whose rows lists are not
    rows lists of the source changes the destination in place and leaves
    the rows of every known block of the source as they were. *)
Theorem merge_keeps_source_rows (h : heap) (destination source : val) :
  response_ok h destination -> response_ok h source ->
  truthy h destination = true ->
  rows_apart h destination source ->
  (forall b b' l, In b KNOWN_BLOCKS -> In b' KNOWN_BLOCKS ->
     block_rows_loc h destination b = Some l ->
     block_rows_loc h source b' <> Some l) ->
  exists h',
    _merge_responses destination source h = (Ok destination, h') /\
    forall b rs, In b KNOWN_BLOCKS ->
      block_rows h source b = Some rs -> block_rows h' source b = Some rs.
Proof.
  intros (dl & dd & -> & Hd & Hdb) (sl & sd & -> & Hs & Hsb) Htruthy Hsep Hapart.
  assert (Hne : dd <> []).
  { cbn in Htruthy. rewrite Hd in Htruthy. destruct dd; [discriminate|congruence]. }
  destruct (merge_loop h dl sl dd sd Hd Hs Hsb) with (blocks := KNOWN_BLOCKS)
    (done := @nil string) (hk := h) as (h2 & Hloop & Inv); try assumption.
  { intros b Hb _ Hbd. now apply Hdb. }
  { repeat constructor; rewrite ?list_elem_of_In; cbn; intuition discriminate. }
  { intros b Hb. split; [assumption|intros []]. }
  { intros b' []. }
  { apply merge_inv_init. }
  rewrite app_nil_r in Inv. pose proof Inv as (I1 & I2 & _).
  destruct (I1 sl sd Hs) as (sd2 & Hsl2 & _ & _).
  destruct (I1 dl dd Hd) as (dd2 & Hdl2 & _ & _).
  assert (Hkept : forall b rs, In b KNOWN_BLOCKS ->
            block_rows h (VRef sl) b = Some rs ->
            exists d' bl bd' l,
              h2 !! sl = Some (ODict d') /\ dict_get b d' = Some (VRef bl) /\
              h2 !! bl = Some (ODict bd') /\ dict_get "rows" bd' = Some (VRef l) /\
              h2 !! l = Some (OList rs)).
  { intros b rs Hb Hrs. unfold block_rows in Hrs.
    destruct (block_rows_loc h (VRef sl) b) as [l|] eqn:Hl; [|discriminate].
    destruct (h !! l) as [[|xs]|] eqn:Hxs; try discriminate. injection Hrs as ->.
    destruct (inv_chain h dl sl (rev KNOWN_BLOCKS) h2 sl b l Inv Hl)
      as (d' & bl & bd' & Hsl' & Hbk & Hbl' & Hrows).
    exists d', bl, bd', l. repeat split; try assumption.
    apply (I2 l rs Hxs). intros b' Hb' Hl'. apply in_rev in Hb'.
    now apply (Hapart b' b l Hb' Hb Hl'). }
  assert (Hmeta_b : forall b, In b KNOWN_BLOCKS -> b <> "meta").
  { intros b Hb ->. cbn in Hb. intuition discriminate. }
  assert (Hrun : exists h',
            _merge_responses (VRef dl) (VRef sl) h = (Ok (VRef dl), h') /\
            (h' = h2 \/ exists v, h' = <[dl := ODict (dict_set "meta" v dd2)]> h2)).
  { unfold _merge_responses. cbn [truthy]. rewrite Hd.
    destruct dd as [|e0 dd0]; [congruence|]. cbn [negb].
    rewrite (bind_ok _ _ h h2 tt Hloop).
    rewrite (bind_ok _ _ h2 h2 (dict_has "meta" sd2))
      by (apply reads_ok; unfold py_contains; now rewrite Hsl2).
    destruct (dict_has "meta" sd2) eqn:Hmeta; [|exists h2; split; [reflexivity|now left]].
    apply has_get in Hmeta as [meta Hmeta].
    unfold bind at 1.
    rewrite (bind_ok _ _ h2 h2 tt)
      by (apply reads_ok; unfold dict_method, deref; now rewrite Hdl2).
    rewrite (bind_ok _ _ h2 h2 meta)
      by (apply reads_ok; unfold getitem, deref; now rewrite Hsl2, Hmeta).
    unfold setdefault. rewrite Hdl2.
    destruct (dict_has "meta" dd2); eexists; (split; [reflexivity|]);
      [now left|right; now exists meta]. }
  destruct Hrun as (h' & Hrun & Hh'). exists h'. split; [assumption|].
  intros b rs Hb Hrs.
  destruct (Hkept b rs Hb Hrs) as (d' & bl & bd' & l & H1 & H2 & H3 & H4 & H5).
  destruct Hh' as [->|[v ->]].
  - eapply chain_rows; eassumption.
  - eapply chain_rows_meta; try eassumption. now apply Hmeta_b.
Qed.

Lemma merge_keeps_source_rows_witness :
  exists h',
    _merge_responses (VRef 4%nat) (VRef 9%nat) sample_merge_store
    = (Ok (VRef 4%nat), h') /\
    block_rows h' (VRef 9%nat) "probabilities" = Some [VRef 6%nat].
Proof.
  destruct (merge_keeps_source_rows sample_merge_store (VRef 4%nat) (VRef 9%nat))
    as (h' & Hrun & Hrows).
  - exists 4%nat, [("probabilities", VRef 3%nat)]. split; [reflexivity|].
    split; [reflexivity|]. intros b Hb Hhas.
    destruct Hb as [<-|[<-|[<-|[]]]]; try discriminate Hhas.
    vm_compute. eauto.
  - exists 9%nat, [("probabilities", VRef 8%nat)]. split; [reflexivity|].
    split; [reflexivity|]. intros b Hb Hhas.
    destruct Hb as [<-|[<-|[<-|[]]]]; try discriminate Hhas.
    vm_compute. eauto.
  - reflexivity.
  - intros b b' l Hb Hb' Hne Hl.
    destruct Hb as [<-|[<-|[<-|[]]]]; try discriminate Hl;
      destruct Hb' as [<-|[<-|[<-|[]]]]; try congruence;
      split; vm_compute; discriminate.
  - intros b b' l Hb Hb' Hl.
    destruct Hb as [<-|[<-|[<-|[]]]]; try discriminate Hl;
      destruct Hb' as [<-|[<-|[<-|[]]]]; vm_compute in Hl |- *; congruence.
  - exists h'. split; [assumption|]. apply Hrows; [cbn; auto|reflexivity].
Defined.

(** ** The calendar: dates and ordinals *)

Lemma year_split (y : Z) :
  1 <= y <= 9999 ->
  exists a b c e,
    0 <= a <= 24 /\ 0 <= b <= 3 /\ 0 <= c <= 24 /\ 0 <= e <= 3 /\
    y = 400 * a + 100 * b + 4 * c + e + 1.
Proof.
  intros Hy.
  exists ((y - 1) / 400), ((y - 1) mod 400 / 100),
    ((y - 1) mod 400 mod 100 / 4), ((y - 1) mod 400 mod 100 mod 4).
  pose proof (Z.div_mod (y - 1) 400 ltac:(lia)).
  pose proof (Z.mod_pos_bound (y - 1) 400 ltac:(lia)).
  set (r := (y - 1) mod 400) in *. set (a := (y - 1) / 400) in *. clearbody r a.
  pose proof (Z.div_mod r 100 ltac:(lia)).
  pose proof (Z.mod_pos_bound r 100 ltac:(lia)).
  set (r2 := r mod 100) in *. set (b := r / 100) in *. clearbody r2 b.
  pose proof (Z.div_mod r2 4 ltac:(lia)).
  pose proof (Z.mod_pos_bound r2 4 ltac:(lia)).
  set (e := r2 mod 4) in *. set (c := r2 / 4) in *. clearbody e c.
  lia.
Qed.

Lemma DAYS_IN_MONTH_cases (m : Z) :
  1 <= m <= 12 ->
  (m = 1 /\ DAYS_IN_MONTH m = 31) \/ (m = 2 /\ DAYS_IN_MONTH m = 28) \/
  (m = 3 /\ DAYS_IN_MONTH m = 31) \/ (m = 4 /\ DAYS_IN_MONTH m = 30) \/
  (m = 5 /\ DAYS_IN_MONTH m = 31) \/ (m = 6 /\ DAYS_IN_MONTH m = 30) \/
  (m = 7 /\ DAYS_IN_MONTH m = 31) \/ (m = 8 /\ DAYS_IN_MONTH m = 31) \/
  (m = 9 /\ DAYS_IN_MONTH m = 30) \/ (m = 10 /\ DAYS_IN_MONTH m = 31) \/
  (m = 11 /\ DAYS_IN_MONTH m = 30) \/ (m = 12 /\ DAYS_IN_MONTH m = 31).
Proof.
  intros Hm.
  assert (m = 1 \/ m = 2 \/ m = 3 \/ m = 4 \/ m = 5 \/ m = 6 \/ m = 7 \/ m = 8 \/
          m = 9 \/ m = 10 \/ m = 11 \/ m = 12) as Hc by lia.
  repeat (destruct Hc as [->|Hc]; [tauto|]). subst. tauto.
Qed.

(** The day of the year, from zero, of a date, and its bounds. *)
Lemma day_of_year_bounds (y m d : Z) :
  1 <= m <= 12 -> 1 <= d <= days_in_month y m ->
  let n := days_before_month y m + d - 1 in
  0 <= n <= (if is_leap y then 365 else 364) /\
  (365 <= n -> m = 12 /\ d = 31) /\
  (let est := (n + 50) / 32 in
   let preceding := DAYS_BEFORE_MONTH est + (if (2 <? est) && is_leap y then 1 else 0) in
   (est = m /\ preceding <= n) \/
   (est = m + 1 /\ n < preceding /\
    preceding - (DAYS_IN_MONTH m + (if (m =? 2) && is_leap y then 1 else 0))
    = days_before_month y m)).
Proof.
  intros Hm Hd. unfold days_in_month, days_before_month in *.
  destruct (is_leap y);
    destruct (DAYS_IN_MONTH_cases m Hm) as
      [[-> Hb]|[[-> Hb]|[[-> Hb]|[[-> Hb]|[[-> Hb]|[[-> Hb]|[[-> Hb]|[[-> Hb]|[[-> Hb]|[[-> Hb]|[[-> Hb]|[-> Hb]]]]]]]]]]]];
    rewrite Hb in *; clear Hb;
    match type of Hd with
    | context [(?i =? ?k) && ?l] =>
        let v := eval vm_compute in ((i =? k) && l) in
        change ((i =? k) && l) with v in Hd
    end; cbv beta iota in Hd;
    match goal with
    | |- context [DAYS_BEFORE_MONTH ?k + _ + d - 1] =>
        let v := eval vm_compute in (DAYS_BEFORE_MONTH k) in
        change (DAYS_BEFORE_MONTH k) with v
    end;
    match goal with
    | |- context [(2 <? ?k) && ?l] =>
        let v := eval vm_compute in ((2 <? k) && l) in
        change ((2 <? k) && l) with v
    end;
    cbv beta iota zeta;
    match goal with
    | |- context [(?x + 50) / 32] =>
        pose proof (Z.div_mod (x + 50) 32 ltac:(lia));
        pose proof (Z.mod_pos_bound (x + 50) 32 ltac:(lia));
        let est := fresh "est" in
        set (est := (x + 50) / 32) in *;
        (split; [lia|]); (split; [lia|]);
        match goal with
        | |- (_ = ?k /\ _) \/ _ =>
            assert (Hest : est = k \/ est = k + 1) by lia
        end;
        clearbody est; destruct Hest as [-> | ->]; [left|right]
    end;
    repeat match goal with
           | |- context [DAYS_BEFORE_MONTH ?k] =>
               let v := eval vm_compute in (DAYS_BEFORE_MONTH k) in
               change (DAYS_BEFORE_MONTH k) with v
           | |- context [DAYS_IN_MONTH ?k] =>
               let v := eval vm_compute in (DAYS_IN_MONTH k) in
               change (DAYS_IN_MONTH k) with v
           | |- context [(?i <? ?k) && ?l] =>
               let v := eval vm_compute in ((i <? k) && l) in
               change ((i <? k) && l) with v
           | |- context [(?i =? ?k) && ?l] =>
               let v := eval vm_compute in ((i =? k) && l) in
               change ((i =? k) && l) with v
           end;
    cbv beta iota; try lia.
Qed.

Lemma radix_unique (k q r q' r' : Z) :
  0 <= r < k -> 0 <= r' < k -> k * q + r = k * q' + r' -> q = q' /\ r = r'.
Proof. intros Hr Hr' Heq. assert (q = q') by nia. subst. lia. Qed.

(** The date of the ordinal of a date is that date. *)
Lemma ord2ymd_ymd2ord (y m d : Z) :
  1 <= y <= 9999 -> 1 <= m <= 12 -> 1 <= d <= days_in_month y m ->
  1 <= ymd2ord y m d <= MAXORDINAL /\ ord2ymd (ymd2ord y m d) = (y, m, d).
Proof.
  intros Hy Hm Hd.
  destruct (year_split y Hy) as (a & b & c & e & Ha & Hb & Hc & He & ->).
  pose proof (day_of_year_bounds _ m d Hm Hd) as Hn. cbv zeta in Hn.
  assert (Hy' : 400 * a + 100 * b + 4 * c + e <= 9998) by lia.
  unfold ymd2ord, MAXORDINAL.
  rewrite days_before_year_split by lia.
  rewrite is_leap_split in Hn by lia.
  set (y := 400 * a + 100 * b + 4 * c + e + 1) in *.
  set (n := days_before_month y m + d - 1) in *.
  set (leap := (e =? 3) && (negb (c =? 24) || (b =? 3))) in *.
  replace (146097 * a + 36524 * b + 1461 * c + 365 * e + days_before_month y m + d)
    with (146097 * a + 36524 * b + 1461 * c + 365 * e + n + 1) by (subst n; lia).
  destruct Hn as (Hn & Hlast & Hest).
  assert (Hbound : 0 <= n <= 365 /\ (n = 365 -> leap = true)).
  { destruct leap; split; try lia; auto. }
  assert (Hleap : leap = true -> e = 3 /\ (c <> 24 \/ b = 3)).
  { subst leap. destruct (Z.eqb_spec e 3), (Z.eqb_spec c 24), (Z.eqb_spec b 3);
      cbn; intros; try discriminate; lia. }
  split.
  { destruct Hbound as [Hb0 Hl]. destruct (Z.eq_dec n 365) as [E|E].
    - destruct (Hleap (Hl E)) as [-> Hcb]. lia.
    - lia. }
  unfold ord2ymd.
  set (n0 := 146097 * a + 36524 * b + 1461 * c + 365 * e + n + 1 - 1).
  assert (Hn0 : n0 = 146097 * a + 36524 * b + 1461 * c + 365 * e + n)
    by (subst n0; lia).
  set (n400 := n0 / 146097). set (r400 := n0 mod 146097).
  set (n100 := r400 / 36524). set (r100 := r400 mod 36524).
  set (n4 := r100 / 1461). set (r4 := r100 mod 1461).
  set (n1 := r4 / 365). set (nn := r4 mod 365).
  assert (H400 : 0 <= r400 < 146097 /\ n0 = 146097 * n400 + r400).
  { subst n400 r400. pose proof (Z.div_mod n0 146097 ltac:(lia)).
    pose proof (Z.mod_pos_bound n0 146097 ltac:(lia)). lia. }
  assert (H100 : 0 <= r100 < 36524 /\ r400 = 36524 * n100 + r100).
  { subst n100 r100. pose proof (Z.div_mod r400 36524 ltac:(lia)).
    pose proof (Z.mod_pos_bound r400 36524 ltac:(lia)). lia. }
  assert (H4 : 0 <= r4 < 1461 /\ r100 = 1461 * n4 + r4).
  { subst n4 r4. pose proof (Z.div_mod r100 1461 ltac:(lia)).
    pose proof (Z.mod_pos_bound r100 1461 ltac:(lia)). lia. }
  assert (H1 : 0 <= nn < 365 /\ r4 = 365 * n1 + nn).
  { subst n1 nn. pose proof (Z.div_mod r4 365 ltac:(lia)).
    pose proof (Z.mod_pos_bound r4 365 ltac:(lia)). lia. }
  clearbody n0 n400 r400 n100 r100 n4 r4 n1 nn.
  assert (Hcases :
            (n400 = a /\ n100 = b /\ n4 = c /\ n1 = e /\ nn = n /\ n <= 364) \/
            (n = 365 /\ n400 = a /\ n100 = b /\ n4 = c /\ n1 = 4 /\ nn = 0
             /\ e = 3) \/
            (n = 365 /\ n400 = a /\ n100 = 4 /\ n4 = 0 /\ n1 = 0 /\ nn = 0
             /\ e = 3 /\ c = 24 /\ b = 3)).
  { destruct Hbound as [Hb0 Hl]. destruct (Z.eq_dec n 365) as [E|E].
    - destruct (Hleap (Hl E)) as [-> Hcb]. right.
      destruct (Z.eq_dec c 24) as [->|Hc24].
      + assert (b = 3) as -> by lia. right.
        assert (n400 = a /\ r400 = 146096) as [-> ->]
          by (apply (radix_unique 146097); lia).
        assert (n100 = 4 /\ r100 = 0) as [-> ->]
          by (apply (radix_unique 36524); lia).
        assert (n4 = 0 /\ r4 = 0) as [-> ->]
          by (apply (radix_unique 1461); lia).
        assert (n1 = 0 /\ nn = 0) as [-> ->]
          by (apply (radix_unique 365); lia).
        repeat split; lia.
      + left.
        assert (n400 = a /\ r400 = (36524 * b + 1461 * c + 1460)) as [-> ->]
          by (apply (radix_unique 146097); lia).
        assert (n100 = b /\ r100 = (1461 * c + 1460)) as [-> ->]
          by (apply (radix_unique 36524); lia).
        assert (n4 = c /\ r4 = 1460) as [-> ->]
          by (apply (radix_unique 1461); lia).
        assert (n1 = 4 /\ nn = 0) as [-> ->]
          by (apply (radix_unique 365); lia).
        repeat split; lia.
    - left.
      assert (n400 = a /\ r400 = (36524 * b + 1461 * c + 365 * e + n)) as [-> ->]
          by (apply (radix_unique 146097); lia).
      assert (n100 = b /\ r100 = (1461 * c + 365 * e + n)) as [-> ->]
          by (apply (radix_unique 36524); lia).
      assert (n4 = c /\ r4 = (365 * e + n)) as [-> ->]
          by (apply (radix_unique 1461); lia).
      assert (n1 = e /\ nn = n) as [-> ->]
          by (apply (radix_unique 365); lia).
        repeat split; lia. }
  destruct Hcases as [(-> & -> & -> & -> & -> & Hle)|
                      [(E & -> & -> & -> & -> & -> & ->)|
                       (E & -> & -> & -> & -> & -> & -> & -> & ->)]].
  - assert (He4 : (e =? 4) = false) by (apply Z.eqb_neq; lia).
    assert (Hb4 : (b =? 4) = false) by (apply Z.eqb_neq; lia).
    rewrite He4, Hb4. cbn [orb].
    rewrite Z.shiftr_div_pow2 by lia. change (2 ^ 5) with 32.
    fold leap.
    replace (a * 400 + 1 + b * 100 + c * 4 + e) with y by (subst y; lia).
    destruct Hest as [[Hest Hpre]|(Hest & Hpre & Hprev)].
    + destruct (Z.ltb_spec n (DAYS_BEFORE_MONTH ((n + 50) / 32)
                              + (if (2 <? (n + 50) / 32) && leap then 1 else 0)));
        [lia|].
      rewrite Hest in *. f_equal.
      unfold n, days_before_month, y. rewrite is_leap_split by lia. fold leap. lia.
    + destruct (Z.ltb_spec n (DAYS_BEFORE_MONTH ((n + 50) / 32)
                              + (if (2 <? (n + 50) / 32) && leap then 1 else 0)));
        [|lia].
      rewrite Hest in *. replace (m + 1 - 1) with m in * by lia.
      f_equal. rewrite Hprev. subst n. lia.
  - change (4 =? 4) with true. cbn [orb].
    destruct (Hlast ltac:(lia)) as [-> ->]. f_equal. f_equal. subst y. lia.
  - change (4 =? 4) with true. rewrite orb_true_r.
    destruct (Hlast ltac:(lia)) as [-> ->]. f_equal. f_equal. subst y. lia.
Qed.

(** ** Datetimes with valid fields *)

Lemma datetime_add_zero (dt : datetime) :
  valid_datetime dt -> datetime_add dt 0 = Ok dt.
Proof.
  intros (Hy & Hm & Hd & Hh & Hmi & Hs & Hus).
  destruct (ord2ymd_ymd2ord _ _ _ Hy Hm Hd) as [Ho Hymd].
  unfold datetime_add, wall_us. rewrite Z.add_0_r.
  set (o := ymd2ord (year dt) (month dt) (day dt)) in *. clearbody o.
  unfold US_PER_DAY, US_PER_SECOND, MAXORDINAL in *.
  set (secs := hour dt * 3600 + minute dt * 60 + second dt).
  assert (Hsecs : 0 <= secs < 86400) by (subst secs; lia).
  set (total := o * (86400 * 1000000) + secs * 1000000 + microsecond dt).
  assert (Hdiv : total / (86400 * 1000000) = o /\
                 total mod (86400 * 1000000) = secs * 1000000 + microsecond dt).
  { pose proof (Z.div_mod total (86400 * 1000000) ltac:(lia)).
    pose proof (Z.mod_pos_bound total (86400 * 1000000) ltac:(lia)).
    apply (radix_unique (86400 * 1000000)); lia. }
  destruct Hdiv as [-> ->].
  assert (Hdiv : (secs * 1000000 + microsecond dt) / 1000000 = secs /\
                 (secs * 1000000 + microsecond dt) mod 1000000 = microsecond dt).
  { pose proof (Z.div_mod (secs * 1000000 + microsecond dt) 1000000 ltac:(lia)).
    pose proof (Z.mod_pos_bound (secs * 1000000 + microsecond dt) 1000000
                  ltac:(lia)).
    apply (radix_unique 1000000); lia. }
  destruct Hdiv as [-> ->].
  destruct (Z.ltb_spec 0 o); [|lia]. destruct (Z.leb_spec o 3652059); [|lia].
  cbn [andb]. rewrite Hymd.
  assert (Hhh : secs / 3600 = hour dt /\ secs mod 3600 = minute dt * 60 + second dt).
  { pose proof (Z.div_mod secs 3600 ltac:(lia)).
    pose proof (Z.mod_pos_bound secs 3600 ltac:(lia)).
    apply (radix_unique 3600); subst secs; lia. }
  destruct Hhh as [-> Hrest]. rewrite Hrest.
  assert (Hmm : (minute dt * 60 + second dt) / 60 = minute dt /\
                (minute dt * 60 + second dt) mod 60 = second dt).
  { pose proof (Z.div_mod (minute dt * 60 + second dt) 60 ltac:(lia)).
    pose proof (Z.mod_pos_bound (minute dt * 60 + second dt) 60 ltac:(lia)).
    apply (radix_unique 60); lia. }
  destruct Hmm as [-> _].
  assert (Hss : secs mod 60 = second dt).
  { subst secs.
    replace (hour dt * 3600 + minute dt * 60 + second dt)
      with (second dt + (hour dt * 60 + minute dt) * 60) by lia.
    rewrite Z.mod_add by lia. apply Z.mod_small. lia. }
  rewrite Hss. now destruct dt.
Qed.

Lemma replace_z_suffix (s : string) :
  date_string s ->
  str_replace "Z" "+00:00" (s +:+ "Z") = s +:+ "+00:00".
Proof.
  unfold str_replace, date_string.
  induction s as [|c s IH]; intros Hs; [reflexivity|].
  change (chars (String c s)) with (c :: chars s) in Hs.
  inversion Hs as [|? ? Hc Hrest]; subst.
  change (String c s +:+ "Z") with (String c (s +:+ "Z")).
  rewrite replace_from_cons, prefix_head_ne.
  - change (String c s +:+ "+00:00") with (String c (s +:+ "+00:00")).
    f_equal. now apply IH.
  - intros <-. discriminate Hc.
Qed.

Section UtcValues.
Context `{DatetimeLib}.

Lemma astimezone_utc_valid (dt : datetime) :
  valid_datetime dt -> tzinfo dt = Some 0 -> astimezone_utc dt = Ok dt.
Proof.
  intros Hv Htz. unfold astimezone_utc. rewrite Htz. change (- 0) with 0.
  rewrite (datetime_add_zero dt Hv). cbn [rbind]. f_equal.
  destruct dt. cbn in *. now subst.
Qed.

(** X22: for a datetime in UTC whose fields are valid, [_to_iso] writes
    these very fields, [YYYY-MM-DDTHH:MM:SS], followed by [Z]; the
    microseconds are dropped. *)
Theorem to_iso_utc_fields (dt : datetime) :
  valid_datetime dt -> tzinfo dt = Some 0 ->
  _to_iso dt = Ok (iso_seconds dt +:+ "Z").
Proof.
  intros Hv Htz. apply to_iso_ok. now apply astimezone_utc_valid.
Qed.

(** X23: [_ensure_datetime] reads back what [_to_iso] wrote: for a valid
    datetime in UTC, and a parser that reads the ISO text of its value cut
    to whole seconds, the text given by [_to_iso] is turned by
    [_ensure_datetime] into that value. *)
Theorem ensure_datetime_reads_to_iso (dt fallback : datetime) :
  valid_datetime dt -> tzinfo dt = Some 0 ->
  fromisoformat (isoformat (replace_microsecond dt 0))
  = Ok (replace_microsecond dt 0) ->
  exists text,
    _to_iso dt = Ok text /\
    _ensure_datetime (Some text) fallback = Ok (replace_microsecond dt 0).
Proof.
  intros Hv Htz Hparse. exists (iso_seconds dt +:+ "Z").
  split; [apply to_iso_ok; now apply astimezone_utc_valid|].
  unfold _ensure_datetime.
  rewrite replace_z_suffix by apply iso_seconds_date.
  rewrite isoformat_utc in Hparse by (cbn; assumption || reflexivity).
  change (iso_seconds (replace_microsecond dt 0)) with (iso_seconds dt) in Hparse.
  rewrite Hparse. cbn [rbind].
  change (tzinfo (replace_microsecond dt 0)) with (tzinfo dt). rewrite Htz.
  apply astimezone_utc_valid; [|assumption].
  destruct Hv as (Hy & Hm & Hd & Hh & Hmi & Hs & Hus).
  repeat split; cbn; try tauto; lia.
Qed.
End UtcValues.

Lemma to_iso_utc_fields_witness :
  _to_iso sample_datetime_utc = Ok "2024-01-01T12:00:00Z".
Proof.
  apply (to_iso_utc_fields sample_datetime_utc).
  - unfold valid_datetime. vm_compute. intuition discriminate.
  - reflexivity.
Defined.

Lemma ensure_datetime_reads_to_iso_witness :
  exists text,
    _to_iso sample_datetime_utc = Ok text /\
    _ensure_datetime (Some text) sample_datetime
    = Ok (mk_datetime 2024 1 1 12 0 0 0 (Some 0)).
Proof.
  apply (ensure_datetime_reads_to_iso sample_datetime_utc sample_datetime).
  - unfold valid_datetime. vm_compute. intuition discriminate.
  - reflexivity.
  - reflexivity.
Defined.
